(** * RateManager: per-cycle bandwidth allocation (Tribler/API/RateManager.py)

    A shallow embedding of class [RateManager] and of the properties its
    specification states about it.

    Modelling choices.
    - Rates are Python numbers in the source: the speeds and the thresholds
      are floats, so every division is a float division.  They are modelled
      by exact rationals [Q]; numeric equality [==] of the source is [Qeq],
      and a value that the source copies from one field to another is
      Leibniz-equal.
    - A [Download] object [d] is a mutable object shared between the manager
      and the transfer engine.  It is modelled by a reference ([ident]) into
      a [heap] of [Download] records; [DownloadState] objects [ds] are the
      read-only snapshots handed to [add_downloadstate].
    - [self.dset] is a [gset] of references, [self.statusmap] and
      [self.currenttotal] are dictionaries over a fixed key set and are
      modelled by total functions.
    - A Python exception is the [Raises] outcome; it carries the state that
      had been reached when the exception left the method.
    - The prints to [sys.stderr] are left out, and so is [urm_time], which
      no method reads. *)

From Stdlib Require Import QArith Qminmax Lqa Psatz List Sorting.Sorted Permutation.
From stdpp Require Import base decidable functions gmap list.
Import ListNotations.
Local Open Scope Q_scope.

(** ** simpledefs *)

Inductive direction := UPLOAD | DOWNLOAD.

Inductive dlstatus :=
| DLSTATUS_ALLOCATING_DISKSPACE
| DLSTATUS_WAITING4HASHCHECK
| DLSTATUS_HASHCHECKING
| DLSTATUS_DOWNLOADING
| DLSTATUS_SEEDING
| DLSTATUS_STOPPED
| DLSTATUS_STOPPED_ON_ERROR.

#[global] Instance direction_eq_dec : EqDecision direction.
Proof. solve_decision. Defined.

#[global] Instance dlstatus_eq_dec : EqDecision dlstatus.
Proof. solve_decision. Defined.

(** ** Comparisons on rates *)

Definition Qltb (x y : Q) : bool := negb (Qle_bool y x).

(** ** The objects the manager is handed *)

(** [ds]: the snapshot of one transfer, read-only to the manager. *)
Record DownloadState := mkDownloadState {
  get_status : dlstatus;
  get_current_speed : direction -> Q;
  has_active_connections : bool
}.

(** [d]: the two per-direction rates the manager reads and writes.
    [max_speed] is the rate the transfer is allowed, [max_desired_speed] the
    rate it wants (also used as its local cap). *)
Record Download := mkDownload {
  max_speed : direction -> Q;
  max_desired_speed : direction -> Q
}.

Definition ident := nat.
Definition heap := ident -> Download.
Definition torrent : Type := ident * DownloadState.

Definition get_max_speed (h : heap) (d : ident) (dir : direction) : Q :=
  max_speed (h d) dir.

Definition get_max_desired_speed (h : heap) (d : ident) (dir : direction) : Q :=
  max_desired_speed (h d) dir.

Definition set_max_speed (h : heap) (d : ident) (dir : direction) (v : Q) : heap :=
  <[d := mkDownload (<[dir := v]> (max_speed (h d))) (max_desired_speed (h d))]> h.

Definition set_max_desired_speed (h : heap) (d : ident) (dir : direction) (v : Q)
  : heap :=
  <[d := mkDownload (max_speed (h d)) (<[dir := v]> (max_desired_speed (h d)))]> h.

(** How a method call ends. *)
Inductive outcome (S : Type) : Type :=
| Returns (s : S)
| Raises (s : S).
Arguments Returns {S} s.
Arguments Raises {S} s.

Definition state_of {S : Type} (o : outcome S) : S :=
  match o with Returns s => s | Raises s => s end.

Definition returned {S : Type} (o : outcome S) : bool :=
  match o with Returns _ => true | Raises _ => false end.

(** ** class RateManager *)

Record RateManager := mkRateManager {
  urm_enabled : bool;
  max_upload_rate : Q;
  max_seed_upload_rate : Q;
  max_download_rate : Q;
  lock : nat;                       (* recursion count of the RLock *)
  statusmap : dlstatus -> list torrent;
  currenttotal : direction -> Q;
  dset : gset ident;
  calcupth1 : Q;
  calcupth2 : Q;
  meancalcupth : Q;
  lastmaxrate : Q;
  rateminimum : direction -> Q
}.

Definition set_registry (rm : RateManager) (sm : dlstatus -> list torrent)
    (ct : direction -> Q) (ds : gset ident) : RateManager :=
  mkRateManager (urm_enabled rm) (max_upload_rate rm) (max_seed_upload_rate rm)
    (max_download_rate rm) (lock rm) sm ct ds (calcupth1 rm) (calcupth2 rm)
    (meancalcupth rm) (lastmaxrate rm) (rateminimum rm).

Definition set_lock (rm : RateManager) (n : nat) : RateManager :=
  mkRateManager (urm_enabled rm) (max_upload_rate rm) (max_seed_upload_rate rm)
    (max_download_rate rm) n (statusmap rm) (currenttotal rm) (dset rm)
    (calcupth1 rm) (calcupth2 rm) (meancalcupth rm) (lastmaxrate rm)
    (rateminimum rm).

Definition lock_acquire (rm : RateManager) : RateManager := set_lock rm (S (lock rm)).
Definition lock_release (rm : RateManager) : RateManager := set_lock rm (pred (lock rm)).

(** [clear_downloadstates]: every bucket to [[]], both totals to 0, the set
    emptied. *)
Definition clear_downloadstates (rm : RateManager) : RateManager :=
  set_registry rm (fun _ => []) (fun _ => 0) ∅.

(** [__init__] *)
Definition init (max_upload_rate max_seed_upload_rate max_download_rate : Q)
  : RateManager :=
  clear_downloadstates
    (mkRateManager true max_upload_rate max_seed_upload_rate max_download_rate
       0%nat (fun _ => []) (fun _ => 0) ∅
       (23 # 10) (7 # 10) (((23 # 10) + (7 # 10)) / 2) (-1)
       (fun dir => match dir with UPLOAD => 3 | DOWNLOAD => 1 # 100 end)).

(** [add_downloadstate]: the registry after the call and the value returned.
    The lock is taken and given back in a [finally] clause, so its count is
    the one found at entry. *)
Definition add_downloadstate (rm : RateManager) (d : ident) (ds : DownloadState)
  : RateManager * nat :=
  let rm0 := lock_acquire rm in
  let rm1 :=
    if decide (d ∉ dset rm0) then
      let sm := <[get_status ds := statusmap rm0 (get_status ds) ++ [(d, ds)]]>
                  (statusmap rm0) in
      let ct :=
        fold_left (fun ct dir => <[dir := ct dir + get_current_speed ds dir]> ct)
                  [UPLOAD; DOWNLOAD] (currenttotal rm0) in
      set_registry rm0 sm ct ({[d]} ∪ dset rm0)
    else rm0 in
  (lock_release rm1, size (dset rm1)).

Definition MaxRate (rm : RateManager) (dir : direction) : Q :=
  match dir with
  | UPLOAD =>
      if (length (statusmap rm DLSTATUS_DOWNLOADING) =? 0)%nat
         && (0 <? length (statusmap rm DLSTATUS_SEEDING))%nat
      then max_seed_upload_rate rm
      else max_upload_rate rm
  | DOWNLOAD => max_download_rate rm
  end.

Definition any_torrents_checking (rm : RateManager) : bool :=
  (0 <? length (statusmap rm DLSTATUS_ALLOCATING_DISKSPACE))%nat
  || (0 <? length (statusmap rm DLSTATUS_WAITING4HASHCHECK))%nat
  || (0 <? length (statusmap rm DLSTATUS_HASHCHECKING))%nat.

(** ** CalculateBandwidth *)

(** The torrents the computation for [dir] looks at: downloading (and, for
    uploads, seeding) ones with active connections. *)
Definition workingset (rm : RateManager) (dir : direction) : list torrent :=
  let workingset :=
    match dir with
    | UPLOAD => statusmap rm DLSTATUS_DOWNLOADING ++ statusmap rm DLSTATUS_SEEDING
    | DOWNLOAD => statusmap rm DLSTATUS_DOWNLOADING
    end in
  List.filter (fun t : torrent => has_active_connections (snd t)) workingset.

(** Unlimited rate: the allowed rate becomes the desired one. *)
Definition unlimited_step (dir : direction) (h : heap) (t : torrent) : heap :=
  let '(d, ds) := t in
  set_max_speed h d dir (get_max_desired_speed h d dir).

(** The lists filled by the dispatch loop, and [meanrate]. *)
Record buckets := mkBuckets {
  localprioactive : list torrent;
  tobelowered : list torrent;
  toberaised : list torrent;
  toberaisedinpriority : list torrent;
  nottobechanged : list torrent;
  meanrate : Q
}.

Definition no_buckets : buckets := mkBuckets [] [] [] [] [] 0.

(** [prioritizelocal = False]: a local of [CalculateBandwidth], assigned once
    before the dispatch loop. *)
Definition prioritizelocal : bool := false.

(** One iteration of the dispatch loop.  [prio] is the value of the local
    [prioritizelocal]. *)
Definition dispatch_step (prio : bool) (rm : RateManager) (dir : direction)
    (st : heap * buckets) (t : torrent) : heap * buckets :=
  let '(h, b) := st in
  let '(d, ds) := t in
  let currentrate := get_current_speed ds dir in
  let currentlimit := get_max_speed h d dir in
  let maxdesiredrate := get_max_desired_speed h d dir in
  if prio && negb (Qeq_bool maxdesiredrate 0) then
    (h, mkBuckets (localprioactive b ++ [t]) (tobelowered b) (toberaised b)
          (toberaisedinpriority b) (nottobechanged b) (meanrate b))
  else if Qltb currentrate (5 # 100) then
    (set_max_desired_speed h d dir 0, b)
  else if Qltb (calcupth1 rm) (currentlimit - currentrate) then
    (h, mkBuckets (localprioactive b) (tobelowered b ++ [t]) (toberaised b)
          (toberaisedinpriority b) (nottobechanged b) (meanrate b))
  else if Qle_bool (currentlimit - currentrate) (calcupth2 rm) then
    if Qltb currentrate (rateminimum rm dir) then
      (h, mkBuckets (localprioactive b) (tobelowered b) (toberaised b)
            (toberaisedinpriority b ++ [t]) (nottobechanged b) (meanrate b))
    else
      (h, mkBuckets (localprioactive b) (tobelowered b) (toberaised b ++ [t])
            (toberaisedinpriority b) (nottobechanged b)
            (meanrate b + currentlimit))
  else if Qltb (rateminimum rm dir) currentrate then
    (h, mkBuckets (localprioactive b) (tobelowered b) (toberaised b)
          (toberaisedinpriority b) (nottobechanged b ++ [t])
          (meanrate b + currentlimit))
  else (h, b).

Definition dispatch (prio : bool) (rm : RateManager) (dir : direction)
    (ws : list torrent) (h : heap) : heap * buckets :=
  fold_left (dispatch_step prio rm dir) ws (h, no_buckets).

(** The test ahead of the free-wheeling loop. *)
Definition free_wheeling (rm : RateManager) (dir : direction) : bool :=
  let availableratetobedistributed := MaxRate rm dir in
  negb (Qeq_bool availableratetobedistributed 0)
  && Qltb (20 # 100) (1 - currenttotal rm dir / availableratetobedistributed).

(** One iteration of the free-wheeling loop. *)
Definition free_wheeling_step (rm : RateManager) (dir : direction) (h : heap)
    (t : torrent) : heap :=
  let '(d, ds) := t in
  let currentrate := get_current_speed ds dir in
  let maxdesiredrate := get_max_desired_speed h d dir in
  let newrate := currentrate + meancalcupth rm in
  let maxlocalrate := maxdesiredrate in
  let '(rateToUse, newrate) :=
    if Qltb 0 maxlocalrate then
      (maxlocalrate, if Qltb maxlocalrate newrate then maxlocalrate else newrate)
    else (MaxRate rm dir, newrate) in
  set_max_speed (set_max_desired_speed h d dir newrate) d dir rateToUse.

(** Torrents below the minimum rate that want more: raised in priority. *)
Definition raise_in_priority_step (rm : RateManager) (dir : direction)
    (st : heap * Q) (t : torrent) : heap * Q :=
  let '(h, grantedfortoberaisedinpriority) := st in
  let '(d, ds) := t in
  let currentrate := get_current_speed ds dir in
  let maxdesiredrate := get_max_desired_speed h d dir in
  let newreservedrate := currentrate + meancalcupth rm in
  if Qltb (rateminimum rm dir) newreservedrate then
    (set_max_desired_speed h d dir (rateminimum rm dir),
     grantedfortoberaisedinpriority + (rateminimum rm dir - maxdesiredrate))
  else
    (set_max_desired_speed h d dir newreservedrate,
     grantedfortoberaisedinpriority + (newreservedrate - maxdesiredrate)).

(** Torrents with a local rate setting, when [prioritizelocal] is set. *)
Definition local_priority_step (rm : RateManager) (dir : direction)
    (st : heap * Q) (t : torrent) : heap * Q :=
  let '(h, grantedforlocaltoberaised) := st in
  let '(d, ds) := t in
  let currentrate := get_current_speed ds dir in
  let maxdesiredrate := get_max_desired_speed h d dir in
  let newrate := currentrate + meancalcupth rm in
  let maxlocalrate := maxdesiredrate in
  let newrate := if Qltb maxlocalrate newrate then maxlocalrate else newrate in
  (set_max_speed (set_max_desired_speed h d dir newrate) d dir maxlocalrate,
   grantedforlocaltoberaised + (newrate - maxdesiredrate)).

(** Torrents that give back reserved bandwidth. *)
Definition lower_step (rm : RateManager) (dir : direction)
    (st : heap * Q) (t : torrent) : heap * Q :=
  let '(h, givenbackbytobelowered) := st in
  let '(d, ds) := t in
  let currentrate := get_current_speed ds dir in
  let maxdesiredrate := get_max_desired_speed h d dir in
  let newreservedrate := currentrate + meancalcupth rm in
  (set_max_desired_speed h d dir newreservedrate,
   givenbackbytobelowered + (newreservedrate - maxdesiredrate)).

(** The three loops over the special torrents, and the rate left to
    distribute after them. *)
Definition special_torrents (rm : RateManager) (dir : direction) (b : buckets)
    (h : heap) : heap * Q :=
  let '(h, grantedfortoberaisedinpriority) :=
    fold_left (raise_in_priority_step rm dir) (toberaisedinpriority b) (h, 0) in
  let '(h, grantedforlocaltoberaised) :=
    fold_left (local_priority_step rm dir) (localprioactive b) (h, 0) in
  let '(h, givenbackbytobelowered) :=
    fold_left (lower_step rm dir) (tobelowered b) (h, 0) in
  (h, MaxRate rm dir
      + (givenbackbytobelowered - grantedfortoberaisedinpriority
         - grantedforlocaltoberaised - currenttotal rm dir)).

(** [torrent not in localprioactive]: a torrent is looked up by its Download
    object, of which the registry holds at most one entry. *)
Definition toberegulated (ws : list torrent) (b : buckets) : list torrent :=
  List.filter (fun t : torrent =>
            negb (bool_decide (fst t ∈ map fst (localprioactive b)))) ws.

(** Phase 1: the rate claimed by the torrents that want to be raised. *)
Definition claim_step (rm : RateManager) (dir : direction) (h : heap)
    (claimedrate : Q) (t : torrent) : Q :=
  let '(d, ds) := t in
  let currentrate := get_current_speed ds dir in
  let maxdesiredrate := get_max_desired_speed h d dir in
  let maxup := maxdesiredrate in
  let newreservedrate := currentrate + meancalcupth rm in
  let toadd := newreservedrate in
  let maxlocalup := maxdesiredrate in
  let toadd :=
    if Qltb 0 maxlocalup && Qltb maxlocalup newreservedrate then maxlocalup
    else toadd in
  claimedrate + (toadd - maxup).

Definition realupfactor (claimedrate availableratetobedistributed : Q) : Q :=
  if Qle_bool claimedrate availableratetobedistributed then 1
  else availableratetobedistributed / claimedrate.

(** Phase 1: the raise of one torrent. *)
Definition distribute_step (rm : RateManager) (dir : direction)
    (realupfactor : Q) (h : heap) (t : torrent) : heap :=
  let '(d, ds) := t in
  let currentrate := get_current_speed ds dir in
  let maxdesiredrate := get_max_desired_speed h d dir in
  let maxup := maxdesiredrate in
  let newreservedrate := currentrate + meancalcupth rm in
  let newmaxup := maxup + (newreservedrate - maxup) * realupfactor in
  let maxlocalup := maxdesiredrate in
  let newmaxup :=
    if Qltb 0 maxlocalup && Qltb maxlocalup newreservedrate
    then maxup + (maxlocalup - maxup) * realupfactor
    else newmaxup in
  set_max_desired_speed h d dir newmaxup.

Definition phase1 (rm : RateManager) (dir : direction) (toberaised : list torrent)
    (availableratetobedistributed : Q) (h : heap) : heap :=
  let claimedrate := fold_left (claim_step rm dir h) toberaised 0 in
  fold_left
    (distribute_step rm dir (realupfactor claimedrate availableratetobedistributed))
    toberaised h.

(** [list.sort(key = ...)]: ascending in the key, and stable. *)
Fixpoint insert_by_key (key : torrent -> Q) (t : torrent) (l : list torrent)
  : list torrent :=
  match l with
  | [] => [t]
  | x :: r =>
      if Qle_bool (key t) (key x) then t :: x :: r
      else x :: insert_by_key key t r
  end.

Fixpoint sort_by_key (key : torrent -> Q) (l : list torrent) : list torrent :=
  match l with
  | [] => []
  | t :: r => insert_by_key key t (sort_by_key key r)
  end.

(** Phase 2a: the torrents whose reserved rate can be lowered, by increasing
    allowed rate.  The source guards the sort with [try]/[except]; on
    rationals the comparison of two keys cannot fail. *)
Definition rate_id (rm : RateManager) (dir : direction) (b : buckets) (h : heap)
  : list torrent :=
  let pooltobelowered := toberaised b ++ nottobechanged b in
  sort_by_key (fun t : torrent => get_max_speed h (fst t) dir)
    (List.filter
       (fun t : torrent => Qltb (rateminimum rm dir) (get_current_speed (snd t) dir))
       pooltobelowered).

(** Phase 2a: the walk over [rate_id].  [i] counts the torrents seen. *)
Fixpoint lower_pool (rm : RateManager) (dir : direction) (sizerate_id : nat)
    (l : list torrent) (i : nat) (ratenotassignedforeach : Q) (h : heap) : heap :=
  match l with
  | [] => h
  | (d, ds) :: rest =>
      let maxdesiredrate := get_max_desired_speed h d dir in
      let newmaxrate := maxdesiredrate + ratenotassignedforeach in
      let i := S i in
      if Qltb newmaxrate (rateminimum rm dir) then
        let ratenotassignedforeach :=
          if negb (i =? sizerate_id)%nat then
            ratenotassignedforeach
            + (newmaxrate - rateminimum rm dir)
              / inject_Z (Z.of_nat (sizerate_id - i))
          else ratenotassignedforeach in
        let newmaxrate := rateminimum rm dir in
        lower_pool rm dir sizerate_id rest i ratenotassignedforeach
          (set_max_desired_speed h d dir newmaxrate)
      else
        lower_pool rm dir sizerate_id rest i ratenotassignedforeach
          (set_max_desired_speed h d dir newmaxrate)
  end.

Definition phase2a (rm : RateManager) (dir : direction) (b : buckets)
    (availableratetobedistributed : Q) (h : heap) : heap :=
  if Qltb availableratetobedistributed 0 then
    let rate_id := rate_id rm dir b h in
    let sizerate_id := length rate_id in
    match rate_id with
    | [] => h
    | _ :: _ =>
        let ratenotassignedforeach :=
          availableratetobedistributed / inject_Z (Z.of_nat sizerate_id) in
        lower_pool rm dir sizerate_id rate_id 0 ratenotassignedforeach h
    end
  else h.

(** Phase 2b: the mean reserved rate and the lists on each side of it. *)
Definition mean_reserved_rate (b : buckets) : Q :=
  match toberaised b ++ nottobechanged b with
  | [] => meanrate b
  | _ :: _ =>
      meanrate b
      / inject_Z (Z.of_nat (length (toberaised b) + length (nottobechanged b)))
  end.

Definition raisedbelowm (dir : direction) (b : buckets) (meanrate : Q) (h : heap)
  : list torrent :=
  List.filter
    (fun t : torrent =>
       let maxdesiredrate := get_max_desired_speed h (fst t) dir in
       negb (Qltb meanrate maxdesiredrate) && Qltb maxdesiredrate meanrate)
    (toberaised b).

Definition allabovem (dir : direction) (b : buckets) (meanrate : Q) (h : heap)
  : list torrent :=
  List.filter
    (fun t : torrent => Qltb meanrate (get_max_desired_speed h (fst t) dir))
    (toberaised b)
  ++ List.filter
    (fun t : torrent => Qltb meanrate (get_max_desired_speed h (fst t) dir))
    (nottobechanged b).

(** Phase 2c: what a torrent below the mean asks for. *)
Definition toadd_below (dir : direction) (meanrate : Q) (h : heap) (t : torrent)
  : Q :=
  let maxdesiredrate := get_max_desired_speed h (fst t) dir in
  let toadd := meanrate - maxdesiredrate in
  let maxlocalrate_float := maxdesiredrate in
  if Qltb 0 maxlocalrate_float && Qle_bool maxlocalrate_float meanrate
  then maxlocalrate_float - maxdesiredrate
  else toadd.

Definition up_step (dir : direction) (meanrate : Q) (h : heap) (up : Q)
    (t : torrent) : Q :=
  up + toadd_below dir meanrate h t.

Definition down_step (dir : direction) (meanrate : Q) (h : heap) (down : Q)
    (t : torrent) : Q :=
  down + (get_max_desired_speed h (fst t) dir - meanrate).

(** Phase 2c: the raise of one slow torrent; [realup] sums what was given. *)
Definition speed_up_step (rm : RateManager) (dir : direction) (meanrate up down : Q)
    (st : heap * Q) (t : torrent) : heap * Q :=
  let '(h, realup) := st in
  let '(d, ds) := t in
  let currentrate := get_current_speed ds dir in
  let maxdesiredrate := get_max_desired_speed h d dir in
  let maxup := maxdesiredrate in
  let toadd := toadd_below dir meanrate h t in
  let toadd := if Qltb down up then toadd * (down / up) else toadd in
  let step := 2 * (currentrate + calcupth2 rm - maxup) in
  if Qltb toadd step then
    (set_max_desired_speed h d dir (maxup + toadd), realup + toadd)
  else
    (set_max_desired_speed h d dir (maxup + step), realup + step).

(** Phase 2c: the cut of one fast torrent. *)
Definition slow_down_step (dir : direction) (realup : Q) (h : heap) (t : torrent)
  : heap :=
  let '(d, ds) := t in
  let maxdesiredrate := get_max_desired_speed h d dir in
  set_max_desired_speed h d dir (maxdesiredrate - realup).

(** [realup] once divided by the number of fast torrents. *)
Definition realup_each (rm : RateManager) (dir : direction) (meanrate : Q)
    (below above : list torrent) (h : heap) : Q :=
  let up := fold_left (up_step dir meanrate h) below 0 in
  let down := fold_left (down_step dir meanrate h) above 0 in
  snd (fold_left (speed_up_step rm dir meanrate up down) below (h, 0))
  / inject_Z (Z.of_nat (length above)).

Definition phase2c (rm : RateManager) (dir : direction) (meanrate : Q)
    (below above : list torrent) (h : heap) : heap :=
  match below, above with
  | _ :: _, _ :: _ =>
      let up := fold_left (up_step dir meanrate h) below 0 in
      let down := fold_left (down_step dir meanrate h) above 0 in
      let '(h1, realup) :=
        fold_left (speed_up_step rm dir meanrate up down) below (h, 0) in
      let realup := realup / inject_Z (Z.of_nat (length above)) in
      fold_left (slow_down_step dir realup) above h1
  | _, _ => h
  end.

(** Phase 2 as a whole, up to the call of [make_it_so]. *)
Definition phase2 (rm : RateManager) (dir : direction) (b : buckets)
    (availableratetobedistributed : Q) (h : heap) : heap :=
  let h := phase2a rm dir b availableratetobedistributed h in
  let meanrate := mean_reserved_rate b in
  phase2c rm dir meanrate (raisedbelowm dir b meanrate h)
    (allabovem dir b meanrate h) h.

Section DownloadAPI.

(** [make_it_so] passes [dir] to [get_max_desired_speed] in a scope where
    no [dir] was ever assigned: the name is Python's builtin function.  The
    class of [d] is not part of this file, so what its getter answers to an
    argument that is neither [UPLOAD] nor [DOWNLOAD] is a parameter: the
    rate it returns, or [None] when the call raises. *)
Variable get_max_desired_speed_builtin_dir : Download -> option Q.

Fixpoint make_it_so (direct : direction) (torrentlist : list torrent) (h : heap)
  : outcome heap :=
  match torrentlist with
  | [] => Returns h
  | (d, ds) :: rest =>
      match get_max_desired_speed_builtin_dir (h d) with
      | Some v => make_it_so direct rest (set_max_speed h d direct v)
      | None => Raises h
      end
  end.

(** [CalculateBandwidth], with the value of its local [prioritizelocal]
    as an argument. *)
Definition CalculateBandwidth_with (prioritizelocal : bool) (rm : RateManager)
    (dir : direction) (h : heap) : outcome heap :=
  let workingset := workingset rm dir in
  match workingset with
  | [] => Returns h
  | _ :: _ =>
      let maxrate := MaxRate rm dir in
      if Qeq_bool maxrate 0 then
        Returns (fold_left (unlimited_step dir) workingset h)
      else
        let '(h, b) := dispatch prioritizelocal rm dir workingset h in
        if free_wheeling rm dir then
          Returns (fold_left (free_wheeling_step rm dir) workingset h)
        else
          let '(h, availableratetobedistributed) :=
            special_torrents rm dir b h in
          let toberegulated := toberegulated workingset b in
          match toberaised b with
          | [] => make_it_so dir toberegulated h
          | _ :: _ =>
              if Qltb 0 availableratetobedistributed then
                make_it_so dir toberegulated
                  (phase1 rm dir (toberaised b) availableratetobedistributed h)
              else
                make_it_so dir toberegulated
                  (phase2 rm dir b availableratetobedistributed h)
          end
  end.

Definition CalculateBandwidth (rm : RateManager) (dir : direction) (h : heap)
  : outcome heap :=
  CalculateBandwidth_with prioritizelocal rm dir h.

(** [adjust_speeds]: an exception of [CalculateBandwidth] is not caught
    here, and leaves with the lock taken and the registry as it is. *)
Definition adjust_speeds (rm : RateManager) (h : heap)
  : outcome (RateManager * heap) :=
  let rm := lock_acquire rm in
  match CalculateBandwidth rm DOWNLOAD h with
  | Raises h => Raises (rm, h)
  | Returns h =>
      match CalculateBandwidth rm UPLOAD h with
      | Raises h => Raises (rm, h)
      | Returns h =>
          let rm := clear_downloadstates rm in
          let rm := lock_release rm in
          Returns (rm, h)
      end
  end.

End DownloadAPI.

(** A getter written [if direct == UPLOAD: ... else: ...]: any argument that
    is not [UPLOAD] is answered with the download rate. *)
Definition upload_or_else_getter (d : Download) : option Q :=
  Some (max_desired_speed d DOWNLOAD).

(** A getter that looks its argument up in a dictionary keyed by direction. *)
Definition keyed_getter (d : Download) : option Q := None.

(** ** The registry and its invariant *)

Definition all_status : list dlstatus :=
  [DLSTATUS_ALLOCATING_DISKSPACE; DLSTATUS_WAITING4HASHCHECK;
   DLSTATUS_HASHCHECKING; DLSTATUS_DOWNLOADING; DLSTATUS_SEEDING;
   DLSTATUS_STOPPED; DLSTATUS_STOPPED_ON_ERROR].

(** Every entry of every bucket. *)
Definition entries (rm : RateManager) : list torrent :=
  flat_map (statusmap rm) all_status.

(** The sum of the speeds recorded in a list of entries. *)
Definition rate_sum (dir : direction) (l : list torrent) : Q :=
  fold_right (fun (t : torrent) acc => get_current_speed (snd t) dir + acc) 0 l.

(** One entry per registered Download, [dset] holds exactly the registered
    Downloads, and each total is the sum of the speeds of the entries. *)
Definition registry_inv (rm : RateManager) : Prop :=
  NoDup (map fst (entries rm))
  /\ (forall d : ident, d ∈ dset rm <-> d ∈ map fst (entries rm))
  /\ (forall dir, currenttotal rm dir == rate_sum dir (entries rm)).

(** ** Loops that update one Download per iteration *)

(** [step] rewrites the cell of the torrent it is given with [F], from that
    cell alone, and touches no other cell. *)
Definition cellwise (step : heap -> torrent -> heap)
    (F : DownloadState -> Download -> Download) : Prop :=
  forall h d ds d',
    step h (d, ds) d' = if decide (d = d') then F ds (h d) else h d'.

(** The cell a torrent leaves behind in the dispatch loop: unchanged,
    unless its current rate is almost null. *)
Definition dispatch_cell (prio : bool) (dir : direction) (ds : DownloadState)
    (c : Download) : Download :=
  if prio && negb (Qeq_bool (max_desired_speed c dir) 0) then c
  else if Qltb (get_current_speed ds dir) (5 # 100)
       then mkDownload (max_speed c) (<[dir := 0]> (max_desired_speed c))
       else c.

(** The cell a torrent leaves behind in the free-wheeling loop. *)
Definition free_wheeling_cell (rm : RateManager) (dir : direction)
    (ds : DownloadState) (c : Download) : Download :=
  let newrate := get_current_speed ds dir + meancalcupth rm in
  let maxlocalrate := max_desired_speed c dir in
  if Qltb 0 maxlocalrate then
    mkDownload (<[dir := maxlocalrate]> (max_speed c))
      (<[dir := if Qltb maxlocalrate newrate then maxlocalrate else newrate]>
         (max_desired_speed c))
  else
    mkDownload (<[dir := MaxRate rm dir]> (max_speed c))
      (<[dir := newrate]> (max_desired_speed c)).

(** The local cap the free-wheeling loop finds on a torrent: the desired rate
    it had at the call, or 0 when the dispatch loop has just reset it. *)
Definition local_cap_found (dir : direction) (h : heap) (t : torrent) : Q :=
  if Qltb (get_current_speed (snd t) dir) (5 # 100) then 0
  else max_desired_speed (h (fst t)) dir.

(** Where the dispatch loop sends a torrent, from its snapshot and the cell
    of its Download. *)
Inductive dispatched :=
| LocalPriority | RateReset | ToBeLowered | ToBeRaisedInPriority | ToBeRaised
| NotToBeChanged | NoList.

#[global] Instance dispatched_eq_dec : EqDecision dispatched.
Proof. solve_decision. Defined.

Definition dispatch_of (prio : bool) (rm : RateManager) (dir : direction)
    (c : Download) (ds : DownloadState) : dispatched :=
  let currentrate := get_current_speed ds dir in
  let currentlimit := max_speed c dir in
  let maxdesiredrate := max_desired_speed c dir in
  if prio && negb (Qeq_bool maxdesiredrate 0) then LocalPriority
  else if Qltb currentrate (5 # 100) then RateReset
  else if Qltb (calcupth1 rm) (currentlimit - currentrate) then ToBeLowered
  else if Qle_bool (currentlimit - currentrate) (calcupth2 rm) then
    if Qltb currentrate (rateminimum rm dir) then ToBeRaisedInPriority
    else ToBeRaised
  else if Qltb (rateminimum rm dir) currentrate then NotToBeChanged
  else NoList.

(** The list kept for each outcome ([RateReset] and [NoList] keep none). *)
Definition bucket (b : buckets) (o : dispatched) : list torrent :=
  match o with
  | LocalPriority => localprioactive b
  | ToBeLowered => tobelowered b
  | ToBeRaisedInPriority => toberaisedinpriority b
  | ToBeRaised => toberaised b
  | NotToBeChanged => nottobechanged b
  | RateReset | NoList => []
  end.

Definition listed (o : dispatched) : bool :=
  match o with RateReset | NoList => false | _ => true end.

(** The torrents of [l] that the dispatch loop sends to [o], for the heap [h]. *)
Definition dispatched_to (prio : bool) (rm : RateManager) (dir : direction)
    (h : heap) (o : dispatched) (l : list torrent) : list torrent :=
  List.filter
    (fun t : torrent =>
       bool_decide (dispatch_of prio rm dir (h (fst t)) (snd t) = o) && listed o)
    l.

(** The cells left behind by the three loops over the special torrents. *)
Definition raise_in_priority_cell (rm : RateManager) (dir : direction)
    (ds : DownloadState) (c : Download) : Download :=
  let newreservedrate := get_current_speed ds dir + meancalcupth rm in
  mkDownload (max_speed c)
    (<[dir := if Qltb (rateminimum rm dir) newreservedrate
              then rateminimum rm dir else newreservedrate]>
       (max_desired_speed c)).

Definition local_priority_cell (rm : RateManager) (dir : direction)
    (ds : DownloadState) (c : Download) : Download :=
  let newrate := get_current_speed ds dir + meancalcupth rm in
  let maxlocalrate := max_desired_speed c dir in
  mkDownload (<[dir := maxlocalrate]> (max_speed c))
    (<[dir := if Qltb maxlocalrate newrate then maxlocalrate else newrate]>
       (max_desired_speed c)).

Definition lower_cell (rm : RateManager) (dir : direction)
    (ds : DownloadState) (c : Download) : Download :=
  mkDownload (max_speed c)
    (<[dir := get_current_speed ds dir + meancalcupth rm]> (max_desired_speed c)).

(** The cells left behind by the two loops of phase 2c. *)
Definition speed_up_cell (rm : RateManager) (dir : direction) (meanrate up down : Q)
    (ds : DownloadState) (c : Download) : Download :=
  let maxup := max_desired_speed c dir in
  let toadd :=
    if Qltb 0 maxup && Qle_bool maxup meanrate then maxup - maxup
    else meanrate - maxup in
  let toadd := if Qltb down up then toadd * (down / up) else toadd in
  let step := 2 * (get_current_speed ds dir + calcupth2 rm - maxup) in
  mkDownload (max_speed c)
    (<[dir := if Qltb toadd step then maxup + toadd else maxup + step]>
       (max_desired_speed c)).

Definition slow_down_cell (dir : direction) (realup : Q) (ds : DownloadState)
    (c : Download) : Download :=
  mkDownload (max_speed c)
    (<[dir := max_desired_speed c dir - realup]> (max_desired_speed c)).

(** By how much the desired rates of the torrents of [l] differ between two
    heaps, in total. *)
Definition raise_sum (dir : direction) (h h' : heap) (l : list torrent) : Q :=
  fold_right
    (fun (t : torrent) acc =>
       max_desired_speed (h' (fst t)) dir - max_desired_speed (h (fst t)) dir + acc)
    0 l.

(** Phase 1: what a torrent claims, and the cell its raise leaves behind. *)
Definition claim_of (rm : RateManager) (dir : direction) (c : Download)
    (ds : DownloadState) : Q :=
  let maxup := max_desired_speed c dir in
  let newreservedrate := get_current_speed ds dir + meancalcupth rm in
  (if Qltb 0 maxup && Qltb maxup newreservedrate then maxup else newreservedrate)
  - maxup.

Definition claim_sum (rm : RateManager) (dir : direction) (h : heap)
    (l : list torrent) : Q :=
  fold_right (fun (t : torrent) acc => claim_of rm dir (h (fst t)) (snd t) + acc)
    0 l.

Definition distribute_cell (rm : RateManager) (dir : direction) (realupfactor : Q)
    (ds : DownloadState) (c : Download) : Download :=
  let maxup := max_desired_speed c dir in
  let newreservedrate := get_current_speed ds dir + meancalcupth rm in
  mkDownload (max_speed c)
    (<[dir := if Qltb 0 maxup && Qltb maxup newreservedrate
              then maxup + (maxup - maxup) * realupfactor
              else maxup + (newreservedrate - maxup) * realupfactor]>
       (max_desired_speed c)).

(** The sum of the allowed rates of a list of torrents. *)
Definition allowed_sum (dir : direction) (h : heap) (l : list torrent) : Q :=
  fold_right (fun (t : torrent) acc => max_speed (h (fst t)) dir + acc) 0 l.

(** [grantedfortoberaisedinpriority] and [grantedforlocaltoberaised] as the
    loops over the special torrents leave them. *)
Definition grantedfortoberaisedinpriority (rm : RateManager) (dir : direction)
    (b : buckets) (h : heap) : Q :=
  snd (fold_left (raise_in_priority_step rm dir) (toberaisedinpriority b) (h, 0)).

Definition grantedforlocaltoberaised (rm : RateManager) (dir : direction)
    (b : buckets) (h : heap) : Q :=
  snd (fold_left (local_priority_step rm dir) (localprioactive b)
         (fst (fold_left (raise_in_priority_step rm dir) (toberaisedinpriority b)
                 (h, 0)), 0)).

Definition givenbackbytobelowered (rm : RateManager) (dir : direction)
    (b : buckets) (h : heap) : Q :=
  snd (fold_left (lower_step rm dir) (tobelowered b)
         (fst (fold_left (local_priority_step rm dir) (localprioactive b)
                 (fst (fold_left (raise_in_priority_step rm dir)
                         (toberaisedinpriority b) (h, 0)), 0)), 0)).

(** [h'] differs from [h] at most in the rates for [dir] of the Downloads
    listed in [ids]. *)
Definition only_changes (dir : direction) (ids : list ident) (h h' : heap) : Prop :=
  forall d,
    (d ∉ ids -> h' d = h d)
    /\ (forall x, x <> dir ->
          max_speed (h' d) x = max_speed (h d) x
          /\ max_desired_speed (h' d) x = max_desired_speed (h d) x).

(** [h'] has the allowed rates of [h]. *)
Definition same_allowed (h h' : heap) : Prop :=
  forall d, max_speed (h' d) = max_speed (h d).

(** The heap [CalculateBandwidth] hands to [make_it_so] when the limit is
    not 0 and the torrents are not left free wheeling. *)
Definition regulated (rm : RateManager) (dir : direction) (h : heap) : heap :=
  let '(h, b) := dispatch prioritizelocal rm dir (workingset rm dir) h in
  let '(h, availableratetobedistributed) := special_torrents rm dir b h in
  match toberaised b with
  | [] => h
  | _ :: _ =>
      if Qltb 0 availableratetobedistributed
      then phase1 rm dir (toberaised b) availableratetobedistributed h
      else phase2 rm dir b availableratetobedistributed h
  end.

(** Every entry sits in the bucket of the status of its snapshot. *)
Definition bucket_status_inv (rm : RateManager) : Prop :=
  forall s d ds, (d, ds) ∈ statusmap rm s -> get_status ds = s.

(** Some registered torrent has status [s]. *)
Definition registered_with (rm : RateManager) (s : dlstatus) : Prop :=
  exists d ds, (d, ds) ∈ entries rm /\ get_status ds = s.

(** ** Concrete inputs *)

Definition rates (up down : Q) : direction -> Q :=
  fun dir => match dir with UPLOAD => up | DOWNLOAD => down end.

(** A heap given by the Downloads it holds; any other cell has all rates 0. *)
Definition heap_of (l : list (ident * Download)) : heap :=
  fold_right (fun p h => <[fst p := snd p]> h)
    (fun _ => mkDownload (rates 0 0) (rates 0 0)) l.

(** A manager in which the listed torrents have been registered. *)
Definition registered (rm : RateManager) (l : list torrent) : RateManager :=
  fold_left (fun rm (t : torrent) => fst (add_downloadstate rm (fst t) (snd t)))
    l rm.

(** One download with desired rates 5 (up) and 7 (down), allowed 0. *)
Definition apply_heap : heap :=
  heap_of [(1%nat, mkDownload (rates 0 0) (rates 5 7))].

Definition apply_torrents : list torrent :=
  [(1%nat, mkDownloadState DLSTATUS_DOWNLOADING (rates 10 10) true)].

(** One active download at 90 of a download cap of 100, allowed 91.5. *)
Definition busy_state : DownloadState :=
  mkDownloadState DLSTATUS_DOWNLOADING (rates 0 90) true.

Definition busy_manager : RateManager :=
  registered (init 100 100 100) [(1%nat, busy_state)].

Definition busy_heap : heap :=
  heap_of [(1%nat, mkDownload (rates 0 (915 # 10)) (rates 0 (915 # 10)))].

(** The same download, allowed 100, with a local setting of 5 as its desired
    rate. *)
Definition capped_heap : heap :=
  heap_of [(1%nat, mkDownload (rates 0 100) (rates 0 5))].

(** No global limit at all; one active download. *)
Definition unlimited_manager : RateManager :=
  registered (init 0 0 0)
    [(1%nat, mkDownloadState DLSTATUS_DOWNLOADING (rates 10 10) true)].

(** Cap 100, 50 measured in total, one active download at 40 with no local
    cap (desired rate 0). *)
Definition idle_manager : RateManager :=
  registered (init 100 100 100)
    [(1%nat, mkDownloadState DLSTATUS_DOWNLOADING (rates 0 40) true);
     (2%nat, mkDownloadState DLSTATUS_SEEDING (rates 0 10) true)].

Definition idle_heap : heap :=
  heap_of [(1%nat, mkDownload (rates 0 0) (rates 0 0))].

(** Phase 2a on three uploads reserved 4, 10 and 10, with 9 to take back
    and a minimum rate of 3. *)
Definition pool_torrents : list torrent :=
  [(1%nat, mkDownloadState DLSTATUS_SEEDING (rates 8 0) true);
   (2%nat, mkDownloadState DLSTATUS_SEEDING (rates 8 0) true);
   (3%nat, mkDownloadState DLSTATUS_SEEDING (rates 8 0) true)].

Definition pool_manager : RateManager := registered (init 15 15 0) pool_torrents.

Definition pool_buckets : buckets := mkBuckets [] [] pool_torrents [] [] (24 # 1).

Definition pool_heap : heap :=
  heap_of [(1%nat, mkDownload (rates 4 0) (rates 4 0));
           (2%nat, mkDownload (rates 10 0) (rates 10 0));
           (3%nat, mkDownload (rates 10 0) (rates 10 0))].

(** Five active downloads at 10 each under a cap of 50, all allowed 10.
    Three have no desired rate yet, one desires 11 and one 100. *)
Definition exchange_state : DownloadState :=
  mkDownloadState DLSTATUS_DOWNLOADING (rates 0 10) true.

Definition exchange_manager : RateManager :=
  registered (init 50 50 50)
    [(1%nat, exchange_state); (2%nat, exchange_state); (3%nat, exchange_state);
     (4%nat, exchange_state); (5%nat, exchange_state)].

Definition exchange_heap : heap :=
  heap_of [(1%nat, mkDownload (rates 0 10) (rates 0 0));
           (2%nat, mkDownload (rates 0 10) (rates 0 0));
           (3%nat, mkDownload (rates 0 10) (rates 0 0));
           (4%nat, mkDownload (rates 0 10) (rates 0 11));
           (5%nat, mkDownload (rates 0 10) (rates 0 100))].

(** Two active downloads at 1 each under a cap of 2, both allowed 10 and
    desiring 10. *)
Definition crowded_state : DownloadState :=
  mkDownloadState DLSTATUS_DOWNLOADING (rates 0 1) true.

Definition crowded_manager : RateManager :=
  registered (init 2 2 2) [(1%nat, crowded_state); (2%nat, crowded_state)].

Definition crowded_heap : heap :=
  heap_of [(1%nat, mkDownload (rates 0 10) (rates 0 10));
           (2%nat, mkDownload (rates 0 10) (rates 0 10))].

(** Two active downloads at 10 and 20 under a cap of 32, allowed what they
    use, the first with a desired rate of 10.5, the second with none. *)
Definition spare_manager : RateManager :=
  registered (init 32 32 32)
    [(1%nat, mkDownloadState DLSTATUS_DOWNLOADING (rates 0 10) true);
     (2%nat, mkDownloadState DLSTATUS_DOWNLOADING (rates 0 20) true)].

Definition spare_heap : heap :=
  heap_of [(1%nat, mkDownload (rates 0 10) (rates 0 (105 # 10)));
           (2%nat, mkDownload (rates 0 20) (rates 0 0))].

Definition exchange_below : list torrent :=
  [(1%nat, exchange_state); (2%nat, exchange_state); (3%nat, exchange_state)].

Definition exchange_above : list torrent :=
  [(4%nat, exchange_state); (5%nat, exchange_state)].

(** The heap and the lists the dispatch loop leaves for the crowded input. *)
Definition crowded_dispatched : heap * buckets :=
  dispatch prioritizelocal crowded_manager DOWNLOAD
    (workingset crowded_manager DOWNLOAD) crowded_heap.

(** * Properties *)

(** ** Comparisons *)

Lemma Qltb_lt (x y : Q) : Qltb x y = true <-> x < y.
Proof.
  unfold Qltb. rewrite negb_true_iff, <- not_true_iff_false, Qle_bool_iff.
  split; intros H; [ now apply Qnot_le_lt | now apply Qlt_not_le ].
Qed.

Lemma Qltb_ge (x y : Q) : Qltb x y = false <-> y <= x.
Proof.
  unfold Qltb. rewrite negb_false_iff. apply Qle_bool_iff.
Qed.

Lemma Qle_bool_gt (x y : Q) : Qle_bool x y = false <-> y < x.
Proof.
  rewrite <- not_true_iff_false, Qle_bool_iff.
  split; intros H; [ now apply Qnot_le_lt | now apply Qlt_not_le ].
Qed.

Lemma Qeq_bool_false (x y : Q) : Qeq_bool x y = false <-> ~ x == y.
Proof. now rewrite <- not_true_iff_false, Qeq_bool_iff. Qed.

(** ** Lists of torrents *)

Lemma elem_of_idents (l : list torrent) d ds : (d, ds) ∈ l -> d ∈ map fst l.
Proof.
  rewrite !list_elem_of_In. intros Hin. now apply (in_map fst) in Hin.
Qed.

Lemma elem_of_idents_inv (l : list torrent) d :
  d ∈ map fst l -> exists ds, (d, ds) ∈ l.
Proof.
  rewrite list_elem_of_In, in_map_iff. intros ([d' ds] & <- & Hin).
  exists ds. now apply list_elem_of_In.
Qed.

Lemma elem_of_filter_bool (f : torrent -> bool) (l : list torrent) t :
  t ∈ List.filter f l <-> t ∈ l /\ f t = true.
Proof. rewrite !list_elem_of_In. apply filter_In. Qed.

Lemma NoDup_idents_filter (f : torrent -> bool) (l : list torrent) :
  NoDup (map fst l) -> NoDup (map fst (List.filter f l)).
Proof.
  induction l as [|t l IH]; cbn; intros Hnd; [done|].
  apply NoDup_cons in Hnd as [Ht Hnd].
  destruct (f t); cbn; [|now apply IH].
  apply NoDup_cons. split; [|now apply IH].
  intros Hin. apply Ht. apply elem_of_idents_inv in Hin as [ds Hin].
  apply elem_of_filter_bool in Hin as [Hin _]. now apply elem_of_idents in Hin.
Qed.

(** ** Heap cells *)

Lemma set_max_speed_same h d dir v :
  set_max_speed h d dir v d
  = mkDownload (<[dir := v]> (max_speed (h d))) (max_desired_speed (h d)).
Proof. unfold set_max_speed. apply fn_lookup_insert. Qed.

Lemma set_max_speed_other h d dir v d' :
  d <> d' -> set_max_speed h d dir v d' = h d'.
Proof. intros. unfold set_max_speed. now apply fn_lookup_insert_ne. Qed.

Lemma set_max_desired_speed_same h d dir v :
  set_max_desired_speed h d dir v d
  = mkDownload (max_speed (h d)) (<[dir := v]> (max_desired_speed (h d))).
Proof. unfold set_max_desired_speed. apply fn_lookup_insert. Qed.

Lemma set_max_desired_speed_other h d dir v d' :
  d <> d' -> set_max_desired_speed h d dir v d' = h d'.
Proof. intros. unfold set_max_desired_speed. now apply fn_lookup_insert_ne. Qed.

Lemma desired_after_set_max_speed h d dir v d' :
  max_desired_speed (set_max_speed h d dir v d') = max_desired_speed (h d').
Proof.
  destruct (decide (d = d')) as [->|Hne].
  - now rewrite set_max_speed_same.
  - now rewrite set_max_speed_other.
Qed.

Lemma allowed_after_set_max_desired_speed h d dir v d' :
  max_speed (set_max_desired_speed h d dir v d') = max_speed (h d').
Proof.
  destruct (decide (d = d')) as [->|Hne].
  - now rewrite set_max_desired_speed_same.
  - now rewrite set_max_desired_speed_other.
Qed.

(** ** Registry *)

Lemma rate_sum_app dir l1 l2 :
  rate_sum dir (l1 ++ l2) == rate_sum dir l1 + rate_sum dir l2.
Proof.
  induction l1 as [|t l1 IH]; simpl.
  - lra.
  - rewrite IH. lra.
Qed.

Lemma rate_sum_perm dir l1 l2 :
  l1 ≡ₚ l2 -> rate_sum dir l1 == rate_sum dir l2.
Proof.
  induction 1; simpl; try lra.
Qed.

Lemma flat_map_insert_notin (sm : dlstatus -> list torrent) s x ss :
  s ∉ ss -> flat_map (<[s := x]> sm) ss = flat_map sm ss.
Proof.
  induction ss as [|s' ss IH]; simpl; intros Hs; [reflexivity|].
  apply not_elem_of_cons in Hs as [Hne Hs].
  rewrite fn_lookup_insert_ne by done. now rewrite IH.
Qed.

Lemma flat_map_insert_in (sm : dlstatus -> list torrent) s t ss :
  NoDup ss -> s ∈ ss ->
  flat_map (<[s := sm s ++ [t]]> sm) ss ≡ₚ t :: flat_map sm ss.
Proof.
  induction ss as [|s' ss IH]; simpl; intros Hnd Hs.
  - now apply elem_of_nil in Hs.
  - apply NoDup_cons in Hnd as [Hs' Hnd].
    destruct (decide (s = s')) as [<-|Hne].
    + rewrite fn_lookup_insert, flat_map_insert_notin by done.
      rewrite <- app_assoc. simpl.
      now rewrite <- Permutation_middle.
    + rewrite fn_lookup_insert_ne by done.
      apply elem_of_cons in Hs as [?|Hs]; [done|].
      rewrite IH by done. now rewrite Permutation_middle.
Qed.

Lemma all_status_NoDup : NoDup all_status.
Proof. apply (bool_decide_unpack _). reflexivity. Qed.

Lemma all_status_complete s : s ∈ all_status.
Proof. unfold all_status. destruct s; set_solver. Qed.

Lemma registry_inv_clear rm : registry_inv (clear_downloadstates rm).
Proof.
  repeat split; simpl; try apply NoDup_nil_2; try set_solver.
Qed.

Lemma registry_inv_init a b c : registry_inv (init a b c).
Proof. apply registry_inv_clear. Qed.

Lemma entries_set_registry rm sm ct st :
  entries (set_registry rm sm ct st) = flat_map sm all_status.
Proof. reflexivity. Qed.

Lemma registry_inv_add rm d ds :
  registry_inv rm -> registry_inv (fst (add_downloadstate rm d ds)).
Proof.
  intros (Hnd & Hset & Htot). unfold add_downloadstate.
  cbn [fst]. unfold lock_release, lock_acquire.
  destruct (decide (d ∉ dset (set_lock rm (S (lock rm))))) as [Hnew|Hold].
  - cbn [dset set_lock] in Hnew.
    match goal with |- registry_inv (set_lock (set_registry _ ?sm ?ct ?st) _) =>
      assert (Hperm : flat_map sm all_status ≡ₚ (d, ds) :: entries rm)
    end.
    { apply (flat_map_insert_in (statusmap rm) (get_status ds) (d, ds));
        [apply all_status_NoDup|apply all_status_complete]. }
    unfold registry_inv.
    change (entries (set_lock ?r _)) with (entries r).
    rewrite entries_set_registry. cbn [statusmap set_lock] in *.
    repeat split.
    + rewrite Hperm. cbn [map fst]. apply NoDup_cons. split; [|done].
      intros Hin. apply Hnew. now apply Hset.
    + cbn [dset set_lock set_registry]. rewrite Hperm. cbn [map fst].
      rewrite elem_of_union, elem_of_singleton, elem_of_cons.
      intros [->|?]; [now left|right; now apply Hset].
    + cbn [dset set_lock set_registry]. rewrite Hperm. cbn [map fst].
      rewrite elem_of_union, elem_of_singleton, elem_of_cons.
      intros [->|?]; [now left|right; now apply Hset].
    + intros dir. rewrite (rate_sum_perm _ _ _ Hperm).
      cbn [currenttotal set_lock set_registry fold_left rate_sum fold_right snd].
      destruct dir.
      * rewrite fn_lookup_insert_ne by done. rewrite fn_lookup_insert.
        rewrite (Htot UPLOAD). fold (rate_sum UPLOAD (entries rm)). lra.
      * rewrite fn_lookup_insert. rewrite fn_lookup_insert_ne by done.
        rewrite (Htot DOWNLOAD). fold (rate_sum DOWNLOAD (entries rm)). lra.
  - repeat split; try done; apply Hset.
Qed.

Lemma registry_inv_registered rm l :
  registry_inv rm -> registry_inv (registered rm l).
Proof.
  unfold registered. revert rm.
  induction l as [|t l IH]; intros rm Hinv; simpl; [done|].
  apply IH. now apply registry_inv_add.
Qed.

Lemma add_downloadstate_known rm d ds :
  d ∈ dset rm ->
  add_downloadstate rm d ds = (lock_release (lock_acquire rm), size (dset rm)).
Proof.
  intros Hin. unfold add_downloadstate.
  destruct (decide (d ∉ dset (lock_acquire rm))) as [Hnew|Hold];
    [now destruct Hnew|reflexivity].
Qed.

Lemma add_downloadstate_registers rm d ds :
  d ∈ dset (fst (add_downloadstate rm d ds)).
Proof.
  unfold add_downloadstate. cbn [fst].
  destruct (decide (d ∉ dset (lock_acquire rm))) as [Hnew|Hold]; cbn.
  - set_solver.
  - cbn in Hold. now apply dec_stable in Hold.
Qed.

Lemma add_downloadstate_returns_size rm d ds :
  snd (add_downloadstate rm d ds) = size (dset (fst (add_downloadstate rm d ds))).
Proof.
  unfold add_downloadstate. cbn [fst snd].
  now destruct (decide (d ∉ dset (lock_acquire rm))).
Qed.

(** C7. [add_downloadstate] is idempotent per Download: a second call with
    the same [d] (whatever snapshot comes with it) leaves every bucket, both
    totals and the set as the first call left them; and every call returns
    the size of the set as it is after the call. *)
Theorem add_downloadstate_idempotent (rm : RateManager) (d : ident)
    (ds ds' : DownloadState) :
  let once := add_downloadstate rm d ds in
  let twice := add_downloadstate (fst once) d ds' in
  (forall s, statusmap (fst twice) s = statusmap (fst once) s)
  /\ (forall dir, currenttotal (fst twice) dir = currenttotal (fst once) dir)
  /\ dset (fst twice) = dset (fst once)
  /\ snd once = size (dset (fst once))
  /\ snd twice = size (dset (fst twice)).
Proof.
  intros once twice.
  assert (Htwice : twice
          = (lock_release (lock_acquire (fst once)), size (dset (fst once)))).
  { apply add_downloadstate_known, add_downloadstate_registers. }
  split; [|split; [|split; [|split]]].
  - intros s. now rewrite Htwice.
  - intros dir. now rewrite Htwice.
  - now rewrite Htwice.
  - apply add_downloadstate_returns_size.
  - apply add_downloadstate_returns_size.
Qed.

(** C8. The registry invariant (one entry per registered Download, [dset]
    the set of registered Downloads, each total the sum of the speeds
    sampled when the entries were added) holds at construction and is kept
    by [add_downloadstate], by [clear_downloadstates] and by a whole cycle;
    after [clear_downloadstates] every bucket and the set are empty and both
    totals are 0. *)
Theorem registry_invariant_preserved (rm : RateManager) :
  registry_inv rm ->
  (forall d ds, registry_inv (fst (add_downloadstate rm d ds)))
  /\ registry_inv (clear_downloadstates rm)
  /\ (forall getter h, registry_inv (fst (state_of (adjust_speeds getter rm h))))
  /\ (forall s, statusmap (clear_downloadstates rm) s = [])
  /\ dset (clear_downloadstates rm) = ∅
  /\ (forall dir, currenttotal (clear_downloadstates rm) dir = 0)
  /\ (forall a b c, registry_inv (init a b c)).
Proof.
  intros Hinv.
  split; [|split; [|split; [|split; [|split; [|split]]]]]; try reflexivity.
  - intros d ds. now apply registry_inv_add.
  - apply registry_inv_clear.
  - intros getter h. unfold adjust_speeds.
    destruct (CalculateBandwidth getter (lock_acquire rm) DOWNLOAD h) as [h1|h1];
      [|exact Hinv].
    destruct (CalculateBandwidth getter (lock_acquire rm) UPLOAD h1) as [h2|h2];
      [|exact Hinv].
    apply registry_inv_clear.
  - intros a b c. apply registry_inv_init.
Qed.

Lemma registry_invariant_preserved_witness :
  registry_inv busy_manager
  /\ registry_inv
       (fst (add_downloadstate busy_manager 2%nat
               (mkDownloadState DLSTATUS_SEEDING (rates 4 0) true)))
  /\ currenttotal
       (fst (add_downloadstate busy_manager 2%nat
               (mkDownloadState DLSTATUS_SEEDING (rates 4 0) true))) DOWNLOAD
     == 90.
Proof.
  assert (H : registry_inv busy_manager).
  { apply registry_inv_registered, registry_inv_init. }
  split; [exact H|]. split.
  - exact (proj1 (registry_invariant_preserved busy_manager H) 2%nat _).
  - vm_compute. reflexivity.
Defined.

(** ** make_it_so *)

Lemma make_it_so_untouched getter direct l h d :
  d ∉ map fst l -> state_of (make_it_so getter direct l h) d = h d.
Proof.
  revert h. induction l as [|[d0 ds0] l IH]; intros h Hd; cbn; [reflexivity|].
  cbn in Hd. apply not_elem_of_cons in Hd as [Hne Hd].
  destruct (getter (h d0)) as [v|]; [|reflexivity].
  rewrite IH by done. now apply set_max_speed_other.
Qed.

(** What [make_it_so] does when it returns: the rate it writes is written for
    the direction it was passed, and is the one the getter answered when
    handed the builtin [dir]; desired rates are left alone. *)
Lemma make_it_so_returns getter direct l h h' :
  NoDup (map fst l) ->
  make_it_so getter direct l h = Returns h' ->
  (forall d ds, (d, ds) ∈ l ->
     getter (h d) = Some (max_speed (h' d) direct)
     /\ (forall x, x <> direct -> max_speed (h' d) x = max_speed (h d) x))
  /\ (forall d, max_desired_speed (h' d) = max_desired_speed (h d)).
Proof.
  revert h. induction l as [|[d0 ds0] l IH]; intros h Hnd Hret; cbn in *.
  - injection Hret as <-. split; [|reflexivity].
    intros d ds Hin. now apply elem_of_nil in Hin.
  - apply NoDup_cons in Hnd as [Hd0 Hnd].
    destruct (getter (h d0)) as [v|] eqn:Hget; [|discriminate].
    destruct (IH _ Hnd Hret) as [IH1 IH2]. split.
    + intros d ds Hin. apply elem_of_cons in Hin as [Heq|Hin].
      * injection Heq as -> ->.
        pose proof (make_it_so_untouched getter direct l
                      (set_max_speed h d0 direct v) d0 Hd0) as Hsame.
        rewrite Hret in Hsame. cbn in Hsame. rewrite Hsame.
        rewrite set_max_speed_same. cbn. rewrite fn_lookup_insert.
        split; [exact Hget|]. intros x Hx. now rewrite fn_lookup_insert_ne.
      * assert (Hne : d0 <> d).
        { intros ->. apply Hd0. now apply elem_of_idents in Hin. }
        destruct (IH1 d ds Hin) as [Hg Ho].
        rewrite set_max_speed_other in Hg, Ho by done. now split.
    + intros d. rewrite IH2. apply desired_after_set_max_speed.
Qed.

(** C1. [make_it_so UPLOAD] on a Download whose desired rates are 5 (up)
    and 7 (down), with a getter that answers any argument other than
    [UPLOAD] with the download rate: the allowed upload rate becomes 7, the
    desired download rate, and not 5, the desired upload rate. *)
Theorem make_it_so_reads_other_direction :
  exists h',
    make_it_so upload_or_else_getter UPLOAD apply_torrents apply_heap = Returns h'
    /\ max_desired_speed (apply_heap 1%nat) UPLOAD == 5
    /\ max_desired_speed (apply_heap 1%nat) DOWNLOAD == 7
    /\ max_speed (h' 1%nat) UPLOAD == 7
    /\ ~ max_speed (h' 1%nat) UPLOAD == max_desired_speed (h' 1%nat) UPLOAD.
Proof.
  eexists. split; [reflexivity|].
  repeat split; try (vm_compute; reflexivity).
  vm_compute. discriminate.
Qed.

(** ** adjust_speeds *)

Lemma adjust_speeds_returns getter rm h rm' h' :
  adjust_speeds getter rm h = Returns (rm', h') ->
  rm' = lock_release (clear_downloadstates (lock_acquire rm))
  /\ lock rm' = lock rm.
Proof.
  unfold adjust_speeds.
  destruct (CalculateBandwidth getter (lock_acquire rm) DOWNLOAD h) as [h1|h1];
    [|discriminate].
  destruct (CalculateBandwidth getter (lock_acquire rm) UPLOAD h1) as [h2|h2];
    [|discriminate].
  intros [= <- <-]. split; reflexivity.
Qed.

Lemma adjust_speeds_raises getter rm h rm' h' :
  adjust_speeds getter rm h = Raises (rm', h') -> rm' = lock_acquire rm.
Proof.
  unfold adjust_speeds.
  destruct (CalculateBandwidth getter (lock_acquire rm) DOWNLOAD h) as [h1|h1];
    [|now intros [= <- <-]].
  destruct (CalculateBandwidth getter (lock_acquire rm) UPLOAD h1) as [h2|h2];
    [discriminate|now intros [= <- <-]].
Qed.

Lemma make_it_so_total getter direct l h :
  (forall c, getter c <> None) ->
  returned (make_it_so getter direct l h) = true.
Proof.
  intros Htotal. revert h.
  induction l as [|[d ds] l IH]; intros h; cbn; [reflexivity|].
  destruct (getter (h d)) as [v|] eqn:Hget; [apply IH|].
  now destruct (Htotal (h d)).
Qed.

Lemma CalculateBandwidth_total getter rm dir h :
  (forall c, getter c <> None) ->
  returned (CalculateBandwidth getter rm dir h) = true.
Proof.
  intros Htotal. unfold CalculateBandwidth, CalculateBandwidth_with.
  destruct (workingset rm dir) as [|t ws]; [reflexivity|].
  destruct (Qeq_bool (MaxRate rm dir) 0); [reflexivity|].
  destruct (dispatch prioritizelocal rm dir (t :: ws) h) as [h1 b].
  destruct (free_wheeling rm dir); [reflexivity|].
  destruct (special_torrents rm dir b h1) as [h4 available].
  destruct (toberaised b); [now apply make_it_so_total|].
  destruct (Qltb 0 available); now apply make_it_so_total.
Qed.

(** When the getter never raises, the cycle returns, with the registry
    cleared and the lock given back. *)
Lemma adjust_speeds_total getter rm h :
  (forall c, getter c <> None) ->
  exists h',
    adjust_speeds getter rm h
    = Returns (lock_release (clear_downloadstates (lock_acquire rm)), h').
Proof.
  intros Htotal. unfold adjust_speeds.
  pose proof (CalculateBandwidth_total getter (lock_acquire rm) DOWNLOAD h Htotal)
    as H1.
  destruct (CalculateBandwidth getter (lock_acquire rm) DOWNLOAD h) as [h1|h1];
    [|discriminate].
  pose proof (CalculateBandwidth_total getter (lock_acquire rm) UPLOAD h1 Htotal)
    as H2.
  destruct (CalculateBandwidth getter (lock_acquire rm) UPLOAD h1) as [h2|h2];
    [|discriminate].
  now exists h2.
Qed.

(** C2. A cycle in which [make_it_so] raises (the getter raises on the
    builtin [dir]): [adjust_speeds] ends with that exception, the lock is
    still taken and the registry still holds the registered download; when
    [CalculateBandwidth] returns for both directions, the registry is
    cleared and the lock is given back. *)
Theorem adjust_speeds_exception_skips_clear :
  returned (adjust_speeds keyed_getter busy_manager busy_heap) = false
  /\ lock (fst (state_of (adjust_speeds keyed_getter busy_manager busy_heap)))
     = S (lock busy_manager)
  /\ size (dset (fst (state_of (adjust_speeds keyed_getter busy_manager busy_heap))))
     = 1%nat
  /\ length (statusmap
               (fst (state_of (adjust_speeds keyed_getter busy_manager busy_heap)))
               DLSTATUS_DOWNLOADING) = 1%nat
  /\ returned (adjust_speeds upload_or_else_getter busy_manager busy_heap) = true
  /\ size (dset (fst (state_of
                        (adjust_speeds upload_or_else_getter busy_manager busy_heap))))
     = 0%nat.
Proof.
  repeat split; vm_compute; reflexivity.
Qed.

(** ** Loops over distinct Downloads *)

Lemma fold_left_fst {A B T : Type} (step2 : A * B -> T -> A * B)
    (step1 : A -> T -> A) :
  (forall a b t, fst (step2 (a, b) t) = step1 a t) ->
  forall l a b, fst (fold_left step2 l (a, b)) = fold_left step1 l a.
Proof.
  intros Hstep l. induction l as [|t l IH]; intros a b; cbn; [reflexivity|].
  specialize (Hstep a b t). destruct (step2 (a, b) t) as [a' b']. cbn in Hstep.
  subst. apply IH.
Qed.

Lemma fold_cellwise_other step F l h d :
  cellwise step F -> d ∉ map fst l -> fold_left step l h d = h d.
Proof.
  intros Hcell. revert h. induction l as [|[d0 ds0] l IH]; intros h Hd; cbn;
    [reflexivity|].
  cbn in Hd. apply not_elem_of_cons in Hd as [Hne Hd].
  rewrite IH by done. rewrite Hcell.
  destruct (decide (d0 = d)); [congruence|reflexivity].
Qed.

Lemma fold_cellwise_in step F l h d ds :
  cellwise step F -> NoDup (map fst l) -> (d, ds) ∈ l ->
  fold_left step l h d = F ds (h d).
Proof.
  intros Hcell. revert h. induction l as [|[d0 ds0] l IH]; intros h Hnd Hin; cbn.
  - now apply elem_of_nil in Hin.
  - cbn in Hnd. apply NoDup_cons in Hnd as [Hd0 Hnd].
    apply elem_of_cons in Hin as [Heq|Hin].
    + injection Heq as -> ->.
      rewrite (fold_cellwise_other step F) by done.
      rewrite Hcell. now destruct (decide (d0 = d0)).
    + rewrite IH by done. rewrite Hcell.
      destruct (decide (d0 = d)) as [->|Hne]; [|reflexivity].
      destruct Hd0. now apply elem_of_idents in Hin.
Qed.

(** A registry that satisfies its invariant hands each computation a working
    set of distinct Downloads. *)
Lemma workingset_NoDup rm dir :
  registry_inv rm -> NoDup (map fst (workingset rm dir)).
Proof.
  intros (Hnd & _ & _). unfold workingset. apply NoDup_idents_filter.
  revert Hnd. unfold entries. cbn [flat_map all_status].
  intros Hnd. eapply sublist_NoDup; [exact Hnd|].
  change (map fst ?l) with (fst <$> l). apply fmap_sublist.
  do 3 apply sublist_inserts_l.
  destruct dir.
  - rewrite (app_assoc (statusmap rm DLSTATUS_DOWNLOADING)).
    now apply sublist_inserts_r.
  - now apply sublist_inserts_r.
Qed.

(** ** Unlimited rate *)

Lemma unlimited_fold dir l h :
  let h' := fold_left (unlimited_step dir) l h in
  (forall d, max_desired_speed (h' d) = max_desired_speed (h d))
  /\ (forall d x, x <> dir -> max_speed (h' d) x = max_speed (h d) x)
  /\ (forall d, d ∈ map fst l -> max_speed (h' d) dir = max_desired_speed (h d) dir)
  /\ (forall d, d ∉ map fst l -> h' d = h d).
Proof.
  revert h. induction l as [|[d0 ds0] l IH]; intros h; cbn.
  - repeat split; try reflexivity. intros d Hd. now apply elem_of_nil in Hd.
  - destruct (IH (set_max_speed h d0 dir (get_max_desired_speed h d0 dir)))
      as (IH1 & IH2 & IH3 & IH4).
    split; [|split; [|split]].
    + intros d. rewrite IH1. apply desired_after_set_max_speed.
    + intros d x Hx. rewrite IH2 by done.
      destruct (decide (d0 = d)) as [->|Hne].
      * rewrite set_max_speed_same. cbn. now rewrite fn_lookup_insert_ne.
      * now rewrite set_max_speed_other.
    + intros d Hd. destruct (decide (d ∈ map fst l)) as [Hin|Hout].
      * rewrite IH3 by done. now rewrite desired_after_set_max_speed.
      * rewrite IH4 by done. apply elem_of_cons in Hd as [->|?]; [|done].
        rewrite set_max_speed_same. cbn. now rewrite fn_lookup_insert.
    + intros d Hd. apply not_elem_of_cons in Hd as [Hne Hd].
      rewrite IH4 by done. now apply set_max_speed_other.
Qed.

(** C3. With an unlimited global rate ([MaxRate rm dir == 0]) the computation
    returns, the allowed rate of every torrent of the working set is the
    desired rate it had at the call, and nothing else has changed: no desired
    rate (so the dispatch loop, which resets some, has not run), no rate of
    the other direction, no Download outside the working set. *)
Theorem CalculateBandwidth_unlimited (getter : Download -> option Q)
    (rm : RateManager) (dir : direction) (h : heap) :
  MaxRate rm dir == 0 ->
  exists h',
    CalculateBandwidth getter rm dir h = Returns h'
    /\ (forall d ds, (d, ds) ∈ workingset rm dir ->
          max_speed (h' d) dir = max_desired_speed (h d) dir)
    /\ (forall d, max_desired_speed (h' d) = max_desired_speed (h d))
    /\ (forall d x, x <> dir -> max_speed (h' d) x = max_speed (h d) x)
    /\ (forall d, d ∉ map fst (workingset rm dir) -> h' d = h d).
Proof.
  intros Hcap. apply Qeq_bool_iff in Hcap.
  unfold CalculateBandwidth, CalculateBandwidth_with.
  destruct (workingset rm dir) as [|t ws] eqn:Hws.
  - exists h. repeat split; try reflexivity.
    intros d ds Hin. now apply elem_of_nil in Hin.
  - rewrite Hcap. eexists. split; [reflexivity|].
    destruct (unlimited_fold dir (t :: ws) h) as (H1 & H2 & H3 & H4).
    repeat split; try assumption.
    intros d ds Hin. apply H3. now apply elem_of_idents in Hin.
Qed.

Lemma CalculateBandwidth_unlimited_witness :
  MaxRate unlimited_manager DOWNLOAD == 0
  /\ exists h',
      CalculateBandwidth upload_or_else_getter unlimited_manager DOWNLOAD apply_heap
      = Returns h'
      /\ (forall d ds, (d, ds) ∈ workingset unlimited_manager DOWNLOAD ->
            max_speed (h' d) DOWNLOAD = max_desired_speed (apply_heap d) DOWNLOAD)
      /\ (forall d, max_desired_speed (h' d) = max_desired_speed (apply_heap d))
      /\ (forall d x, x <> DOWNLOAD ->
            max_speed (h' d) x = max_speed (apply_heap d) x)
      /\ (forall d, d ∉ map fst (workingset unlimited_manager DOWNLOAD) ->
            h' d = apply_heap d).
Proof.
  split; [reflexivity|].
  apply (CalculateBandwidth_unlimited upload_or_else_getter unlimited_manager
           DOWNLOAD apply_heap).
  reflexivity.
Defined.

(** ** Dispatch and free wheeling *)

Ltac case_conditions :=
  repeat match goal with
         | |- context [if ?c then _ else _] => destruct c eqn:?
         end.

Lemma dispatch_step_heap prio rm dir h b t :
  fst (dispatch_step prio rm dir (h, b) t)
  = fst (dispatch_step prio rm dir (h, no_buckets) t).
Proof.
  destruct t as [d ds]. unfold dispatch_step.
  case_conditions; reflexivity.
Qed.

Lemma dispatch_heap prio rm dir ws h :
  fst (dispatch prio rm dir ws h)
  = fold_left (fun h t => fst (dispatch_step prio rm dir (h, no_buckets) t)) ws h.
Proof.
  unfold dispatch. apply fold_left_fst. intros a b t. apply dispatch_step_heap.
Qed.

Lemma dispatch_step_cellwise prio rm dir :
  cellwise (fun h t => fst (dispatch_step prio rm dir (h, no_buckets) t))
    (dispatch_cell prio dir).
Proof.
  intros h d ds d'. unfold dispatch_step, dispatch_cell, get_max_desired_speed.
  destruct (prio && negb (Qeq_bool (max_desired_speed (h d) dir) 0));
    [now destruct (decide (d = d')) as [->|]|].
  destruct (Qltb (get_current_speed ds dir) (5 # 100)).
  - cbn [fst]. destruct (decide (d = d')) as [<-|Hne].
    + now rewrite set_max_desired_speed_same.
    + now rewrite set_max_desired_speed_other.
  - case_conditions; cbn [fst]; now subst.
Qed.

Lemma free_wheeling_step_cellwise rm dir :
  cellwise (free_wheeling_step rm dir) (free_wheeling_cell rm dir).
Proof.
  intros h d ds d'. unfold free_wheeling_step, free_wheeling_cell,
    get_max_desired_speed.
  destruct (Qltb 0 (max_desired_speed (h d) dir));
    (destruct (decide (d = d')) as [<-|Hne];
     [ rewrite set_max_speed_same, set_max_desired_speed_same; reflexivity
     | rewrite set_max_speed_other, set_max_desired_speed_other by done;
       reflexivity ]).
Qed.

Lemma free_wheeling_returns getter rm dir h :
  workingset rm dir <> [] ->
  ~ MaxRate rm dir == 0 ->
  free_wheeling rm dir = true ->
  CalculateBandwidth getter rm dir h
  = Returns (fold_left (free_wheeling_step rm dir) (workingset rm dir)
               (fst (dispatch prioritizelocal rm dir (workingset rm dir) h))).
Proof.
  intros Hws Hcap Hfree. apply Qeq_bool_false in Hcap.
  unfold CalculateBandwidth, CalculateBandwidth_with.
  destruct (workingset rm dir) as [|t ws] eqn:E; [done|].
  rewrite Hcap. destruct (dispatch prioritizelocal rm dir (t :: ws) h) as [h1 b].
  now rewrite Hfree.
Qed.

Lemma free_wheeling_iff rm dir :
  free_wheeling rm dir = true
  <-> ~ MaxRate rm dir == 0
      /\ 20 # 100 < 1 - currenttotal rm dir / MaxRate rm dir.
Proof.
  unfold free_wheeling.
  now rewrite andb_true_iff, negb_true_iff, Qeq_bool_false, Qltb_lt.
Qed.

(** C4. With a limit ([MaxRate rm dir] not 0) of which more than
    20% is idle, the computation returns after the free-wheeling loop, and
    no phase runs.  For every torrent of the working set, with [localcap]
    the desired rate the loop reads from it as its local cap (that is the
    desired rate it has after the dispatch loop: the one of the call, or 0
    when its current rate is below 0.05 and the dispatch loop has reset it):
    if [localcap > 0] the desired rate becomes
    [min (currentrate + meancalcupth) localcap] and the allowed rate
    [localcap]; otherwise the desired rate becomes
    [currentrate + meancalcupth] and the allowed rate [MaxRate rm dir].
    Downloads outside the working set are untouched.  The Downloads of a
    working set are distinct in every registry that satisfies the registry
    invariant, which [__init__] establishes and every method keeps.  In
    particular, with a limit of 100, 50 measured in total and one torrent at
    40 with no local cap, [meancalcupth] is
    [(calcupth1 + calcupth2) / 2 = 1.5], the desired rate becomes the
    current rate raised by it, 41.5, and the allowed rate becomes 100. *)
Theorem CalculateBandwidth_free_wheeling (getter : Download -> option Q) :
  (forall (rm : RateManager) (dir : direction) (h : heap),
      NoDup (map fst (workingset rm dir)) ->
      ~ MaxRate rm dir == 0 ->
      20 # 100 < 1 - currenttotal rm dir / MaxRate rm dir ->
      exists h',
        CalculateBandwidth getter rm dir h = Returns h'
        /\ (forall d ds, (d, ds) ∈ workingset rm dir ->
              let currentrate := get_current_speed ds dir in
              let localcap := local_cap_found dir h (d, ds) in
              localcap
              = max_desired_speed
                  (fst (dispatch prioritizelocal rm dir (workingset rm dir) h) d)
                  dir
              /\ (0 < localcap ->
                  max_desired_speed (h' d) dir
                  == Qmin (currentrate + meancalcupth rm) localcap
                  /\ max_speed (h' d) dir = localcap)
              /\ (localcap <= 0 ->
                  max_desired_speed (h' d) dir = currentrate + meancalcupth rm
                  /\ max_speed (h' d) dir = MaxRate rm dir))
        /\ (forall d, d ∉ map fst (workingset rm dir) -> h' d = h d))
  /\ (forall (rm : RateManager) (dir : direction),
        registry_inv rm -> NoDup (map fst (workingset rm dir)))
  /\ (exists h',
        CalculateBandwidth getter idle_manager DOWNLOAD idle_heap = Returns h'
        /\ MaxRate idle_manager DOWNLOAD == 100
        /\ currenttotal idle_manager DOWNLOAD == 50
        /\ meancalcupth idle_manager
           == (calcupth1 idle_manager + calcupth2 idle_manager) / 2
        /\ meancalcupth idle_manager == 15 # 10
        /\ max_desired_speed (idle_heap 1%nat) DOWNLOAD == 0
        /\ max_desired_speed (h' 1%nat) DOWNLOAD == 415 # 10
        /\ max_desired_speed (h' 1%nat) DOWNLOAD == 40 + (15 # 10)
        /\ max_speed (h' 1%nat) DOWNLOAD == 100).
Proof.
  split; [|split].
  - intros rm dir h Hnd Hcap Hidle.
    assert (Hfree : free_wheeling rm dir = true) by now apply free_wheeling_iff.
    destruct (workingset rm dir) as [|t0 ws0] eqn:Hws.
    { exists h. unfold CalculateBandwidth, CalculateBandwidth_with.
      rewrite Hws. split; [reflexivity|]. split; [|reflexivity].
      intros d ds Hin. now apply elem_of_nil in Hin. }
    rewrite <- Hws in *.
    eexists. split.
    { apply free_wheeling_returns; [now rewrite Hws|done..]. }
    rewrite dispatch_heap. split.
    + intros d ds Hin currentrate localcap.
      rewrite (fold_cellwise_in _ _ _ _ d ds (free_wheeling_step_cellwise rm dir))
        by done.
      rewrite (fold_cellwise_in _ _ _ _ d ds
                 (dispatch_step_cellwise prioritizelocal rm dir)) by done.
      subst localcap currentrate.
      unfold local_cap_found, free_wheeling_cell, dispatch_cell, prioritizelocal.
      cbn [andb fst snd].
      destruct (Qltb (get_current_speed ds dir) (5 # 100)) eqn:Hlow;
        cbn [max_desired_speed max_speed].
      * rewrite fn_lookup_insert.
        change (Qltb 0 0) with false. cbn [max_desired_speed max_speed].
        rewrite !fn_lookup_insert.
        split; [reflexivity|]. split; [intros Hpos; lra|done].
      * split; [reflexivity|].
        destruct (Qltb 0 (max_desired_speed (h d) dir)) eqn:Hpos;
          cbn [max_desired_speed max_speed]; rewrite !fn_lookup_insert.
        -- split; [intros _|intros Hle; apply Qltb_lt in Hpos; lra].
           split; [|reflexivity].
           destruct (Qltb (max_desired_speed (h d) dir)
                       (get_current_speed ds dir + meancalcupth rm)) eqn:Hclamp.
           ++ apply Qltb_lt in Hclamp. rewrite Q.min_r; [reflexivity|lra].
           ++ apply Qltb_ge in Hclamp. now rewrite Q.min_l.
        -- apply Qltb_ge in Hpos. split; [intros Hlt; lra|done].
    + intros d Hd.
      rewrite (fold_cellwise_other _ _ _ _ d (free_wheeling_step_cellwise rm dir))
        by done.
      now rewrite (fold_cellwise_other _ _ _ _ d
                     (dispatch_step_cellwise prioritizelocal rm dir)).
  - intros rm dir Hinv. now apply workingset_NoDup.
  - eexists. split; [reflexivity|].
    repeat split; vm_compute; reflexivity.
Qed.

Lemma CalculateBandwidth_free_wheeling_witness :
  NoDup (map fst (workingset idle_manager DOWNLOAD))
  /\ ~ MaxRate idle_manager DOWNLOAD == 0
  /\ 20 # 100
     < 1 - currenttotal idle_manager DOWNLOAD / MaxRate idle_manager DOWNLOAD
  /\ exists h',
      CalculateBandwidth upload_or_else_getter idle_manager DOWNLOAD idle_heap
      = Returns h'
      /\ (forall d ds, (d, ds) ∈ workingset idle_manager DOWNLOAD ->
            let currentrate := get_current_speed ds DOWNLOAD in
            let localcap := local_cap_found DOWNLOAD idle_heap (d, ds) in
            localcap
            = max_desired_speed
                (fst (dispatch prioritizelocal idle_manager DOWNLOAD
                        (workingset idle_manager DOWNLOAD) idle_heap) d)
                DOWNLOAD
            /\ (0 < localcap ->
                max_desired_speed (h' d) DOWNLOAD
                == Qmin (currentrate + meancalcupth idle_manager) localcap
                /\ max_speed (h' d) DOWNLOAD = localcap)
            /\ (localcap <= 0 ->
                max_desired_speed (h' d) DOWNLOAD
                = currentrate + meancalcupth idle_manager
                /\ max_speed (h' d) DOWNLOAD = MaxRate idle_manager DOWNLOAD))
      /\ (forall d, d ∉ map fst (workingset idle_manager DOWNLOAD) ->
            h' d = idle_heap d).
Proof.
  assert (Hnd : NoDup (map fst (workingset idle_manager DOWNLOAD))).
  { apply (bool_decide_unpack _). vm_compute. reflexivity. }
  assert (Hcap : ~ MaxRate idle_manager DOWNLOAD == 0).
  { vm_compute. discriminate. }
  assert (Hidle : 20 # 100
     < 1 - currenttotal idle_manager DOWNLOAD / MaxRate idle_manager DOWNLOAD).
  { vm_compute. reflexivity. }
  split; [exact Hnd|]. split; [exact Hcap|]. split; [exact Hidle|].
  exact (proj1 (CalculateBandwidth_free_wheeling upload_or_else_getter)
           idle_manager DOWNLOAD idle_heap Hnd Hcap Hidle).
Defined.

(** ** The lists of the dispatch loop *)

Lemma dispatch_step_bucket prio rm dir h b t o :
  bucket (snd (dispatch_step prio rm dir (h, b) t)) o
  = bucket b o ++ dispatched_to prio rm dir h o [t].
Proof.
  destruct t as [d ds].
  unfold dispatched_to, dispatch_step, dispatch_of, get_max_speed,
    get_max_desired_speed, List.filter. cbn [fst snd].
  destruct (prio && negb (Qeq_bool (max_desired_speed (h d) dir) 0));
    [destruct o; cbn; now rewrite ?app_nil_r|].
  destruct (Qltb (get_current_speed ds dir) (5 # 100));
    [destruct o; cbn; now rewrite ?app_nil_r|].
  destruct (Qltb (calcupth1 rm) (max_speed (h d) dir - get_current_speed ds dir));
    [destruct o; cbn; now rewrite ?app_nil_r|].
  destruct (Qle_bool (max_speed (h d) dir - get_current_speed ds dir)
              (calcupth2 rm)).
  - destruct (Qltb (get_current_speed ds dir) (rateminimum rm dir));
      destruct o; cbn; now rewrite ?app_nil_r.
  - destruct (Qltb (rateminimum rm dir) (get_current_speed ds dir));
      destruct o; cbn; now rewrite ?app_nil_r.
Qed.

Lemma dispatched_to_ext prio rm dir h h' o l :
  (forall d, d ∈ map fst l -> h' d = h d) ->
  dispatched_to prio rm dir h' o l = dispatched_to prio rm dir h o l.
Proof.
  intros Hsame. unfold dispatched_to. apply filter_ext_in.
  intros [d ds] Hin. cbn [fst snd]. rewrite Hsame; [reflexivity|].
  apply list_elem_of_In in Hin. now apply elem_of_idents in Hin.
Qed.

Lemma dispatch_fold_bucket prio rm dir l h b o :
  NoDup (map fst l) ->
  bucket (snd (fold_left (dispatch_step prio rm dir) l (h, b))) o
  = bucket b o ++ dispatched_to prio rm dir h o l.
Proof.
  revert h b. induction l as [|t l IH]; intros h b Hnd; cbn [fold_left].
  - unfold dispatched_to. cbn. now rewrite app_nil_r.
  - cbn in Hnd. apply NoDup_cons in Hnd as [Ht Hnd].
    destruct (dispatch_step prio rm dir (h, b) t) as [h1 b1] eqn:Hstep.
    rewrite IH by done.
    assert (Hb1 : bucket b1 o = bucket b o ++ dispatched_to prio rm dir h o [t]).
    { rewrite <- dispatch_step_bucket. now rewrite Hstep. }
    rewrite Hb1, <- app_assoc. f_equal.
    rewrite (dispatched_to_ext prio rm dir h h1 o l).
    + unfold dispatched_to. cbn [List.filter].
      now destruct (bool_decide _ && listed o).
    + intros d Hd.
      assert (Hh1 : h1 = fst (dispatch_step prio rm dir (h, b) t))
        by now rewrite Hstep.
      rewrite Hh1, dispatch_step_heap. destruct t as [d0 ds0].
      rewrite (dispatch_step_cellwise prio rm dir h d0 ds0 d).
      destruct (decide (d0 = d)) as [->|]; [done|reflexivity].
Qed.

(** Under distinct Downloads each list of the dispatch loop is the part of
    the working set that [dispatch_of] sends to it, in order. *)
Lemma dispatch_bucket prio rm dir ws h o :
  NoDup (map fst ws) ->
  bucket (snd (dispatch prio rm dir ws h)) o = dispatched_to prio rm dir h o ws.
Proof.
  intros Hnd. unfold dispatch. rewrite dispatch_fold_bucket by done.
  now destruct o.
Qed.

Lemma elem_of_dispatched_to prio rm dir h o l d ds :
  (d, ds) ∈ dispatched_to prio rm dir h o l
  <-> (d, ds) ∈ l /\ dispatch_of prio rm dir (h d) ds = o /\ listed o = true.
Proof.
  unfold dispatched_to. rewrite elem_of_filter_bool. cbn [fst snd].
  now rewrite andb_true_iff, bool_decide_eq_true.
Qed.

Lemma dispatched_to_NoDup prio rm dir h o l :
  NoDup (map fst l) -> NoDup (map fst (dispatched_to prio rm dir h o l)).
Proof. apply NoDup_idents_filter. Qed.

(** Two entries of a list of distinct Downloads with the same Download are
    the same entry. *)
Lemma NoDup_idents_eq (l : list torrent) d ds ds' :
  NoDup (map fst l) -> (d, ds) ∈ l -> (d, ds') ∈ l -> ds = ds'.
Proof.
  induction l as [|[d0 ds0] l IH]; cbn; intros Hnd H1 H2.
  - now apply elem_of_nil in H1.
  - apply NoDup_cons in Hnd as [Hd0 Hnd].
    apply elem_of_cons in H1 as [E1|H1]; apply elem_of_cons in H2 as [E2|H2].
    + congruence.
    + injection E1 as -> ->. destruct Hd0. now apply elem_of_idents in H2.
    + injection E2 as -> ->. destruct Hd0. now apply elem_of_idents in H1.
    + now apply IH.
Qed.

(** A Download is in the list of one outcome at most. *)
Lemma dispatched_to_disjoint prio rm dir h o o' l d :
  NoDup (map fst l) -> o <> o' ->
  d ∈ map fst (dispatched_to prio rm dir h o l) ->
  d ∉ map fst (dispatched_to prio rm dir h o' l).
Proof.
  intros Hnd Hne Hin Hin'.
  apply elem_of_idents_inv in Hin as [ds Hin].
  apply elem_of_idents_inv in Hin' as [ds' Hin'].
  apply elem_of_dispatched_to in Hin as (Hl & Ho & _).
  apply elem_of_dispatched_to in Hin' as (Hl' & Ho' & _).
  rewrite (NoDup_idents_eq l d ds ds' Hnd Hl Hl') in Ho. congruence.
Qed.

Lemma dispatch_never_local rm dir ws h :
  localprioactive (snd (dispatch prioritizelocal rm dir ws h)) = [].
Proof.
  unfold dispatch.
  assert (H : forall l h b,
             localprioactive
               (snd (fold_left (dispatch_step prioritizelocal rm dir) l (h, b)))
             = localprioactive b).
  { induction l as [|[d ds] l IH]; intros h0 b0; cbn [fold_left]; [reflexivity|].
    destruct (dispatch_step prioritizelocal rm dir (h0, b0) (d, ds))
      as [h1 b1] eqn:Hstep.
    rewrite IH. unfold dispatch_step, prioritizelocal in Hstep.
    cbn [andb] in Hstep. revert Hstep. case_conditions; now intros [= <- <-]. }
  now rewrite H.
Qed.

(** ** The special torrents *)

Lemma raise_in_priority_step_cellwise rm dir :
  cellwise (fun h t => fst (raise_in_priority_step rm dir (h, 0) t))
    (raise_in_priority_cell rm dir).
Proof.
  intros h d ds d'. unfold raise_in_priority_step, raise_in_priority_cell.
  destruct (Qltb (rateminimum rm dir) (get_current_speed ds dir + meancalcupth rm));
    cbn [fst]; (destruct (decide (d = d')) as [<-|Hne];
      [now rewrite set_max_desired_speed_same
      |now rewrite set_max_desired_speed_other]).
Qed.

Lemma local_priority_step_cellwise rm dir :
  cellwise (fun h t => fst (local_priority_step rm dir (h, 0) t))
    (local_priority_cell rm dir).
Proof.
  intros h d ds d'.
  unfold local_priority_step, local_priority_cell, get_max_desired_speed.
  cbn [fst]. destruct (decide (d = d')) as [<-|Hne].
  - now rewrite set_max_speed_same, set_max_desired_speed_same.
  - now rewrite set_max_speed_other, set_max_desired_speed_other.
Qed.

Lemma lower_step_cellwise rm dir :
  cellwise (fun h t => fst (lower_step rm dir (h, 0) t)) (lower_cell rm dir).
Proof.
  intros h d ds d'. unfold lower_step, lower_cell. cbn [fst].
  destruct (decide (d = d')) as [<-|Hne].
  - now rewrite set_max_desired_speed_same.
  - now rewrite set_max_desired_speed_other.
Qed.

Lemma special_torrents_heap rm dir b h :
  fst (special_torrents rm dir b h)
  = fold_left (fun h t => fst (lower_step rm dir (h, 0) t)) (tobelowered b)
      (fold_left (fun h t => fst (local_priority_step rm dir (h, 0) t))
         (localprioactive b)
         (fold_left (fun h t => fst (raise_in_priority_step rm dir (h, 0) t))
            (toberaisedinpriority b) h)).
Proof.
  unfold special_torrents.
  destruct (fold_left (raise_in_priority_step rm dir) (toberaisedinpriority b)
              (h, 0)) as [h1 g1] eqn:E1.
  destruct (fold_left (local_priority_step rm dir) (localprioactive b) (h1, 0))
    as [h2 g2] eqn:E2.
  destruct (fold_left (lower_step rm dir) (tobelowered b) (h2, 0))
    as [h3 g3] eqn:E3.
  cbn [fst].
  assert (H1 : h1 = fold_left
                      (fun h t => fst (raise_in_priority_step rm dir (h, 0) t))
                      (toberaisedinpriority b) h).
  { rewrite <- (fold_left_fst (raise_in_priority_step rm dir)) with (b := 0).
    - now rewrite E1.
    - intros a q [d ds]. unfold raise_in_priority_step. now case_conditions. }
  assert (H2 : h2 = fold_left
                      (fun h t => fst (local_priority_step rm dir (h, 0) t))
                      (localprioactive b) h1).
  { rewrite <- (fold_left_fst (local_priority_step rm dir)) with (b := 0).
    - now rewrite E2.
    - now intros a q [d ds]. }
  assert (H3 : h3 = fold_left (fun h t => fst (lower_step rm dir (h, 0) t))
                      (tobelowered b) h2).
  { rewrite <- (fold_left_fst (lower_step rm dir)) with (b := 0).
    - now rewrite E3.
    - now intros a q [d ds]. }
  now subst.
Qed.

Lemma busy_workingset : workingset busy_manager DOWNLOAD = [(1%nat, busy_state)].
Proof. vm_compute. reflexivity. Qed.

(** ** Phase 2a *)

Lemma insert_by_key_perm key t l : insert_by_key key t l ≡ₚ t :: l.
Proof.
  induction l as [|x r IH]; cbn; [reflexivity|].
  destruct (Qle_bool (key t) (key x)); [reflexivity|].
  rewrite IH. apply perm_swap.
Qed.

Lemma sort_by_key_perm key l : sort_by_key key l ≡ₚ l.
Proof.
  induction l as [|t l IH]; cbn; [reflexivity|].
  now rewrite insert_by_key_perm, IH.
Qed.

Lemma insert_by_key_sorted key t l :
  StronglySorted (fun a b : torrent => key a <= key b) l ->
  StronglySorted (fun a b : torrent => key a <= key b) (insert_by_key key t l).
Proof.
  induction l as [|x r IH]; cbn; intros Hs.
  - repeat constructor.
  - apply StronglySorted_inv in Hs as [Hr Hx].
    destruct (Qle_bool (key t) (key x)) eqn:Hle.
    + apply Qle_bool_iff in Hle.
      constructor; [now constructor|].
      constructor; [exact Hle|].
      eapply List.Forall_impl; [|exact Hx]. cbn. intros y Hy. lra.
    + apply Qle_bool_gt in Hle.
      constructor; [now apply IH|].
      rewrite insert_by_key_perm. constructor; [lra|exact Hx].
Qed.

Lemma sort_by_key_sorted key l :
  StronglySorted (fun a b : torrent => key a <= key b) (sort_by_key key l).
Proof.
  induction l as [|t l IH]; cbn; [constructor|].
  now apply insert_by_key_sorted.
Qed.

Lemma lower_pool_other rm dir n l i q h d :
  d ∉ map fst l -> lower_pool rm dir n l i q h d = h d.
Proof.
  revert i q h. induction l as [|[d0 ds0] l IH]; intros i q h Hd; cbn;
    [reflexivity|].
  cbn in Hd. apply not_elem_of_cons in Hd as [Hne Hd].
  destruct (Qltb (get_max_desired_speed h d0 dir + q) (rateminimum rm dir));
    rewrite IH by done; now apply set_max_desired_speed_other.
Qed.

Lemma lower_pool_floor rm dir n l i q h d :
  d ∈ map fst l ->
  rateminimum rm dir <= max_desired_speed (lower_pool rm dir n l i q h d) dir.
Proof.
  revert i q h. induction l as [|[d0 ds0] l IH]; intros i q h Hd; cbn.
  - now apply elem_of_nil in Hd.
  - destruct (decide (d ∈ map fst l)) as [Hin|Hout].
    + destruct (Qltb (get_max_desired_speed h d0 dir + q) (rateminimum rm dir));
        now apply IH.
    + cbn in Hd. apply elem_of_cons in Hd as [->|?]; [|done].
      destruct (Qltb (get_max_desired_speed h d0 dir + q) (rateminimum rm dir))
        eqn:Hlow; rewrite lower_pool_other by done;
        rewrite set_max_desired_speed_same; cbn; rewrite fn_lookup_insert.
      * lra.
      * now apply Qltb_ge in Hlow.
Qed.

(** C6. Phase 2a, when the rate left to distribute is negative.  The
    torrents walked are those of [toberaised] and [nottobechanged] whose
    current rate is above the minimum, by increasing allowed rate.  The walk
    starts with a share of [available / size] for each; a torrent takes its
    desired rate plus the share, and when that falls below the minimum it
    is set to the minimum and what could not be taken from it is split
    between the torrents not yet seen.  At the end of the phase no torrent
    walked has a desired rate below the minimum. *)
Theorem phase2a_keeps_rateminimum (rm : RateManager) (dir : direction)
    (b : buckets) (availableratetobedistributed : Q) (h : heap) :
  availableratetobedistributed < 0 ->
  let pool :=
    List.filter
      (fun t : torrent => Qltb (rateminimum rm dir) (get_current_speed (snd t) dir))
      (toberaised b ++ nottobechanged b) in
  let walked := rate_id rm dir b h in
  walked ≡ₚ pool
  /\ StronglySorted
       (fun t t' : torrent =>
          get_max_speed h (fst t) dir <= get_max_speed h (fst t') dir) walked
  /\ phase2a rm dir b availableratetobedistributed h
     = lower_pool rm dir (length walked) walked 0
         (availableratetobedistributed / inject_Z (Z.of_nat (length walked))) h
  /\ (forall n d ds rest i share h0,
        let newmaxrate := get_max_desired_speed h0 d dir + share in
        (rateminimum rm dir <= newmaxrate ->
         lower_pool rm dir n ((d, ds) :: rest) i share h0
         = lower_pool rm dir n rest (S i) share
             (set_max_desired_speed h0 d dir newmaxrate))
        /\ (newmaxrate < rateminimum rm dir ->
            lower_pool rm dir n ((d, ds) :: rest) i share h0
            = lower_pool rm dir n rest (S i)
                (if decide (S i = n) then share
                 else share + (newmaxrate - rateminimum rm dir)
                              / inject_Z (Z.of_nat (n - S i)))
                (set_max_desired_speed h0 d dir (rateminimum rm dir))))
  /\ (forall d, d ∈ map fst walked ->
        rateminimum rm dir
        <= max_desired_speed
             (phase2a rm dir b availableratetobedistributed h d) dir).
Proof.
  intros Hneg pool walked.
  assert (Hwalk : phase2a rm dir b availableratetobedistributed h
     = lower_pool rm dir (length walked) walked 0
         (availableratetobedistributed / inject_Z (Z.of_nat (length walked))) h).
  { unfold phase2a. apply Qltb_lt in Hneg. rewrite Hneg. fold walked.
    now destruct walked. }
  split; [apply sort_by_key_perm|].
  split; [apply (sort_by_key_sorted (fun t => get_max_speed h (fst t) dir))|].
  split; [exact Hwalk|]. split.
  - intros n d ds rest i share h0 newmaxrate. subst newmaxrate. split.
    + intros Hge. apply Qltb_ge in Hge. cbn [lower_pool]. now rewrite Hge.
    + intros Hlt. apply Qltb_lt in Hlt. cbn [lower_pool]. rewrite Hlt.
      destruct (decide (S i = n)) as [<-|Hne].
      * now rewrite Nat.eqb_refl.
      * apply Nat.eqb_neq in Hne. now rewrite Hne.
  - intros d Hd. rewrite Hwalk. now apply lower_pool_floor.
Qed.

Lemma phase2a_keeps_rateminimum_witness :
  -9 < 0
  /\ rate_id pool_manager UPLOAD pool_buckets pool_heap ≡ₚ pool_torrents
  /\ (forall d, d ∈ map fst (rate_id pool_manager UPLOAD pool_buckets pool_heap) ->
        rateminimum pool_manager UPLOAD
        <= max_desired_speed
             (phase2a pool_manager UPLOAD pool_buckets (-9) pool_heap d) UPLOAD).
Proof.
  assert (Hneg : -9 < 0) by reflexivity.
  split; [exact Hneg|].
  destruct (phase2a_keeps_rateminimum pool_manager UPLOAD pool_buckets (-9)
              pool_heap Hneg) as (Hperm & _ & _ & _ & Hfloor).
  split; [exact Hperm|exact Hfloor].
Defined.

(** The carry-forward scenario: a share of -3 each; the first torrent would
    go from 4 to 1, is set to the minimum 3, and the 2 that could not be
    taken from it make the share of the two others -4: they go from 10 to 6. *)
Lemma phase2a_carry_forward :
  let h' := phase2a pool_manager UPLOAD pool_buckets (-9) pool_heap in
  max_desired_speed (h' 1%nat) UPLOAD == 3
  /\ max_desired_speed (h' 2%nat) UPLOAD == 6
  /\ max_desired_speed (h' 3%nat) UPLOAD == 6.
Proof. repeat split; vm_compute; reflexivity. Qed.

(** ** Phase 2c *)

Lemma speed_up_step_heap rm dir meanrate up down h a t :
  fst (speed_up_step rm dir meanrate up down (h, a) t)
  = fst (speed_up_step rm dir meanrate up down (h, 0) t).
Proof.
  destruct t as [d ds]. unfold speed_up_step. now case_conditions.
Qed.

Lemma speed_up_step_cellwise rm dir meanrate up down :
  cellwise (fun h t => fst (speed_up_step rm dir meanrate up down (h, 0) t))
    (speed_up_cell rm dir meanrate up down).
Proof.
  intros h d ds d'.
  unfold speed_up_step, speed_up_cell, toadd_below, get_max_desired_speed.
  cbn [fst snd].
  destruct (Qltb _ (2 * _)); cbn [fst];
    (destruct (decide (d = d')) as [<-|Hne];
     [now rewrite set_max_desired_speed_same
     |now rewrite set_max_desired_speed_other]).
Qed.

Lemma slow_down_step_cellwise dir realup :
  cellwise (slow_down_step dir realup) (slow_down_cell dir realup).
Proof.
  intros h d ds d'. unfold slow_down_step, slow_down_cell, get_max_desired_speed.
  destruct (decide (d = d')) as [<-|Hne].
  - now rewrite set_max_desired_speed_same.
  - now rewrite set_max_desired_speed_other.
Qed.

Lemma raise_sum_ext dir h1 h2 h1' h2' l :
  (forall d, d ∈ map fst l -> h1 d = h2 d) ->
  (forall d, d ∈ map fst l -> h1' d = h2' d) ->
  raise_sum dir h1 h1' l = raise_sum dir h2 h2' l.
Proof.
  induction l as [|[d ds] l IH]; cbn; intros H H'; [reflexivity|].
  rewrite H, H' by apply list_elem_of_here. f_equal.
  apply IH; intros d0 Hd0; [apply H|apply H']; now apply list_elem_of_further.
Qed.

(** What the speed-up loop has summed in [realup] is the total raise of the
    desired rates of the torrents it walked. *)
Lemma speed_up_realup rm dir meanrate up down l h a :
  NoDup (map fst l) ->
  snd (fold_left (speed_up_step rm dir meanrate up down) l (h, a))
  == a + raise_sum dir h
           (fst (fold_left (speed_up_step rm dir meanrate up down) l (h, a))) l.
Proof.
  revert h a. induction l as [|[d ds] l IH]; intros h a Hnd; cbn [fold_left].
  - cbn. lra.
  - cbn in Hnd. apply NoDup_cons in Hnd as [Hd Hnd].
    destruct (speed_up_step rm dir meanrate up down (h, a) (d, ds))
      as [h1 a1] eqn:Hstep.
    rewrite IH by done.
    set (hf := fst (fold_left (speed_up_step rm dir meanrate up down) l (h1, a1))).
    assert (Hh1 : forall d', d' <> d -> h1 d' = h d').
    { intros d' Hne. unfold speed_up_step in Hstep. revert Hstep.
      case_conditions; intros [= <- _];
        now rewrite set_max_desired_speed_other. }
    assert (Hhf : hf d = h1 d).
    { subst hf.
      rewrite (fold_left_fst _
                 (fun h t => fst (speed_up_step rm dir meanrate up down (h, 0) t)))
        by (intros; apply speed_up_step_heap).
      now apply (fold_cellwise_other _ _ _ _ d
                   (speed_up_step_cellwise rm dir meanrate up down)). }
    cbn [raise_sum fold_right fst]. fold (raise_sum dir h hf l).
    rewrite Hhf.
    rewrite (raise_sum_ext dir h1 h hf hf l);
      [| intros d' Hd'; apply Hh1; intros ->; done | reflexivity].
    assert (Ha1 : a1 == a + (max_desired_speed (h1 d) dir
                              - max_desired_speed (h d) dir)).
    { unfold speed_up_step, get_max_desired_speed in Hstep. revert Hstep.
      case_conditions; intros [= <- <-];
        rewrite set_max_desired_speed_same; cbn; rewrite fn_lookup_insert; lra. }
    rewrite Ha1. lra.
Qed.

Lemma NoDup_idents_app (l k : list torrent) :
  NoDup (map fst (l ++ k)) ->
  NoDup (map fst l) /\ NoDup (map fst k)
  /\ (forall d, d ∈ map fst l -> d ∉ map fst k)
  /\ (forall d, d ∈ map fst k -> d ∉ map fst l).
Proof.
  rewrite map_app. intros (Hl & Hlk & Hk)%NoDup_app.
  repeat split; try done. intros d Hd Hd'. now apply (Hlk d).
Qed.

(** The pool of phase 2 holds distinct Downloads when the working set does. *)
Lemma dispatch_pool_NoDup prio rm dir ws h :
  NoDup (map fst ws) ->
  let b := snd (dispatch prio rm dir ws h) in
  NoDup (map fst (toberaised b ++ nottobechanged b)).
Proof.
  intros Hnd b. subst b.
  change (toberaised ?b) with (bucket b ToBeRaised).
  change (nottobechanged ?b) with (bucket b NotToBeChanged).
  rewrite !dispatch_bucket by done.
  rewrite map_app. apply NoDup_app. split; [|split].
  - now apply dispatched_to_NoDup.
  - intros d Hd. now apply (dispatched_to_disjoint prio rm dir h ToBeRaised).
  - now apply dispatched_to_NoDup.
Qed.

(** The two lists of phase 2b hold distinct Downloads, none in both. *)
Lemma phase2b_lists_NoDup dir b meanrate h :
  NoDup (map fst (toberaised b ++ nottobechanged b)) ->
  NoDup (map fst (raisedbelowm dir b meanrate h ++ allabovem dir b meanrate h)).
Proof.
  intros Hnd. unfold raisedbelowm, allabovem. rewrite <- List.filter_app.
  rewrite map_app. apply NoDup_app. split; [|split].
  - apply NoDup_idents_filter. now apply NoDup_idents_app in Hnd as (? & _).
  - intros d Hd Hd'.
    apply elem_of_idents_inv in Hd as [ds Hd].
    apply elem_of_idents_inv in Hd' as [ds' Hd'].
    apply elem_of_filter_bool in Hd as [Hin Hp].
    apply elem_of_filter_bool in Hd' as [Hin' Hp'].
    assert (Hin2 : (d, ds) ∈ toberaised b ++ nottobechanged b).
    { apply elem_of_app. now left. }
    rewrite (NoDup_idents_eq _ d ds ds' Hnd Hin2 Hin') in Hp.
    cbn [fst] in Hp, Hp'. rewrite Hp' in Hp. discriminate.
  - now apply NoDup_idents_filter.
Qed.

(** C10. Phase 2c, for two non-empty lists of distinct Downloads, none in
    both: the desired rate of every torrent above the mean is lowered by
    exactly [realup], the sum of the raises given to the torrents below the
    mean divided by the number of torrents above it; the lists built by
    phase 2b from a registry that satisfies its invariant are such lists.
    Nothing bounds the result from below: in a cycle over five downloads at
    10 each under a cap of 50, the one that desires 11, above the mean of
    10, ends with a desired rate of -4, below the mean and below the minimum
    rate. *)
Theorem phase2c_slows_down_without_floor :
  (forall (rm : RateManager) (dir : direction) (meanrate : Q)
          (below above : list torrent) (h : heap),
      NoDup (map fst (below ++ above)) -> below <> [] -> above <> [] ->
      let h' := phase2c rm dir meanrate below above h in
      let realup := realup_each rm dir meanrate below above h in
      (forall d ds, (d, ds) ∈ above ->
         max_desired_speed (h' d) dir = max_desired_speed (h d) dir - realup)
      /\ realup
         == raise_sum dir h h' below / inject_Z (Z.of_nat (length above)))
  /\ (forall (rm : RateManager) (dir : direction) (h h2 : heap),
        registry_inv rm ->
        let b := snd (dispatch prioritizelocal rm dir (workingset rm dir) h) in
        NoDup (map fst (raisedbelowm dir b (mean_reserved_rate b) h2
                        ++ allabovem dir b (mean_reserved_rate b) h2)))
  /\ (exists h',
        let b := snd (dispatch prioritizelocal exchange_manager DOWNLOAD
                        (workingset exchange_manager DOWNLOAD) exchange_heap) in
        CalculateBandwidth upload_or_else_getter exchange_manager DOWNLOAD
          exchange_heap = Returns h'
        /\ (4%nat, exchange_state)
           ∈ allabovem DOWNLOAD b (mean_reserved_rate b) exchange_heap
        /\ mean_reserved_rate b == 10
        /\ max_desired_speed (h' 4%nat) DOWNLOAD == -4
        /\ max_desired_speed (h' 4%nat) DOWNLOAD < mean_reserved_rate b
        /\ max_desired_speed (h' 4%nat) DOWNLOAD
           < rateminimum exchange_manager DOWNLOAD).
Proof.
  split; [|split].
  - intros rm dir meanrate below above h Hnd Hb Ha h' realup.
    apply NoDup_idents_app in Hnd as (Hndb & Hnda & Hba & Hab).
    subst h' realup. unfold phase2c, realup_each.
    destruct below as [|tb below']; [done|].
    destruct above as [|ta above']; [done|].
    set (below := tb :: below') in *. set (above := ta :: above') in *.
    set (up := fold_left (up_step dir meanrate h) below 0).
    set (down := fold_left (down_step dir meanrate h) above 0).
    pose proof (speed_up_realup rm dir meanrate up down below h 0 Hndb) as Hsum.
    pose proof (fold_left_fst (speed_up_step rm dir meanrate up down)
                  (fun h t => fst (speed_up_step rm dir meanrate up down (h, 0) t))
                  (fun a q t => speed_up_step_heap rm dir meanrate up down a q t)
                  below h 0) as Hheap.
    destruct (fold_left (speed_up_step rm dir meanrate up down) below (h, 0))
      as [h1 total] eqn:Hloop.
    cbn [fst snd] in *.
    set (realup := total / inject_Z (Z.of_nat (length above))).
    split.
    + intros d ds Hin.
      rewrite (fold_cellwise_in _ _ _ _ d ds (slow_down_step_cellwise dir realup))
        by done.
      unfold slow_down_cell. cbn [max_desired_speed].
      rewrite fn_lookup_insert. rewrite Hheap.
      rewrite (fold_cellwise_other _ _ _ _ d
                 (speed_up_step_cellwise rm dir meanrate up down));
        [reflexivity|].
      apply Hab. now apply elem_of_idents in Hin.
    + subst realup. apply Qdiv_comp; [|reflexivity].
      rewrite (raise_sum_ext dir h h
                 (fold_left (slow_down_step dir
                               (total / inject_Z (Z.of_nat (length above))))
                    above h1) h1 below); [lra|reflexivity|].
      intros d Hd.
      apply (fold_cellwise_other _ _ _ _ d (slow_down_step_cellwise dir _)).
      now apply Hba.
  - intros rm dir h h2 Hinv b. apply phase2b_lists_NoDup.
    now apply dispatch_pool_NoDup, workingset_NoDup.
  - eexists. cbn zeta. split; [vm_compute; reflexivity|].
    split; [|repeat split; vm_compute; reflexivity].
    vm_compute. repeat constructor.
Qed.

Lemma phase2c_slows_down_without_floor_witness :
  NoDup (map fst (exchange_below ++ exchange_above))
  /\ exchange_below <> [] /\ exchange_above <> []
  /\ (forall d ds, (d, ds) ∈ exchange_above ->
        max_desired_speed
          (phase2c exchange_manager DOWNLOAD 10 exchange_below exchange_above
             exchange_heap d) DOWNLOAD
        = max_desired_speed (exchange_heap d) DOWNLOAD
          - realup_each exchange_manager DOWNLOAD 10 exchange_below exchange_above
              exchange_heap)
  /\ realup_each exchange_manager DOWNLOAD 10 exchange_below exchange_above
       exchange_heap == 15.
Proof.
  assert (Hnd : NoDup (map fst (exchange_below ++ exchange_above))).
  { apply (bool_decide_unpack _). reflexivity. }
  assert (Hb : exchange_below <> []) by discriminate.
  assert (Ha : exchange_above <> []) by discriminate.
  split; [exact Hnd|]. split; [exact Hb|]. split; [exact Ha|]. split.
  - exact (proj1 (proj1 phase2c_slows_down_without_floor exchange_manager
                    DOWNLOAD 10 exchange_below exchange_above exchange_heap
                    Hnd Hb Ha)).
  - vm_compute. reflexivity.
Defined.

(** ** Phase 1 *)

Lemma claim_step_sum rm dir h l a :
  fold_left (claim_step rm dir h) l a == a + claim_sum rm dir h l.
Proof.
  revert a. induction l as [|[d ds] l IH]; intros a; cbn [fold_left].
  - cbn. lra.
  - rewrite IH. unfold claim_step, claim_of, get_max_desired_speed.
    cbn [claim_sum fold_right fst snd]. fold (claim_sum rm dir h l).
    unfold claim_of. lra.
Qed.

Lemma distribute_step_cellwise rm dir f :
  cellwise (distribute_step rm dir f) (distribute_cell rm dir f).
Proof.
  intros h d ds d'. unfold distribute_step, distribute_cell, get_max_desired_speed.
  destruct (decide (d = d')) as [<-|Hne].
  - now rewrite set_max_desired_speed_same.
  - now rewrite set_max_desired_speed_other.
Qed.

Lemma raise_sum_scaled rm dir f h h' l :
  (forall d ds, (d, ds) ∈ l ->
     max_desired_speed (h' d) dir - max_desired_speed (h d) dir
     == f * claim_of rm dir (h d) ds) ->
  raise_sum dir h h' l == f * claim_sum rm dir h l.
Proof.
  induction l as [|[d ds] l IH]; intros H.
  - cbn. lra.
  - cbn [raise_sum claim_sum fold_right fst snd].
    fold (raise_sum dir h h' l). fold (claim_sum rm dir h l).
    rewrite IH by (intros; apply H; now apply list_elem_of_further).
    rewrite (H d ds) by apply list_elem_of_here. lra.
Qed.

(** Phase 1 gives out at most the rate left to distribute. *)
Lemma phase1_raise rm dir l avail h :
  NoDup (map fst l) -> 0 < avail ->
  raise_sum dir h (phase1 rm dir l avail h) l <= avail.
Proof.
  intros Hnd Hpos. unfold phase1.
  set (claimed := fold_left (claim_step rm dir h) l 0).
  assert (Hclaimed : claimed == claim_sum rm dir h l).
  { subst claimed. rewrite claim_step_sum. lra. }
  rewrite (raise_sum_scaled rm dir (realupfactor claimed avail)).
  - rewrite <- Hclaimed. unfold realupfactor.
    destruct (Qle_bool claimed avail) eqn:Hle.
    + apply Qle_bool_iff in Hle. lra.
    + apply Qle_bool_gt in Hle.
      assert (Heq : avail / claimed * claimed == avail) by (field; lra).
      rewrite Heq. lra.
  - intros d ds Hin.
    rewrite (fold_cellwise_in _ _ _ _ d ds
               (distribute_step_cellwise rm dir (realupfactor claimed avail)))
      by done.
    unfold distribute_cell, claim_of. cbn [max_desired_speed].
    rewrite fn_lookup_insert.
    destruct (Qltb 0 (max_desired_speed (h d) dir)
              && Qltb (max_desired_speed (h d) dir)
                   (get_current_speed ds dir + meancalcupth rm)); lra.
Qed.

Lemma make_it_so_desired getter direct l h d :
  max_desired_speed (state_of (make_it_so getter direct l h) d)
  = max_desired_speed (h d).
Proof.
  revert h. induction l as [|[d0 ds0] l IH]; intros h; cbn; [reflexivity|].
  destruct (getter (h d0)) as [v|]; [|reflexivity].
  rewrite IH. apply desired_after_set_max_speed.
Qed.

Lemma raise_sum_ext_desired dir h1 h2 h1' h2' l :
  (forall d, d ∈ map fst l ->
     max_desired_speed (h1 d) dir = max_desired_speed (h2 d) dir) ->
  (forall d, d ∈ map fst l ->
     max_desired_speed (h1' d) dir = max_desired_speed (h2' d) dir) ->
  raise_sum dir h1 h1' l = raise_sum dir h2 h2' l.
Proof.
  induction l as [|[d ds] l IH]; cbn; intros H H'; [reflexivity|].
  rewrite H, H' by apply list_elem_of_here. f_equal.
  apply IH; intros d0 Hd0; [apply H|apply H']; now apply list_elem_of_further.
Qed.

Lemma special_torrents_available rm dir b h :
  snd (special_torrents rm dir b h)
  = MaxRate rm dir
    + (givenbackbytobelowered rm dir b h
       - grantedfortoberaisedinpriority rm dir b h
       - grantedforlocaltoberaised rm dir b h - currenttotal rm dir).
Proof.
  unfold special_torrents, givenbackbytobelowered,
    grantedfortoberaisedinpriority, grantedforlocaltoberaised.
  destruct (fold_left (raise_in_priority_step rm dir) (toberaisedinpriority b)
              (h, 0)) as [h1 g1].
  cbn [fst snd].
  destruct (fold_left (local_priority_step rm dir) (localprioactive b) (h1, 0))
    as [h2 g2].
  cbn [fst snd].
  now destruct (fold_left (lower_step rm dir) (tobelowered b) (h2, 0)) as [h3 g3].
Qed.

(** A torrent that the dispatch loop puts in a list keeps its cell. *)
Lemma dispatch_cell_listed prio rm dir c ds :
  listed (dispatch_of prio rm dir c ds) = true -> dispatch_cell prio dir ds c = c.
Proof.
  unfold dispatch_of, dispatch_cell.
  destruct (prio && negb (Qeq_bool (max_desired_speed c dir) 0)); [done|].
  now destruct (Qltb (get_current_speed ds dir) (5 # 100)).
Qed.

(** The torrents of [toberaised] and [nottobechanged] reach the phases with
    the cell they had at the call. *)
Lemma pool_cell_unchanged prio rm dir h o d :
  NoDup (map fst (workingset rm dir)) ->
  o = ToBeRaised \/ o = NotToBeChanged ->
  let '(h1, b) := dispatch prio rm dir (workingset rm dir) h in
  d ∈ map fst (bucket b o) ->
  fst (special_torrents rm dir b h1) d = h d.
Proof.
  intros Hnd Ho.
  pose proof (dispatch_heap prio rm dir (workingset rm dir) h) as Hh1.
  pose proof (fun o => dispatch_bucket prio rm dir (workingset rm dir) h o Hnd)
    as Hb.
  destruct (dispatch prio rm dir (workingset rm dir) h) as [h1 b].
  cbn [fst snd] in Hh1, Hb. intros Hd.
  assert (Hout : forall o', o' <> o -> d ∉ map fst (bucket b o')).
  { intros o' Hne. rewrite (Hb o').
    apply (dispatched_to_disjoint prio rm dir h o o'); try done.
    now rewrite <- (Hb o). }
  rewrite special_torrents_heap.
  rewrite (fold_cellwise_other _ _ _ _ d (lower_step_cellwise rm dir))
    by (apply (Hout ToBeLowered); destruct Ho; congruence).
  rewrite (fold_cellwise_other _ _ _ _ d (local_priority_step_cellwise rm dir))
    by (apply (Hout LocalPriority); destruct Ho; congruence).
  rewrite (fold_cellwise_other _ _ _ _ d (raise_in_priority_step_cellwise rm dir))
    by (apply (Hout ToBeRaisedInPriority); destruct Ho; congruence).
  rewrite (Hb o) in Hd. apply elem_of_idents_inv in Hd as [ds Hd].
  apply elem_of_dispatched_to in Hd as (Hin & Htag & Hlisted).
  rewrite Hh1.
  rewrite (fold_cellwise_in _ _ _ _ d ds (dispatch_step_cellwise prio rm dir))
    by done.
  apply (dispatch_cell_listed prio rm). now rewrite Htag.
Qed.

Lemma CalculateBandwidth_phase1_path getter rm dir h :
  ~ MaxRate rm dir == 0 ->
  free_wheeling rm dir = false ->
  let '(h1, b) := dispatch prioritizelocal rm dir (workingset rm dir) h in
  let '(h4, available) := special_torrents rm dir b h1 in
  toberaised b <> [] ->
  0 < available ->
  CalculateBandwidth getter rm dir h
  = make_it_so getter dir (toberegulated (workingset rm dir) b)
      (phase1 rm dir (toberaised b) available h4).
Proof.
  intros Hcap Hfree. apply Qeq_bool_false in Hcap.
  unfold CalculateBandwidth, CalculateBandwidth_with.
  destruct (workingset rm dir) as [|t ws] eqn:Hws.
  - cbn. intros H. now destruct H.
  - rewrite Hcap.
    destruct (dispatch prioritizelocal rm dir (t :: ws) h) as [h1 b].
    rewrite Hfree.
    destruct (special_torrents rm dir b h1) as [h4 available].
    intros Htbr Hpos. apply Qltb_lt in Hpos. rewrite Hpos.
    now destruct (toberaised b).
Qed.

(** C5. Under a limit with no free wheeling, for a working set of
    distinct Downloads: when some torrents are to be raised and the rate left
    to distribute, [MaxRate + givenback - grantedpriority - grantedlocal -
    currenttotal], is positive (phase 1), the desired rates of the torrents
    to be raised grow, over the whole computation, by no more than that rate
    in total. *)
Theorem phase1_respects_available (getter : Download -> option Q)
    (rm : RateManager) (dir : direction) (h : heap) :
  NoDup (map fst (workingset rm dir)) ->
  0 < MaxRate rm dir ->
  ~ 20 # 100 < 1 - currenttotal rm dir / MaxRate rm dir ->
  let h1 := fst (dispatch prioritizelocal rm dir (workingset rm dir) h) in
  let b := snd (dispatch prioritizelocal rm dir (workingset rm dir) h) in
  let availableratetobedistributed :=
    MaxRate rm dir
    + (givenbackbytobelowered rm dir b h1
       - grantedfortoberaisedinpriority rm dir b h1
       - grantedforlocaltoberaised rm dir b h1 - currenttotal rm dir) in
  toberaised b <> [] ->
  0 < availableratetobedistributed ->
  raise_sum dir h (state_of (CalculateBandwidth getter rm dir h)) (toberaised b)
  <= availableratetobedistributed.
Proof.
  intros Hnd Hcap Hidle h1 b available Htbr Hpos.
  assert (Hcap0 : ~ MaxRate rm dir == 0) by lra.
  assert (Hfree : free_wheeling rm dir = false).
  { apply not_true_iff_false. rewrite free_wheeling_iff. tauto. }
  pose proof (CalculateBandwidth_phase1_path getter rm dir h Hcap0 Hfree) as Hpath.
  pose proof (pool_cell_unchanged prioritizelocal rm dir h ToBeRaised) as Hcell.
  pose proof (dispatch_bucket prioritizelocal rm dir (workingset rm dir) h
                ToBeRaised Hnd) as Hbucket.
  subst available h1 b.
  rewrite <- special_torrents_available in Hpos |- *.
  destruct (dispatch prioritizelocal rm dir (workingset rm dir) h) as [h1 b].
  cbn [fst snd] in *.
  destruct (special_torrents rm dir b h1) as [h4 available] eqn:Hspecial.
  cbn [fst snd] in *.
  rewrite (Hpath Htbr Hpos).
  assert (Hndr : NoDup (map fst (toberaised b))).
  { change (NoDup (map fst (bucket b ToBeRaised))).
    rewrite Hbucket. now apply dispatched_to_NoDup. }
  rewrite (raise_sum_ext_desired dir h h4
             (state_of (make_it_so getter dir (toberegulated (workingset rm dir) b)
                          (phase1 rm dir (toberaised b) available h4)))
             (phase1 rm dir (toberaised b) available h4) (toberaised b)).
  - now apply phase1_raise.
  - intros d Hd. now rewrite (Hcell d Hnd (or_introl eq_refl) Hd).
  - intros d Hd. now rewrite make_it_so_desired.
Qed.

Lemma phase1_respects_available_witness :
  NoDup (map fst (workingset spare_manager DOWNLOAD))
  /\ 0 < MaxRate spare_manager DOWNLOAD
  /\ ~ 20 # 100
       < 1 - currenttotal spare_manager DOWNLOAD / MaxRate spare_manager DOWNLOAD
  /\ toberaised
       (snd (dispatch prioritizelocal spare_manager DOWNLOAD
               (workingset spare_manager DOWNLOAD) spare_heap)) <> []
  /\ raise_sum DOWNLOAD spare_heap
       (state_of (CalculateBandwidth upload_or_else_getter spare_manager DOWNLOAD
                    spare_heap))
       (toberaised
          (snd (dispatch prioritizelocal spare_manager DOWNLOAD
                  (workingset spare_manager DOWNLOAD) spare_heap)))
     <= 2.
Proof.
  assert (Hnd : NoDup (map fst (workingset spare_manager DOWNLOAD))).
  { apply (bool_decide_unpack _). vm_compute. reflexivity. }
  assert (Hcap : 0 < MaxRate spare_manager DOWNLOAD) by (vm_compute; reflexivity).
  assert (Hidle : ~ 20 # 100
       < 1 - currenttotal spare_manager DOWNLOAD / MaxRate spare_manager DOWNLOAD).
  { vm_compute. discriminate. }
  pose proof (phase1_respects_available upload_or_else_getter spare_manager
                DOWNLOAD spare_heap Hnd Hcap Hidle) as Hbound.
  cbv zeta in Hbound.
  assert (Htbr : toberaised
       (snd (dispatch prioritizelocal spare_manager DOWNLOAD
               (workingset spare_manager DOWNLOAD) spare_heap)) <> [])
    by (vm_compute; discriminate).
  specialize (Hbound Htbr).
  match type of Hbound with
  | 0 < ?available -> _ =>
      assert (Hpos : 0 < available) by (vm_compute; reflexivity);
      assert (Hval : available == 2) by (vm_compute; reflexivity)
  end.
  specialize (Hbound Hpos).
  split; [exact Hnd|]. split; [exact Hcap|]. split; [exact Hidle|].
  split; [exact Htbr|].
  eapply Qle_trans; [exact Hbound|]. rewrite Hval. apply Qle_refl.
Defined.

(** Two downloads at 1 each under a download cap of 2, reserved 10 each:
    no free wheeling, nothing granted in priority; both are lowered to 2.5
    and are then allowed 2.5 each, 5 in total. *)
Lemma allowed_rates_exceed_cap :
  0 < MaxRate crowded_manager DOWNLOAD
  /\ free_wheeling crowded_manager DOWNLOAD = false
  /\ returned (CalculateBandwidth upload_or_else_getter crowded_manager DOWNLOAD
                 crowded_heap) = true
  /\ allowed_sum DOWNLOAD
       (state_of (CalculateBandwidth upload_or_else_getter crowded_manager
                    DOWNLOAD crowded_heap))
       (toberegulated (workingset crowded_manager DOWNLOAD)
          (snd crowded_dispatched)) == 5
  /\ ~ allowed_sum DOWNLOAD
         (state_of (CalculateBandwidth upload_or_else_getter crowded_manager
                      DOWNLOAD crowded_heap))
         (toberegulated (workingset crowded_manager DOWNLOAD)
            (snd crowded_dispatched))
       <= MaxRate crowded_manager DOWNLOAD
          + grantedfortoberaisedinpriority crowded_manager DOWNLOAD
              (snd crowded_dispatched) (fst crowded_dispatched)
          + grantedforlocaltoberaised crowded_manager DOWNLOAD
              (snd crowded_dispatched) (fst crowded_dispatched).
Proof.
  repeat split; try (vm_compute; reflexivity).
  vm_compute. intros H. now apply H.
Qed.

(** * Further properties *)

(** ** What a computation can change *)

Lemma only_changes_refl dir ids h : only_changes dir ids h h.
Proof. intros d. split; [reflexivity|]. intros x _. split; reflexivity. Qed.

Lemma only_changes_trans dir ids h1 h2 h3 :
  only_changes dir ids h1 h2 -> only_changes dir ids h2 h3 ->
  only_changes dir ids h1 h3.
Proof.
  intros H12 H23 d. destruct (H12 d) as [Ha Hb]. destruct (H23 d) as [Hc Hd].
  split.
  - intros Hout. now rewrite Hc, Ha.
  - intros x Hx. destruct (Hb x Hx) as [E1 E2]. destruct (Hd x Hx) as [E3 E4].
    split; congruence.
Qed.

Lemma only_changes_mono dir ids ids' h h' :
  (forall d, d ∈ ids -> d ∈ ids') ->
  only_changes dir ids h h' -> only_changes dir ids' h h'.
Proof.
  intros Hsub H d. destruct (H d) as [Ha Hb]. split; [|exact Hb].
  intros Hout. apply Ha. intros Hin. apply Hout. now apply Hsub.
Qed.

Lemma only_changes_set_max_speed dir h d v :
  only_changes dir [d] h (set_max_speed h d dir v).
Proof.
  intros d'. split.
  - intros Hout. apply set_max_speed_other. intros ->. apply Hout.
    apply list_elem_of_here.
  - intros x Hx. rewrite desired_after_set_max_speed. split; [|reflexivity].
    destruct (decide (d = d')) as [<-|Hne].
    + rewrite set_max_speed_same. cbn. now rewrite fn_lookup_insert_ne.
    + now rewrite set_max_speed_other.
Qed.

Lemma only_changes_set_max_desired_speed dir h d v :
  only_changes dir [d] h (set_max_desired_speed h d dir v).
Proof.
  intros d'. split.
  - intros Hout. apply set_max_desired_speed_other. intros ->. apply Hout.
    apply list_elem_of_here.
  - intros x Hx. rewrite allowed_after_set_max_desired_speed.
    split; [reflexivity|].
    destruct (decide (d = d')) as [<-|Hne].
    + rewrite set_max_desired_speed_same. cbn. now rewrite fn_lookup_insert_ne.
    + now rewrite set_max_desired_speed_other.
Qed.

(** A loop whose iterations each change one Download changes the Downloads
    of its list at most. *)
Lemma only_changes_fold dir (step : heap -> torrent -> heap) l h :
  (forall h t, only_changes dir [fst t] h (step h t)) ->
  only_changes dir (map fst l) h (fold_left step l h).
Proof.
  intros Hstep. revert h. induction l as [|t l IH]; intros h; cbn.
  - apply only_changes_refl.
  - apply (only_changes_trans dir _ h (step h t)).
    + eapply only_changes_mono; [|apply Hstep].
      intros d Hd. apply list_elem_of_singleton in Hd as ->.
      apply list_elem_of_here.
    + eapply only_changes_mono; [|apply IH].
      intros d Hd. now apply list_elem_of_further.
Qed.

Ltac step_changes :=
  repeat first
    [ apply only_changes_refl
    | apply only_changes_set_max_speed
    | apply only_changes_set_max_desired_speed
    | eapply only_changes_trans;
      [ apply only_changes_set_max_desired_speed | ] ].

Lemma only_changes_unlimited_step dir h t :
  only_changes dir [fst t] h (unlimited_step dir h t).
Proof. destruct t as [d ds]. unfold unlimited_step. cbn [fst]. step_changes. Qed.

Lemma only_changes_dispatch_step prio rm dir h t :
  only_changes dir [fst t] h (fst (dispatch_step prio rm dir (h, no_buckets) t)).
Proof.
  destruct t as [d ds]. unfold dispatch_step.
  case_conditions; cbn [fst]; step_changes.
Qed.

Lemma only_changes_free_wheeling_step rm dir h t :
  only_changes dir [fst t] h (free_wheeling_step rm dir h t).
Proof.
  destruct t as [d ds]. unfold free_wheeling_step.
  case_conditions; cbn [fst]; step_changes.
Qed.

Lemma only_changes_raise_in_priority_step rm dir h t :
  only_changes dir [fst t] h (fst (raise_in_priority_step rm dir (h, 0) t)).
Proof.
  destruct t as [d ds]. unfold raise_in_priority_step.
  case_conditions; cbn [fst]; step_changes.
Qed.

Lemma only_changes_local_priority_step rm dir h t :
  only_changes dir [fst t] h (fst (local_priority_step rm dir (h, 0) t)).
Proof.
  destruct t as [d ds]. unfold local_priority_step. cbn [fst]. step_changes.
Qed.

Lemma only_changes_lower_step rm dir h t :
  only_changes dir [fst t] h (fst (lower_step rm dir (h, 0) t)).
Proof.
  destruct t as [d ds]. unfold lower_step. cbn [fst]. step_changes.
Qed.

Lemma only_changes_distribute_step rm dir f h t :
  only_changes dir [fst t] h (distribute_step rm dir f h t).
Proof.
  destruct t as [d ds]. unfold distribute_step. cbn [fst]. step_changes.
Qed.

Lemma only_changes_speed_up_step rm dir meanrate up down h t :
  only_changes dir [fst t] h
    (fst (speed_up_step rm dir meanrate up down (h, 0) t)).
Proof.
  destruct t as [d ds]. unfold speed_up_step.
  case_conditions; cbn [fst]; step_changes.
Qed.

Lemma only_changes_slow_down_step dir realup h t :
  only_changes dir [fst t] h (slow_down_step dir realup h t).
Proof.
  destruct t as [d ds]. unfold slow_down_step. cbn [fst]. step_changes.
Qed.

Lemma only_changes_lower_pool rm dir n l i q h :
  only_changes dir (map fst l) h (lower_pool rm dir n l i q h).
Proof.
  revert i q h. induction l as [|[d ds] l IH]; intros i q h; cbn [lower_pool].
  - apply only_changes_refl.
  - destruct (Qltb (get_max_desired_speed h d dir + q) (rateminimum rm dir));
      (eapply only_changes_trans;
       [ eapply only_changes_mono;
         [|apply (only_changes_set_max_desired_speed dir h d)];
         intros d' Hd'; apply list_elem_of_singleton in Hd' as ->;
         apply list_elem_of_here
       | eapply only_changes_mono; [|apply IH];
         intros d' Hd'; now apply list_elem_of_further ]).
Qed.

Lemma only_changes_make_it_so getter dir l h :
  only_changes dir (map fst l) h (state_of (make_it_so getter dir l h)).
Proof.
  revert h. induction l as [|[d ds] l IH]; intros h; cbn [make_it_so].
  - apply only_changes_refl.
  - destruct (getter (h d)) as [v|]; [|apply only_changes_refl].
    eapply only_changes_trans.
    + eapply only_changes_mono; [|apply (only_changes_set_max_speed dir h d v)].
      intros d' Hd'. apply list_elem_of_singleton in Hd' as ->.
      apply list_elem_of_here.
    + eapply only_changes_mono; [|apply IH].
      intros d' Hd'. now apply list_elem_of_further.
Qed.

(** ** The lists are parts of the working set *)

Lemma dispatch_fold_bucket_subset prio rm dir l h b o t :
  t ∈ bucket (snd (fold_left (dispatch_step prio rm dir) l (h, b))) o ->
  t ∈ bucket b o \/ t ∈ l.
Proof.
  revert h b. induction l as [|t0 l IH]; intros h b Hin; cbn [fold_left] in Hin.
  - now left.
  - destruct (dispatch_step prio rm dir (h, b) t0) as [h1 b1] eqn:Hstep.
    apply IH in Hin as [Hin|Hin]; [|right; now apply list_elem_of_further].
    assert (Hb1 : bucket b1 o = bucket b o ++ dispatched_to prio rm dir h o [t0]).
    { rewrite <- dispatch_step_bucket. now rewrite Hstep. }
    rewrite Hb1 in Hin. apply elem_of_app in Hin as [Hin|Hin]; [now left|].
    right. unfold dispatched_to in Hin. apply elem_of_filter_bool in Hin as [Hin _].
    apply list_elem_of_singleton in Hin as ->. apply list_elem_of_here.
Qed.

Lemma dispatch_bucket_subset prio rm dir ws h o t :
  t ∈ bucket (snd (dispatch prio rm dir ws h)) o -> t ∈ ws.
Proof.
  intros Hin. apply dispatch_fold_bucket_subset in Hin as [Hin|Hin]; [|done].
  destruct o; now apply elem_of_nil in Hin.
Qed.

Lemma idents_mono (l k : list torrent) :
  (forall t, t ∈ l -> t ∈ k) -> forall d, d ∈ map fst l -> d ∈ map fst k.
Proof.
  intros Hsub d Hd. apply elem_of_idents_inv in Hd as [ds Hd].
  eapply elem_of_idents, Hsub, Hd.
Qed.

Lemma rate_id_subset rm dir b h t :
  t ∈ rate_id rm dir b h -> t ∈ toberaised b ++ nottobechanged b.
Proof.
  unfold rate_id. rewrite sort_by_key_perm. now intros [Hin _]%elem_of_filter_bool.
Qed.

Lemma raisedbelowm_subset dir b meanrate h t :
  t ∈ raisedbelowm dir b meanrate h -> t ∈ toberaised b ++ nottobechanged b.
Proof.
  unfold raisedbelowm. intros [Hin _]%elem_of_filter_bool.
  apply elem_of_app. now left.
Qed.

Lemma allabovem_subset dir b meanrate h t :
  t ∈ allabovem dir b meanrate h -> t ∈ toberaised b ++ nottobechanged b.
Proof.
  unfold allabovem. rewrite <- List.filter_app.
  now intros [Hin _]%elem_of_filter_bool.
Qed.

Lemma toberegulated_subset ws b t : t ∈ toberegulated ws b -> t ∈ ws.
Proof. unfold toberegulated. now intros [Hin _]%elem_of_filter_bool. Qed.

Lemma pool_subset prio rm dir ws h t :
  let b := snd (dispatch prio rm dir ws h) in
  t ∈ toberaised b ++ nottobechanged b -> t ∈ ws.
Proof.
  intros b [Hin|Hin]%elem_of_app.
  - now apply (dispatch_bucket_subset prio rm dir ws h ToBeRaised).
  - now apply (dispatch_bucket_subset prio rm dir ws h NotToBeChanged).
Qed.

(** ** What each stage can change *)

Lemma only_changes_dispatch prio rm dir ws h :
  only_changes dir (map fst ws) h (fst (dispatch prio rm dir ws h)).
Proof.
  rewrite dispatch_heap.
  apply (only_changes_fold dir
           (fun h t => fst (dispatch_step prio rm dir (h, no_buckets) t))).
  intros h0 t. apply only_changes_dispatch_step.
Qed.

Lemma only_changes_special_torrents rm dir b h ids :
  (forall o t, t ∈ bucket b o -> fst t ∈ ids) ->
  only_changes dir ids h (fst (special_torrents rm dir b h)).
Proof.
  intros Hsub. rewrite special_torrents_heap.
  assert (Hin : forall o d, d ∈ map fst (bucket b o) -> d ∈ ids).
  { intros o d Hd. apply elem_of_idents_inv in Hd as [ds Hd].
    apply (Hsub o (d, ds) Hd). }
  eapply only_changes_trans; [eapply only_changes_trans|].
  - eapply only_changes_mono; [apply (Hin ToBeRaisedInPriority)|].
    apply (only_changes_fold dir
             (fun h t => fst (raise_in_priority_step rm dir (h, 0) t))).
    intros h0 t. apply only_changes_raise_in_priority_step.
  - eapply only_changes_mono; [apply (Hin LocalPriority)|].
    apply (only_changes_fold dir
             (fun h t => fst (local_priority_step rm dir (h, 0) t))).
    intros h0 t. apply only_changes_local_priority_step.
  - eapply only_changes_mono; [apply (Hin ToBeLowered)|].
    apply (only_changes_fold dir (fun h t => fst (lower_step rm dir (h, 0) t))).
    intros h0 t. apply only_changes_lower_step.
Qed.

Lemma only_changes_phase1 rm dir l avail h :
  only_changes dir (map fst l) h (phase1 rm dir l avail h).
Proof.
  unfold phase1. apply only_changes_fold. intros h0 t.
  apply only_changes_distribute_step.
Qed.

Lemma only_changes_phase2c rm dir meanrate below above h ids :
  (forall d, d ∈ map fst below -> d ∈ ids) ->
  (forall d, d ∈ map fst above -> d ∈ ids) ->
  only_changes dir ids h (phase2c rm dir meanrate below above h).
Proof.
  intros Hb Ha. unfold phase2c.
  destruct below as [|tb below']; [apply only_changes_refl|].
  destruct above as [|ta above']; [apply only_changes_refl|].
  set (below := tb :: below') in *. set (above := ta :: above') in *.
  set (up := fold_left (up_step dir meanrate h) below 0).
  set (down := fold_left (down_step dir meanrate h) above 0).
  pose proof (fold_left_fst (speed_up_step rm dir meanrate up down)
                (fun h t => fst (speed_up_step rm dir meanrate up down (h, 0) t))
                (fun a q t => speed_up_step_heap rm dir meanrate up down a q t)
                below h 0) as Hheap.
  destruct (fold_left (speed_up_step rm dir meanrate up down) below (h, 0))
    as [h1 total].
  cbn [fst] in Hheap. subst h1.
  eapply only_changes_trans.
  - eapply only_changes_mono; [exact Hb|].
    apply (only_changes_fold dir
             (fun h t => fst (speed_up_step rm dir meanrate up down (h, 0) t))).
    intros h0 t. apply only_changes_speed_up_step.
  - eapply only_changes_mono; [exact Ha|].
    apply only_changes_fold. intros h0 t. apply only_changes_slow_down_step.
Qed.

Lemma only_changes_phase2a rm dir b avail h :
  only_changes dir (map fst (toberaised b ++ nottobechanged b)) h
    (phase2a rm dir b avail h).
Proof.
  unfold phase2a. destruct (Qltb avail 0); [|apply only_changes_refl].
  destruct (rate_id rm dir b h) as [|t l] eqn:Hid; [apply only_changes_refl|].
  rewrite <- Hid.
  eapply only_changes_mono; [|apply only_changes_lower_pool].
  apply idents_mono. intros t0. apply rate_id_subset.
Qed.

Lemma only_changes_phase2 rm dir b avail h :
  only_changes dir (map fst (toberaised b ++ nottobechanged b)) h
    (phase2 rm dir b avail h).
Proof.
  unfold phase2. eapply only_changes_trans; [apply only_changes_phase2a|].
  apply only_changes_phase2c; apply idents_mono; intros t.
  - apply raisedbelowm_subset.
  - apply allabovem_subset.
Qed.

(** The heap [CalculateBandwidth] hands to [make_it_so] on the regulated
    path, and the whole computation, change the working set at most. *)
Lemma only_changes_CalculateBandwidth_with getter prio rm dir h :
  only_changes dir (map fst (workingset rm dir)) h
    (state_of (CalculateBandwidth_with getter prio rm dir h)).
Proof.
  unfold CalculateBandwidth_with.
  destruct (workingset rm dir) as [|t0 ws0] eqn:Hws; [apply only_changes_refl|].
  rewrite <- Hws.
  destruct (Qeq_bool (MaxRate rm dir) 0).
  { cbn [state_of]. apply only_changes_fold. intros h0 t.
    apply only_changes_unlimited_step. }
  pose proof (only_changes_dispatch prio rm dir (workingset rm dir) h) as Hd.
  pose proof (fun o t => dispatch_bucket_subset prio rm dir (workingset rm dir)
                           h o t) as Hsub.
  pose proof (pool_subset prio rm dir (workingset rm dir) h) as Hpool.
  destruct (dispatch prio rm dir (workingset rm dir) h) as [h1 b].
  cbn [fst snd] in Hd, Hsub, Hpool.
  eapply only_changes_trans; [exact Hd|].
  destruct (free_wheeling rm dir).
  { cbn [state_of]. apply only_changes_fold. intros h0 t.
    apply only_changes_free_wheeling_step. }
  pose proof (only_changes_special_torrents rm dir b h1
                (map fst (workingset rm dir))) as Hs.
  destruct (special_torrents rm dir b h1) as [h4 available]. cbn [fst] in Hs.
  eapply only_changes_trans.
  { apply Hs. intros o [d ds] Hin. eapply elem_of_idents, Hsub, Hin. }
  assert (Hreg : forall h0,
             only_changes dir (map fst (workingset rm dir)) h0
               (state_of (make_it_so getter dir
                            (toberegulated (workingset rm dir) b) h0))).
  { intros h0. eapply only_changes_mono; [|apply only_changes_make_it_so].
    apply idents_mono. intros t. apply toberegulated_subset. }
  destruct (toberaised b) as [|tr l] eqn:Htbr; [apply Hreg|].
  rewrite <- Htbr in *.
  destruct (Qltb 0 available).
  - eapply only_changes_trans; [|apply Hreg].
    eapply only_changes_mono; [|apply only_changes_phase1].
    apply idents_mono. intros t Hin. apply Hpool, elem_of_app. now left.
  - eapply only_changes_trans; [|apply Hreg].
    eapply only_changes_mono; [|apply only_changes_phase2].
    apply idents_mono. intros t Hin. now apply Hpool.
Qed.

(** X1. Whatever the limits, the getter and the way it ends,
    [CalculateBandwidth] for [dir] leaves alone every Download that is not
    in the working set of [dir], and, of every Download, the allowed and the
    desired rate of the other direction. *)
Theorem CalculateBandwidth_changes_workingset_only (getter : Download -> option Q)
    (rm : RateManager) (dir : direction) (h : heap) (d : ident) :
  let h' := state_of (CalculateBandwidth getter rm dir h) in
  (d ∉ map fst (workingset rm dir) -> h' d = h d)
  /\ (forall x, x <> dir ->
        max_speed (h' d) x = max_speed (h d) x
        /\ max_desired_speed (h' d) x = max_desired_speed (h d) x).
Proof.
  apply (only_changes_CalculateBandwidth_with getter prioritizelocal rm dir h d).
Qed.

Lemma CalculateBandwidth_changes_workingset_only_witness :
  (2%nat ∉ map fst (workingset idle_manager DOWNLOAD))
  /\ UPLOAD <> DOWNLOAD
  /\ state_of (CalculateBandwidth upload_or_else_getter idle_manager DOWNLOAD
                 idle_heap) 2%nat = idle_heap 2%nat
  /\ max_speed
       (state_of (CalculateBandwidth upload_or_else_getter idle_manager DOWNLOAD
                    idle_heap) 1%nat) UPLOAD
     = max_speed (idle_heap 1%nat) UPLOAD.
Proof.
  assert (Hout : 2%nat ∉ map fst (workingset idle_manager DOWNLOAD)).
  { apply (bool_decide_unpack _). vm_compute. reflexivity. }
  assert (Hdir : UPLOAD <> DOWNLOAD) by discriminate.
  split; [exact Hout|]. split; [exact Hdir|]. split.
  - exact (proj1 (CalculateBandwidth_changes_workingset_only upload_or_else_getter
                    idle_manager DOWNLOAD idle_heap 2%nat) Hout).
  - exact (proj1 (proj2 (CalculateBandwidth_changes_workingset_only
                           upload_or_else_getter idle_manager DOWNLOAD idle_heap
                           1%nat) UPLOAD Hdir)).
Defined.

(** ** Whole cycles *)

Lemma workingset_DOWNLOAD_subset rm t :
  t ∈ workingset rm DOWNLOAD -> t ∈ workingset rm UPLOAD.
Proof.
  unfold workingset. rewrite !elem_of_filter_bool, elem_of_app. tauto.
Qed.

Lemma elem_of_workingset_UPLOAD rm d ds :
  (d, ds) ∈ workingset rm UPLOAD
  <-> (d, ds) ∈ statusmap rm DLSTATUS_DOWNLOADING ++ statusmap rm DLSTATUS_SEEDING
      /\ has_active_connections ds = true.
Proof. unfold workingset. now rewrite elem_of_filter_bool. Qed.

(** X2. A cycle leaves alone every Download that has no entry with active
    connections among the downloading and the seeding torrents: stopped or
    checking torrents, torrents without connections, and Downloads that were
    not registered keep all their rates, however the cycle ends. *)
Theorem adjust_speeds_leaves_inactive_alone (getter : Download -> option Q)
    (rm : RateManager) (h : heap) (d : ident) :
  (forall ds,
     (d, ds) ∈ statusmap rm DLSTATUS_DOWNLOADING ++ statusmap rm DLSTATUS_SEEDING ->
     has_active_connections ds = false) ->
  snd (state_of (adjust_speeds getter rm h)) d = h d.
Proof.
  intros Hidle.
  assert (Hup : d ∉ map fst (workingset rm UPLOAD)).
  { intros [ds Hin]%elem_of_idents_inv.
    apply elem_of_workingset_UPLOAD in Hin as [Hin Hact].
    rewrite (Hidle ds Hin) in Hact. discriminate. }
  assert (Hdown : d ∉ map fst (workingset rm DOWNLOAD)).
  { intros [ds Hin]%elem_of_idents_inv. apply Hup.
    eapply elem_of_idents, workingset_DOWNLOAD_subset, Hin. }
  unfold adjust_speeds.
  pose proof (only_changes_CalculateBandwidth_with getter prioritizelocal
                (lock_acquire rm) DOWNLOAD h d) as [H1 _].
  fold (CalculateBandwidth getter (lock_acquire rm) DOWNLOAD h) in H1.
  destruct (CalculateBandwidth getter (lock_acquire rm) DOWNLOAD h) as [h1|h1];
    cbn [state_of snd] in *; [|now apply H1].
  pose proof (only_changes_CalculateBandwidth_with getter prioritizelocal
                (lock_acquire rm) UPLOAD h1 d) as [H2 _].
  fold (CalculateBandwidth getter (lock_acquire rm) UPLOAD h1) in H2.
  destruct (CalculateBandwidth getter (lock_acquire rm) UPLOAD h1) as [h2|h2];
    cbn [state_of snd] in *; rewrite H2 by exact Hup; now apply H1.
Qed.

Lemma adjust_speeds_leaves_inactive_alone_witness :
  (forall ds,
        (7%nat, ds) ∈ statusmap busy_manager DLSTATUS_DOWNLOADING
                      ++ statusmap busy_manager DLSTATUS_SEEDING ->
        has_active_connections ds = false)
  /\ snd (state_of (adjust_speeds keyed_getter busy_manager busy_heap)) 7%nat
     = busy_heap 7%nat.
Proof.
  assert (Hidle : forall ds,
        (7%nat, ds) ∈ statusmap busy_manager DLSTATUS_DOWNLOADING
                      ++ statusmap busy_manager DLSTATUS_SEEDING ->
        has_active_connections ds = false).
  { intros ds Hin. apply elem_of_idents in Hin. exfalso. revert Hin.
    apply (bool_decide_unpack _). vm_compute. reflexivity. }
  split; [exact Hidle|].
  exact (adjust_speeds_leaves_inactive_alone keyed_getter busy_manager busy_heap
           7%nat Hidle).
Defined.

(** X3. With no active downloading or seeding torrent registered, a cycle
    returns, whatever the getter does, with every Download as it was, the
    registry cleared and the lock count as at entry. *)
Theorem adjust_speeds_without_active_torrents (getter : Download -> option Q)
    (rm : RateManager) (h : heap) :
  workingset rm UPLOAD = [] ->
  adjust_speeds getter rm h
  = Returns (lock_release (clear_downloadstates (lock_acquire rm)), h)
  /\ lock (lock_release (clear_downloadstates (lock_acquire rm))) = lock rm
  /\ entries (lock_release (clear_downloadstates (lock_acquire rm))) = [].
Proof.
  intros Hup.
  assert (Hdown : workingset rm DOWNLOAD = []).
  { destruct (workingset rm DOWNLOAD) as [|t l] eqn:E; [reflexivity|].
    assert (Hin : t ∈ workingset rm UPLOAD).
    { apply workingset_DOWNLOAD_subset. rewrite E. apply list_elem_of_here. }
    rewrite Hup in Hin. now apply elem_of_nil in Hin. }
  split; [|split; reflexivity].
  unfold adjust_speeds, CalculateBandwidth, CalculateBandwidth_with.
  change (workingset (lock_acquire rm) ?x) with (workingset rm x).
  now rewrite Hdown, Hup.
Qed.

Lemma adjust_speeds_without_active_torrents_witness :
  workingset (init 100 50 100) UPLOAD = []
  /\ adjust_speeds keyed_getter (init 100 50 100) busy_heap
     = Returns (lock_release (clear_downloadstates (lock_acquire (init 100 50 100))),
                busy_heap).
Proof.
  assert (H : workingset (init 100 50 100) UPLOAD = []) by reflexivity.
  split; [exact H|].
  exact (proj1 (adjust_speeds_without_active_torrents keyed_getter
                  (init 100 50 100) busy_heap H)).
Defined.

(** X4. How a cycle ends.  If it returns, the registry has been cleared and
    the lock count is the one at entry; if it ends with an exception, the
    registry is exactly as it was (nothing was cleared) and the lock count
    is one higher; and it returns whenever the getter answers every
    Download. *)
Theorem adjust_speeds_outcomes (getter : Download -> option Q) (rm : RateManager)
    (h : heap) :
  (forall rm' h', adjust_speeds getter rm h = Returns (rm', h') ->
     entries rm' = [] /\ dset rm' = ∅
     /\ (forall dir, currenttotal rm' dir = 0) /\ lock rm' = lock rm)
  /\ (forall rm' h', adjust_speeds getter rm h = Raises (rm', h') ->
        statusmap rm' = statusmap rm /\ dset rm' = dset rm
        /\ currenttotal rm' = currenttotal rm /\ lock rm' = S (lock rm))
  /\ ((forall c, getter c <> None) ->
      returned (adjust_speeds getter rm h) = true).
Proof.
  split; [|split].
  - intros rm' h' Hret. apply adjust_speeds_returns in Hret as [-> _].
    repeat split.
  - intros rm' h' Hraise. apply adjust_speeds_raises in Hraise as ->.
    repeat split.
  - intros Htotal. destruct (adjust_speeds_total getter rm h Htotal) as [h' ->].
    reflexivity.
Qed.

Lemma adjust_speeds_outcomes_witness :
  adjust_speeds keyed_getter busy_manager busy_heap
  = Raises (state_of (adjust_speeds keyed_getter busy_manager busy_heap))
  /\ dset (fst (state_of (adjust_speeds keyed_getter busy_manager busy_heap)))
     = dset busy_manager
  /\ (forall c, upload_or_else_getter c <> None)
  /\ returned (adjust_speeds upload_or_else_getter busy_manager busy_heap) = true.
Proof.
  assert (Hraise : adjust_speeds keyed_getter busy_manager busy_heap
     = Raises (state_of (adjust_speeds keyed_getter busy_manager busy_heap))).
  { vm_compute. reflexivity. }
  assert (Htotal : forall c, upload_or_else_getter c <> None) by discriminate.
  split; [exact Hraise|]. split; [|split; [exact Htotal|]].
  - destruct (state_of (adjust_speeds keyed_getter busy_manager busy_heap))
      as [rm' h'] eqn:E.
    exact (proj1 (proj2 (proj1 (proj2 (adjust_speeds_outcomes keyed_getter
                                         busy_manager busy_heap))
                           rm' h' Hraise))).
  - exact (proj2 (proj2 (adjust_speeds_outcomes upload_or_else_getter
                           busy_manager busy_heap)) Htotal).
Defined.

(** ** Counting registrations *)

Lemma dset_add_downloadstate rm d ds :
  dset (fst (add_downloadstate rm d ds)) = {[d]} ∪ dset rm.
Proof.
  unfold add_downloadstate. cbn [fst].
  destruct (decide (d ∉ dset (lock_acquire rm))) as [Hnew|Hold]; cbn.
  - reflexivity.
  - cbn in Hold. apply dec_stable in Hold. apply leibniz_equiv.
    apply set_equiv. intros x. rewrite elem_of_union, elem_of_singleton.
    split; [now right|]. now intros [->|?].
Qed.

Lemma dset_registered rm l :
  dset (registered rm l) = list_to_set (map fst l) ∪ dset rm.
Proof.
  unfold registered. revert rm.
  induction l as [|[d ds] l IH]; intros rm; cbn [fold_left map fst].
  - apply leibniz_equiv. set_solver.
  - rewrite IH, dset_add_downloadstate. apply leibniz_equiv. cbn. set_solver.
Qed.

(** X5. [add_downloadstate] returns the number of distinct Downloads handed
    to it since the registry was last cleared: after [clear_downloadstates]
    and calls for the torrents of [l], a call for [d] returns the number of
    distinct Downloads among those of [l] and [d]; when they are all
    distinct, that is the number of calls. *)
Theorem add_downloadstate_counts_distinct (rm : RateManager) (l : list torrent)
    (d : ident) (ds : DownloadState) :
  snd (add_downloadstate (registered (clear_downloadstates rm) l) d ds)
  = size (list_to_set (map fst (l ++ [(d, ds)])) : gset ident)
  /\ (NoDup (map fst (l ++ [(d, ds)])) ->
      snd (add_downloadstate (registered (clear_downloadstates rm) l) d ds)
      = S (length l)).
Proof.
  assert (Hcount :
    snd (add_downloadstate (registered (clear_downloadstates rm) l) d ds)
    = size (list_to_set (map fst (l ++ [(d, ds)])) : gset ident)).
  { rewrite add_downloadstate_returns_size, dset_add_downloadstate,
      dset_registered.
    f_equal. apply leibniz_equiv. rewrite map_app. cbn.
    change (map fst l) with (fst <$> l).
    rewrite list_to_set_app. cbn. set_solver. }
  split; [exact Hcount|].
  intros Hnd. rewrite Hcount.
  rewrite size_list_to_set by exact Hnd.
  rewrite length_map, length_app. cbn. lia.
Qed.

Lemma add_downloadstate_counts_distinct_witness :
  NoDup (map fst (pool_torrents ++ [(9%nat, busy_state)]))
  /\ snd (add_downloadstate
            (registered (clear_downloadstates busy_manager) pool_torrents)
            9%nat busy_state) = 4%nat.
Proof.
  assert (Hnd : NoDup (map fst (pool_torrents ++ [(9%nat, busy_state)]))).
  { apply (bool_decide_unpack _). reflexivity. }
  split; [exact Hnd|].
  exact (proj2 (add_downloadstate_counts_distinct busy_manager pool_torrents
                  9%nat busy_state) Hnd).
Defined.

(** ** The dispatch loop *)

Lemma allowed_sum_app dir h l k :
  allowed_sum dir h (l ++ k) == allowed_sum dir h l + allowed_sum dir h k.
Proof.
  unfold allowed_sum. induction l as [|t l IH]; cbn [app fold_right].
  - lra.
  - rewrite IH. lra.
Qed.

Lemma allowed_sum_ext dir h h' l :
  (forall d, d ∈ map fst l -> h' d = h d) ->
  allowed_sum dir h' l = allowed_sum dir h l.
Proof.
  induction l as [|[d ds] l IH]; cbn; intros H; [reflexivity|].
  rewrite H by apply list_elem_of_here. f_equal.
  apply IH. intros d0 Hd0. apply H. now apply list_elem_of_further.
Qed.

Ltac decide_outcome :=
  repeat first [ rewrite bool_decide_eq_true_2 by reflexivity
               | rewrite bool_decide_eq_false_2 by discriminate ];
  cbn -[Qplus Qminus Qeq]; lra.

Lemma dispatch_step_meanrate prio rm dir h b t :
  meanrate (snd (dispatch_step prio rm dir (h, b) t))
  == meanrate b
     + (allowed_sum dir h (dispatched_to prio rm dir h ToBeRaised [t])
        + allowed_sum dir h (dispatched_to prio rm dir h NotToBeChanged [t])).
Proof.
  destruct t as [d ds].
  unfold dispatched_to, dispatch_step, dispatch_of, get_max_speed,
    get_max_desired_speed, List.filter. cbn [fst snd].
  destruct (prio && negb (Qeq_bool (max_desired_speed (h d) dir) 0));
    [decide_outcome|].
  destruct (Qltb (get_current_speed ds dir) (5 # 100)); [decide_outcome|].
  destruct (Qltb (calcupth1 rm) (max_speed (h d) dir - get_current_speed ds dir));
    [decide_outcome|].
  destruct (Qle_bool (max_speed (h d) dir - get_current_speed ds dir)
              (calcupth2 rm)).
  - destruct (Qltb (get_current_speed ds dir) (rateminimum rm dir)); decide_outcome.
  - destruct (Qltb (rateminimum rm dir) (get_current_speed ds dir)); decide_outcome.
Qed.

Lemma dispatch_fold_meanrate prio rm dir l h b :
  NoDup (map fst l) ->
  meanrate (snd (fold_left (dispatch_step prio rm dir) l (h, b)))
  == meanrate b
     + (allowed_sum dir h (dispatched_to prio rm dir h ToBeRaised l)
        + allowed_sum dir h (dispatched_to prio rm dir h NotToBeChanged l)).
Proof.
  revert h b. induction l as [|t l IH]; intros h b Hnd; cbn [fold_left].
  - cbn. lra.
  - cbn in Hnd. apply NoDup_cons in Hnd as [Ht Hnd].
    destruct (dispatch_step prio rm dir (h, b) t) as [h1 b1] eqn:Hstep.
    rewrite IH by done.
    assert (Hb1 : meanrate b1 == meanrate b
       + (allowed_sum dir h (dispatched_to prio rm dir h ToBeRaised [t])
          + allowed_sum dir h (dispatched_to prio rm dir h NotToBeChanged [t]))).
    { rewrite <- dispatch_step_meanrate. now rewrite Hstep. }
    assert (Hsame : forall d, d ∈ map fst l -> h1 d = h d).
    { intros d Hd.
      assert (Hh1 : h1 = fst (dispatch_step prio rm dir (h, b) t))
        by now rewrite Hstep.
      rewrite Hh1, dispatch_step_heap. destruct t as [d0 ds0].
      rewrite (dispatch_step_cellwise prio rm dir h d0 ds0 d).
      destruct (decide (d0 = d)) as [->|]; [done|reflexivity]. }
    assert (Hsplit : forall o,
       allowed_sum dir h1 (dispatched_to prio rm dir h1 o l)
       = allowed_sum dir h (dispatched_to prio rm dir h o l)).
    { intros o. rewrite (dispatched_to_ext prio rm dir h h1 o l Hsame).
      apply allowed_sum_ext. intros d Hd. apply Hsame.
      revert d Hd. apply idents_mono. intros t0.
      unfold dispatched_to. now intros [? _]%elem_of_filter_bool. }
    rewrite !Hsplit, Hb1.
    assert (Hcons : forall o,
       allowed_sum dir h (dispatched_to prio rm dir h o (t :: l))
       == allowed_sum dir h (dispatched_to prio rm dir h o [t])
          + allowed_sum dir h (dispatched_to prio rm dir h o l)).
    { intros o. rewrite <- allowed_sum_app. unfold dispatched_to.
      rewrite <- List.filter_app. reflexivity. }
    rewrite !Hcons. lra.
Qed.

(** X6. The dispatch loop over a working set of distinct Downloads puts
    each torrent in the list of its outcome and in no other list; the outcome
    is the one the tests of the loop give for the rates the Download had at
    the call.  The loop changes nothing but the desired rate of the
    torrents whose current rate is below 0.05, which it sets to 0. *)
Theorem dispatch_puts_each_torrent_in_one_list (rm : RateManager)
    (dir : direction) (h : heap) :
  NoDup (map fst (workingset rm dir)) ->
  let h1 := fst (dispatch prioritizelocal rm dir (workingset rm dir) h) in
  let b := snd (dispatch prioritizelocal rm dir (workingset rm dir) h) in
  (forall d ds o,
     (d, ds) ∈ bucket b o
     <-> (d, ds) ∈ workingset rm dir
         /\ dispatch_of prioritizelocal rm dir (h d) ds = o /\ listed o = true)
  /\ (forall d o o', d ∈ map fst (bucket b o) -> d ∈ map fst (bucket b o') ->
        o = o')
  /\ (forall d ds, (d, ds) ∈ workingset rm dir ->
        max_speed (h1 d) = max_speed (h d)
        /\ (get_current_speed ds dir < 5 # 100 ->
            max_desired_speed (h1 d) dir = 0)
        /\ (5 # 100 <= get_current_speed ds dir -> h1 d = h d)).
Proof.
  intros Hnd h1 b. subst h1 b. split; [|split].
  - intros d ds o. rewrite dispatch_bucket by done.
    apply elem_of_dispatched_to.
  - intros d o o' Hin Hin'. rewrite dispatch_bucket in Hin, Hin' by done.
    destruct (decide (o = o')) as [|Hne]; [done|].
    now destruct (dispatched_to_disjoint prioritizelocal rm dir h o o'
                    (workingset rm dir) d Hnd Hne Hin).
  - intros d ds Hin. rewrite dispatch_heap.
    rewrite (fold_cellwise_in _ _ _ _ d ds
               (dispatch_step_cellwise prioritizelocal rm dir)) by done.
    unfold dispatch_cell, prioritizelocal. cbn [andb].
    destruct (Qltb (get_current_speed ds dir) (5 # 100)) eqn:Hlow.
    + cbn. rewrite fn_lookup_insert. split; [reflexivity|]. split; [done|].
      apply Qltb_lt in Hlow. intros Hge. lra.
    + split; [reflexivity|]. split; [|done].
      apply Qltb_ge in Hlow. intros Hlt. lra.
Qed.

Lemma dispatch_puts_each_torrent_in_one_list_witness :
  NoDup (map fst (workingset busy_manager DOWNLOAD))
  /\ (1%nat, busy_state)
     ∈ nottobechanged
         (snd (dispatch prioritizelocal busy_manager DOWNLOAD
                 (workingset busy_manager DOWNLOAD) busy_heap)).
Proof.
  assert (Hnd : NoDup (map fst (workingset busy_manager DOWNLOAD))).
  { rewrite busy_workingset. apply (bool_decide_unpack _). reflexivity. }
  split; [exact Hnd|].
  apply (proj1 (dispatch_puts_each_torrent_in_one_list busy_manager DOWNLOAD
                  busy_heap Hnd) 1%nat busy_state NotToBeChanged).
  split; [rewrite busy_workingset; apply list_elem_of_here|].
  split; vm_compute; reflexivity.
Defined.

(** X7. For a working set of distinct Downloads, [meanrate] as the dispatch
    loop leaves it is the sum of the allowed rates of the torrents of
    [toberaised] and [nottobechanged], and the mean used by phase 2 is that
    sum divided by their number. *)
Theorem meanrate_is_mean_of_allowed_rates (rm : RateManager) (dir : direction)
    (h : heap) :
  NoDup (map fst (workingset rm dir)) ->
  let b := snd (dispatch prioritizelocal rm dir (workingset rm dir) h) in
  let pool := toberaised b ++ nottobechanged b in
  meanrate b == allowed_sum dir h pool
  /\ (pool <> [] ->
      mean_reserved_rate b
      == allowed_sum dir h pool / inject_Z (Z.of_nat (length pool))).
Proof.
  intros Hnd b pool.
  assert (Hsum : meanrate b == allowed_sum dir h pool).
  { subst b pool. unfold dispatch at 1.
    rewrite dispatch_fold_meanrate by done.
    rewrite allowed_sum_app.
    change (toberaised ?b) with (bucket b ToBeRaised).
    change (nottobechanged ?b) with (bucket b NotToBeChanged).
    rewrite !dispatch_bucket by done. cbn [meanrate no_buckets]. lra. }
  split; [exact Hsum|].
  intros Hne. unfold mean_reserved_rate. fold pool.
  destruct pool as [|t l] eqn:Hpool; [done|].
  rewrite <- Hpool at 1. subst pool.
  rewrite <- length_app, Hpool, Hsum. reflexivity.
Qed.

Lemma meanrate_is_mean_of_allowed_rates_witness :
  NoDup (map fst (workingset exchange_manager DOWNLOAD))
  /\ meanrate (snd (dispatch prioritizelocal exchange_manager DOWNLOAD
                      (workingset exchange_manager DOWNLOAD) exchange_heap))
     == 50.
Proof.
  assert (Hnd : NoDup (map fst (workingset exchange_manager DOWNLOAD))).
  { apply (bool_decide_unpack _). vm_compute. reflexivity. }
  split; [exact Hnd|].
  rewrite (proj1 (meanrate_is_mean_of_allowed_rates exchange_manager DOWNLOAD
                    exchange_heap Hnd)).
  vm_compute. reflexivity.
Defined.

(** ** The regulated path *)

Lemma toberegulated_all ws b : localprioactive b = [] -> toberegulated ws b = ws.
Proof.
  intros Hloc. unfold toberegulated. rewrite Hloc. cbn [map].
  induction ws as [|t ws IH]; cbn; [reflexivity|].
  rewrite bool_decide_eq_false_2 by apply not_elem_of_nil. cbn. now rewrite IH.
Qed.

Lemma CalculateBandwidth_regulated getter rm dir h :
  ~ MaxRate rm dir == 0 -> free_wheeling rm dir = false ->
  CalculateBandwidth getter rm dir h
  = make_it_so getter dir (workingset rm dir) (regulated rm dir h).
Proof.
  intros Hcap Hfree. apply Qeq_bool_false in Hcap.
  unfold CalculateBandwidth, CalculateBandwidth_with, regulated.
  pose proof (dispatch_never_local rm dir (workingset rm dir) h) as Hloc.
  destruct (workingset rm dir) as [|t ws] eqn:Hws.
  - cbn. reflexivity.
  - rewrite Hcap.
    destruct (dispatch prioritizelocal rm dir (t :: ws) h) as [h1 b].
    cbn [snd] in Hloc. rewrite Hfree.
    destruct (special_torrents rm dir b h1) as [h4 available].
    rewrite (toberegulated_all _ b Hloc).
    destruct (toberaised b); [reflexivity|].
    now destruct (Qltb 0 available).
Qed.

Lemma only_changes_regulated rm dir h :
  only_changes dir (map fst (workingset rm dir)) h (regulated rm dir h).
Proof.
  unfold regulated.
  pose proof (only_changes_dispatch prioritizelocal rm dir (workingset rm dir) h)
    as Hd.
  pose proof (fun o t => dispatch_bucket_subset prioritizelocal rm dir
                           (workingset rm dir) h o t) as Hsub.
  pose proof (pool_subset prioritizelocal rm dir (workingset rm dir) h) as Hpool.
  destruct (dispatch prioritizelocal rm dir (workingset rm dir) h) as [h1 b].
  cbn [fst snd] in Hd, Hsub, Hpool.
  eapply only_changes_trans; [exact Hd|].
  pose proof (only_changes_special_torrents rm dir b h1
                (map fst (workingset rm dir))) as Hs.
  destruct (special_torrents rm dir b h1) as [h4 available]. cbn [fst] in Hs.
  assert (Hs' : only_changes dir (map fst (workingset rm dir)) h1 h4).
  { apply Hs. intros o [d ds] Hin. eapply elem_of_idents, Hsub, Hin. }
  destruct (toberaised b) as [|tr l] eqn:Htbr; [exact Hs'|].
  rewrite <- Htbr in *. eapply only_changes_trans; [exact Hs'|].
  destruct (Qltb 0 available).
  - eapply only_changes_mono; [|apply only_changes_phase1].
    apply idents_mono. intros t Hin. apply Hpool, elem_of_app. now left.
  - eapply only_changes_mono; [|apply only_changes_phase2].
    apply idents_mono. intros t Hin. now apply Hpool.
Qed.

(** *** Allowed rates are written by [make_it_so] only *)

Lemma same_allowed_refl h : same_allowed h h.
Proof. now intros d. Qed.

Lemma same_allowed_trans h1 h2 h3 :
  same_allowed h1 h2 -> same_allowed h2 h3 -> same_allowed h1 h3.
Proof. intros H12 H23 d. now rewrite H23, H12. Qed.

Lemma same_allowed_set_max_desired_speed h d dir v :
  same_allowed h (set_max_desired_speed h d dir v).
Proof. intros d'. apply allowed_after_set_max_desired_speed. Qed.

Lemma same_allowed_fold (step : heap -> torrent -> heap) l h :
  (forall h t, same_allowed h (step h t)) ->
  same_allowed h (fold_left step l h).
Proof.
  intros Hstep. revert h. induction l as [|t l IH]; intros h; cbn.
  - apply same_allowed_refl.
  - eapply same_allowed_trans; [apply Hstep|apply IH].
Qed.

Ltac step_allowed :=
  first [ apply same_allowed_refl | apply same_allowed_set_max_desired_speed ].

Lemma same_allowed_dispatch rm dir ws h :
  same_allowed h (fst (dispatch prioritizelocal rm dir ws h)).
Proof.
  rewrite dispatch_heap.
  apply (same_allowed_fold
           (fun h t => fst (dispatch_step prioritizelocal rm dir (h, no_buckets) t))).
  intros h0 [d ds]. unfold dispatch_step.
  case_conditions; cbn [fst]; step_allowed.
Qed.

Lemma same_allowed_special_torrents rm dir b h :
  localprioactive b = [] -> same_allowed h (fst (special_torrents rm dir b h)).
Proof.
  intros Hloc. rewrite special_torrents_heap, Hloc. cbn [fold_left].
  eapply same_allowed_trans.
  - apply (same_allowed_fold
             (fun h t => fst (raise_in_priority_step rm dir (h, 0) t))).
    intros h0 [d ds]. unfold raise_in_priority_step.
    case_conditions; cbn [fst]; step_allowed.
  - apply (same_allowed_fold (fun h t => fst (lower_step rm dir (h, 0) t))).
    intros h0 [d ds]. unfold lower_step. cbn [fst]. step_allowed.
Qed.

Lemma same_allowed_phase1 rm dir l avail h :
  same_allowed h (phase1 rm dir l avail h).
Proof.
  unfold phase1. apply same_allowed_fold. intros h0 [d ds].
  unfold distribute_step. step_allowed.
Qed.

Lemma same_allowed_lower_pool rm dir n l i q h :
  same_allowed h (lower_pool rm dir n l i q h).
Proof.
  revert i q h. induction l as [|[d ds] l IH]; intros i q h; cbn [lower_pool].
  - apply same_allowed_refl.
  - destruct (Qltb (get_max_desired_speed h d dir + q) (rateminimum rm dir));
      (eapply same_allowed_trans;
       [apply same_allowed_set_max_desired_speed|apply IH]).
Qed.

Lemma same_allowed_phase2 rm dir b avail h :
  same_allowed h (phase2 rm dir b avail h).
Proof.
  unfold phase2. apply (same_allowed_trans h (phase2a rm dir b avail h)).
  - unfold phase2a. cbv zeta.
    destruct (Qltb avail 0); [|apply same_allowed_refl].
    destruct (rate_id rm dir b h) as [|t l]; [apply same_allowed_refl|].
    apply same_allowed_lower_pool.
  - set (h2 := phase2a rm dir b avail h). unfold phase2c.
    destruct (raisedbelowm dir b (mean_reserved_rate b) h2) as [|tb below'];
      [apply same_allowed_refl|].
    destruct (allabovem dir b (mean_reserved_rate b) h2) as [|ta above'];
      [apply same_allowed_refl|].
    set (below := tb :: below'). set (above := ta :: above').
    set (up := fold_left _ below 0). set (down := fold_left _ above 0).
    pose proof (fold_left_fst
                  (speed_up_step rm dir (mean_reserved_rate b) up down)
                  (fun h t => fst (speed_up_step rm dir (mean_reserved_rate b)
                                     up down (h, 0) t))
                  (fun a q t => speed_up_step_heap rm dir (mean_reserved_rate b)
                                  up down a q t)
                  below h2 0) as Hheap.
    destruct (fold_left (speed_up_step rm dir (mean_reserved_rate b) up down)
                below (h2, 0)) as [h3 total].
    cbn [fst] in Hheap. subst h3.
    eapply same_allowed_trans.
    + apply (same_allowed_fold
               (fun h t => fst (speed_up_step rm dir (mean_reserved_rate b)
                                  up down (h, 0) t))).
      intros h0 [d ds]. unfold speed_up_step.
      case_conditions; cbn [fst]; step_allowed.
    + apply same_allowed_fold. intros h0 [d ds]. unfold slow_down_step.
      step_allowed.
Qed.

Lemma same_allowed_regulated rm dir h : same_allowed h (regulated rm dir h).
Proof.
  unfold regulated.
  pose proof (same_allowed_dispatch rm dir (workingset rm dir) h) as Hd.
  pose proof (dispatch_never_local rm dir (workingset rm dir) h) as Hloc.
  destruct (dispatch prioritizelocal rm dir (workingset rm dir) h) as [h1 b].
  cbn [fst snd] in Hd, Hloc.
  pose proof (same_allowed_special_torrents rm dir b h1 Hloc) as Hs.
  destruct (special_torrents rm dir b h1) as [h4 available]. cbn [fst] in Hs.
  eapply same_allowed_trans; [exact Hd|].
  eapply same_allowed_trans; [exact Hs|].
  destruct (toberaised b); [apply same_allowed_refl|].
  destruct (Qltb 0 available);
    [apply same_allowed_phase1|apply same_allowed_phase2].
Qed.

(** X8. Under a limit with no free wheeling, the dispatch loop, the loops
    over the special torrents and both phases never write an allowed rate:
    [CalculateBandwidth] is [make_it_so] over the whole working set, run on
    a heap whose allowed rates, for both directions, are those of the
    call.  In particular, when [make_it_so] raises on its first torrent no
    allowed rate has changed. *)
Theorem allowed_rates_are_written_by_make_it_so_only
    (getter : Download -> option Q) (rm : RateManager) (dir : direction)
    (h : heap) :
  ~ MaxRate rm dir == 0 ->
  free_wheeling rm dir = false ->
  CalculateBandwidth getter rm dir h
  = make_it_so getter dir (workingset rm dir) (regulated rm dir h)
  /\ (forall d, max_speed (regulated rm dir h d) = max_speed (h d))
  /\ (forall d ds ws,
        workingset rm dir = (d, ds) :: ws ->
        getter (regulated rm dir h d) = None ->
        forall d', max_speed (state_of (CalculateBandwidth getter rm dir h) d')
                   = max_speed (h d')).
Proof.
  intros Hcap Hfree.
  pose proof (CalculateBandwidth_regulated getter rm dir h Hcap Hfree) as Hpath.
  split; [exact Hpath|]. split; [apply same_allowed_regulated|].
  intros d ds ws Hws Hnone d'. rewrite Hpath, Hws. cbn [make_it_so].
  rewrite Hnone. cbn [state_of]. apply same_allowed_regulated.
Qed.

Lemma allowed_rates_are_written_by_make_it_so_only_witness :
  ~ MaxRate busy_manager DOWNLOAD == 0
  /\ free_wheeling busy_manager DOWNLOAD = false
  /\ workingset busy_manager DOWNLOAD = [(1%nat, busy_state)]
  /\ keyed_getter (regulated busy_manager DOWNLOAD busy_heap 1%nat) = None
  /\ max_speed (state_of (CalculateBandwidth keyed_getter busy_manager DOWNLOAD
                            busy_heap) 1%nat)
     = max_speed (busy_heap 1%nat).
Proof.
  assert (Hcap : ~ MaxRate busy_manager DOWNLOAD == 0)
    by (vm_compute; discriminate).
  assert (Hfree : free_wheeling busy_manager DOWNLOAD = false)
    by (vm_compute; reflexivity).
  assert (Hnone : keyed_getter (regulated busy_manager DOWNLOAD busy_heap 1%nat)
                  = None) by reflexivity.
  split; [exact Hcap|]. split; [exact Hfree|]. split; [exact busy_workingset|].
  split; [exact Hnone|].
  exact (proj2 (proj2 (allowed_rates_are_written_by_make_it_so_only keyed_getter
                         busy_manager DOWNLOAD busy_heap Hcap Hfree))
           1%nat busy_state [] busy_workingset Hnone 1%nat).
Defined.

(** X9. Under a limit with no free wheeling, with a getter that answers any
    argument other than [UPLOAD] with the download rate, and a working set
    of distinct Downloads: [CalculateBandwidth] returns, and every torrent of
    the working set is allowed, for the direction computed, its desired
    download rate.  For [DOWNLOAD] that is the rate just computed; for
    [UPLOAD] it is the desired download rate of the call, which the
    computation has not touched, so the desired upload rates it computed do
    not reach the allowed upload rates. *)
Theorem regulated_allowed_rate_is_desired_download_rate (rm : RateManager)
    (dir : direction) (h : heap) :
  NoDup (map fst (workingset rm dir)) ->
  ~ MaxRate rm dir == 0 ->
  free_wheeling rm dir = false ->
  exists h',
    CalculateBandwidth upload_or_else_getter rm dir h = Returns h'
    /\ (forall d ds, (d, ds) ∈ workingset rm dir ->
          max_speed (h' d) dir = max_desired_speed (h' d) DOWNLOAD)
    /\ (dir = UPLOAD ->
        forall d, max_desired_speed (h' d) DOWNLOAD
                  = max_desired_speed (h d) DOWNLOAD).
Proof.
  intros Hnd Hcap Hfree.
  pose proof (CalculateBandwidth_regulated upload_or_else_getter rm dir h Hcap
                Hfree) as Hpath.
  assert (Htotal : forall c, upload_or_else_getter c <> None) by discriminate.
  pose proof (CalculateBandwidth_total upload_or_else_getter rm dir h Htotal)
    as Hret.
  destruct (CalculateBandwidth upload_or_else_getter rm dir h) as [h'|h'] eqn:E;
    [|discriminate].
  exists h'. split; [reflexivity|].
  symmetry in Hpath.
  destruct (make_it_so_returns upload_or_else_getter dir (workingset rm dir)
              (regulated rm dir h) h' Hnd Hpath) as [Hread Hdes].
  split.
  - intros d ds Hin. destruct (Hread d ds Hin) as [Hget _].
    unfold upload_or_else_getter in Hget. injection Hget as Hget.
    now rewrite Hdes, Hget.
  - intros -> d. rewrite Hdes.
    destruct (only_changes_regulated rm UPLOAD h d) as [_ Hother].
    now apply (Hother DOWNLOAD).
Qed.

Lemma regulated_allowed_rate_is_desired_download_rate_witness :
  NoDup (map fst (workingset crowded_manager DOWNLOAD))
  /\ ~ MaxRate crowded_manager DOWNLOAD == 0
  /\ free_wheeling crowded_manager DOWNLOAD = false
  /\ exists h',
      CalculateBandwidth upload_or_else_getter crowded_manager DOWNLOAD
        crowded_heap = Returns h'
      /\ (forall d ds, (d, ds) ∈ workingset crowded_manager DOWNLOAD ->
            max_speed (h' d) DOWNLOAD = max_desired_speed (h' d) DOWNLOAD)
      /\ (DOWNLOAD = UPLOAD ->
          forall d, max_desired_speed (h' d) DOWNLOAD
                    = max_desired_speed (crowded_heap d) DOWNLOAD).
Proof.
  assert (Hnd : NoDup (map fst (workingset crowded_manager DOWNLOAD))).
  { apply (bool_decide_unpack _). vm_compute. reflexivity. }
  assert (Hcap : ~ MaxRate crowded_manager DOWNLOAD == 0)
    by (vm_compute; discriminate).
  assert (Hfree : free_wheeling crowded_manager DOWNLOAD = false)
    by (vm_compute; reflexivity).
  split; [exact Hnd|]. split; [exact Hcap|]. split; [exact Hfree|].
  exact (regulated_allowed_rate_is_desired_download_rate crowded_manager DOWNLOAD
           crowded_heap Hnd Hcap Hfree).
Defined.

(** ** Torrents outside the pool *)

Lemma workingset_outcome prio rm dir h d ds o :
  NoDup (map fst (workingset rm dir)) ->
  (d, ds) ∈ workingset rm dir ->
  d ∈ map fst (bucket (snd (dispatch prio rm dir (workingset rm dir) h)) o) ->
  dispatch_of prio rm dir (h d) ds = o.
Proof.
  intros Hnd Hin Hd. rewrite dispatch_bucket in Hd by done.
  apply elem_of_idents_inv in Hd as [ds' Hd].
  apply elem_of_dispatched_to in Hd as (Hin' & Ho & _).
  now rewrite (NoDup_idents_eq _ d ds ds' Hnd Hin Hin').
Qed.

(** The cell of a torrent of the working set that is in neither
    [toberaised] nor [nottobechanged], when [make_it_so] is reached: what
    the dispatch loop and the loop of its own list, if any, made of it. *)
Lemma regulated_outside_pool rm dir h d ds :
  NoDup (map fst (workingset rm dir)) ->
  (d, ds) ∈ workingset rm dir ->
  dispatch_of prioritizelocal rm dir (h d) ds <> ToBeRaised ->
  dispatch_of prioritizelocal rm dir (h d) ds <> NotToBeChanged ->
  regulated rm dir h d
  = match dispatch_of prioritizelocal rm dir (h d) ds with
    | ToBeRaisedInPriority => raise_in_priority_cell rm dir ds (h d)
    | ToBeLowered => lower_cell rm dir ds (h d)
    | _ => dispatch_cell prioritizelocal dir ds (h d)
    end.
Proof.
  intros Hnd Hin Hnr Hnc. unfold regulated.
  pose proof (dispatch_heap prioritizelocal rm dir (workingset rm dir) h) as Hh1.
  pose proof (fun o => dispatch_bucket prioritizelocal rm dir (workingset rm dir)
                         h o Hnd) as Hb.
  pose proof (fun o => workingset_outcome prioritizelocal rm dir h d ds o Hnd Hin)
    as Hout.
  pose proof (dispatch_never_local rm dir (workingset rm dir) h) as Hloc.
  destruct (dispatch prioritizelocal rm dir (workingset rm dir) h) as [h1 b].
  cbn [fst snd] in Hh1, Hb, Hout, Hloc.
  pose proof (special_torrents_heap rm dir b h1) as Hs.
  destruct (special_torrents rm dir b h1) as [h4 available]. cbn [fst] in Hs.
  assert (Hpool : d ∉ map fst (toberaised b ++ nottobechanged b)).
  { rewrite map_app. intros [Hd|Hd]%elem_of_app.
    - now apply Hnr, (Hout ToBeRaised).
    - now apply Hnc, (Hout NotToBeChanged). }
  assert (Hh4 : h4 d
    = match dispatch_of prioritizelocal rm dir (h d) ds with
      | ToBeRaisedInPriority => raise_in_priority_cell rm dir ds (h d)
      | ToBeLowered => lower_cell rm dir ds (h d)
      | _ => dispatch_cell prioritizelocal dir ds (h d)
      end).
  { rewrite Hs, Hloc. cbn [fold_left].
    assert (Hh1d : h1 d = dispatch_cell prioritizelocal dir ds (h d)).
    { rewrite Hh1. now apply (fold_cellwise_in _ _ _ _ d ds
                                (dispatch_step_cellwise prioritizelocal rm dir)). }
    assert (Hkeep : forall o, listed o = true ->
              dispatch_of prioritizelocal rm dir (h d) ds = o ->
              dispatch_cell prioritizelocal dir ds (h d) = h d).
    { intros o Hl Ho. apply (dispatch_cell_listed prioritizelocal rm).
      now rewrite Ho. }
    assert (Hmem : forall o, listed o = true ->
              dispatch_of prioritizelocal rm dir (h d) ds = o ->
              (d, ds) ∈ bucket b o).
    { intros o Hl Ho. rewrite (Hb o). now apply elem_of_dispatched_to. }
    assert (Hbnd : forall o, NoDup (map fst (bucket b o))).
    { intros o. rewrite (Hb o). now apply dispatched_to_NoDup. }
    destruct (dispatch_of prioritizelocal rm dir (h d) ds) eqn:Ho.
    all: try (rewrite (fold_cellwise_other _ _ _ _ d (lower_step_cellwise rm dir))
                by (intros Hd; apply (Hout ToBeLowered) in Hd; discriminate);
              rewrite (fold_cellwise_other _ _ _ _ d
                         (raise_in_priority_step_cellwise rm dir))
                by (intros Hd; apply (Hout ToBeRaisedInPriority) in Hd;
                    discriminate);
              exact Hh1d).
    - rewrite (fold_cellwise_in _ _ _ _ d ds (lower_step_cellwise rm dir));
        [|apply (Hbnd ToBeLowered)|now apply (Hmem ToBeLowered)].
      rewrite (fold_cellwise_other _ _ _ _ d
                 (raise_in_priority_step_cellwise rm dir))
        by (intros Hd; apply (Hout ToBeRaisedInPriority) in Hd; discriminate).
      now rewrite Hh1d, (Hkeep ToBeLowered).
    - rewrite (fold_cellwise_other _ _ _ _ d (lower_step_cellwise rm dir))
        by (intros Hd; apply (Hout ToBeLowered) in Hd; discriminate).
      rewrite (fold_cellwise_in _ _ _ _ d ds
                 (raise_in_priority_step_cellwise rm dir));
        [|apply (Hbnd ToBeRaisedInPriority)
         |now apply (Hmem ToBeRaisedInPriority)].
      now rewrite Hh1d, (Hkeep ToBeRaisedInPriority). }
  rewrite <- Hh4.
  destruct (toberaised b) as [|tr l] eqn:Htbr; [reflexivity|].
  rewrite <- Htbr in *.
  destruct (Qltb 0 available).
  - destruct (only_changes_phase1 rm dir (toberaised b) available h4 d) as [Hp _].
    apply Hp. intros Hd. apply Hpool. rewrite map_app, elem_of_app. now left.
  - destruct (only_changes_phase2 rm dir b available h4 d) as [Hp _].
    now apply Hp.
Qed.

(** X10. Under a limit with no free wheeling and for a working set of
    distinct Downloads, the desired rate a torrent ends the computation with,
    however [make_it_so] ends, when the dispatch loop did not send it to
    [toberaised] or [nottobechanged]:
    - 0, when its current rate is below 0.05;
    - [currentrate + meancalcupth], when it is to be lowered (its allowed
      rate is more than [calcupth1] above its current rate);
    - [min (currentrate + meancalcupth) rateminimum], when it is to be
      raised in priority (allowed rate at most [calcupth2] above a current
      rate below the minimum);
    - the desired rate it had, when its allowed rate is between the two
      thresholds above a current rate that is not above the minimum. *)
Theorem desired_rate_outside_the_pool (getter : Download -> option Q)
    (rm : RateManager) (dir : direction) (h : heap) (d : ident)
    (ds : DownloadState) :
  NoDup (map fst (workingset rm dir)) ->
  ~ MaxRate rm dir == 0 ->
  free_wheeling rm dir = false ->
  (d, ds) ∈ workingset rm dir ->
  let h' := state_of (CalculateBandwidth getter rm dir h) in
  let currentrate := get_current_speed ds dir in
  let currentlimit := max_speed (h d) dir in
  (currentrate < 5 # 100 -> max_desired_speed (h' d) dir = 0)
  /\ (5 # 100 <= currentrate -> calcupth1 rm < currentlimit - currentrate ->
      max_desired_speed (h' d) dir = currentrate + meancalcupth rm)
  /\ (5 # 100 <= currentrate -> currentlimit - currentrate <= calcupth1 rm ->
      currentlimit - currentrate <= calcupth2 rm ->
      currentrate < rateminimum rm dir ->
      max_desired_speed (h' d) dir
      == Qmin (currentrate + meancalcupth rm) (rateminimum rm dir))
  /\ (5 # 100 <= currentrate -> currentlimit - currentrate <= calcupth1 rm ->
      calcupth2 rm < currentlimit - currentrate ->
      currentrate <= rateminimum rm dir ->
      max_desired_speed (h' d) dir = max_desired_speed (h d) dir).
Proof.
  intros Hnd Hcap Hfree Hin h' currentrate currentlimit. subst h'.
  rewrite (CalculateBandwidth_regulated getter rm dir h Hcap Hfree).
  rewrite make_it_so_desired.
  pose proof (regulated_outside_pool rm dir h d ds Hnd Hin) as Hcell.
  unfold dispatch_of, prioritizelocal in Hcell. cbn [andb] in Hcell.
  fold currentrate currentlimit in Hcell.
  split; [|split; [|split]].
  - intros Hlow. apply Qltb_lt in Hlow. rewrite Hlow in Hcell.
    rewrite Hcell by discriminate.
    unfold dispatch_cell, prioritizelocal. cbn [andb]. fold currentrate.
    rewrite Hlow. cbn. now rewrite fn_lookup_insert.
  - intros Hge Hgap. apply Qltb_ge in Hge. apply Qltb_lt in Hgap.
    rewrite Hge, Hgap in Hcell. rewrite Hcell by discriminate.
    unfold lower_cell. cbn. now rewrite fn_lookup_insert.
  - intros Hge Hgap1 Hgap2 Hmin.
    apply Qltb_ge in Hge, Hgap1. apply Qle_bool_iff in Hgap2.
    pose proof Hmin as Hmin'. apply Qltb_lt in Hmin.
    rewrite Hge, Hgap1, Hgap2, Hmin in Hcell. rewrite Hcell by discriminate.
    unfold raise_in_priority_cell. cbn. rewrite fn_lookup_insert.
    fold currentrate.
    destruct (Qltb (rateminimum rm dir) (currentrate + meancalcupth rm)) eqn:Hc.
    + apply Qltb_lt in Hc. rewrite Q.min_r; [reflexivity|lra].
    + apply Qltb_ge in Hc. now rewrite Q.min_l.
  - intros Hge Hgap1 Hgap2 Hmin.
    apply Qltb_ge in Hge, Hgap1, Hmin. apply Qle_bool_gt in Hgap2.
    rewrite Hge, Hgap1, Hgap2, Hmin in Hcell. rewrite Hcell by discriminate.
    unfold dispatch_cell, prioritizelocal. cbn [andb]. fold currentrate.
    now rewrite Hge.
Qed.

Lemma desired_rate_outside_the_pool_witness :
  NoDup (map fst (workingset crowded_manager DOWNLOAD))
  /\ ~ MaxRate crowded_manager DOWNLOAD == 0
  /\ free_wheeling crowded_manager DOWNLOAD = false
  /\ (1%nat, crowded_state) ∈ workingset crowded_manager DOWNLOAD
  /\ 5 # 100 <= get_current_speed crowded_state DOWNLOAD
  /\ calcupth1 crowded_manager
     < max_speed (crowded_heap 1%nat) DOWNLOAD
       - get_current_speed crowded_state DOWNLOAD
  /\ max_desired_speed
       (state_of (CalculateBandwidth keyed_getter crowded_manager DOWNLOAD
                    crowded_heap) 1%nat) DOWNLOAD
     = get_current_speed crowded_state DOWNLOAD + meancalcupth crowded_manager.
Proof.
  assert (Hnd : NoDup (map fst (workingset crowded_manager DOWNLOAD))).
  { apply (bool_decide_unpack _). vm_compute. reflexivity. }
  assert (Hcap : ~ MaxRate crowded_manager DOWNLOAD == 0)
    by (vm_compute; discriminate).
  assert (Hfree : free_wheeling crowded_manager DOWNLOAD = false)
    by (vm_compute; reflexivity).
  assert (Hin : (1%nat, crowded_state) ∈ workingset crowded_manager DOWNLOAD).
  { change (workingset crowded_manager DOWNLOAD)
      with [(1%nat, crowded_state); (2%nat, crowded_state)].
    apply list_elem_of_here. }
  assert (Hge : 5 # 100 <= get_current_speed crowded_state DOWNLOAD)
    by (vm_compute; discriminate).
  assert (Hgap : calcupth1 crowded_manager
     < max_speed (crowded_heap 1%nat) DOWNLOAD
       - get_current_speed crowded_state DOWNLOAD) by (vm_compute; reflexivity).
  split; [exact Hnd|]. split; [exact Hcap|]. split; [exact Hfree|].
  split; [exact Hin|]. split; [exact Hge|]. split; [exact Hgap|].
  exact (proj1 (proj2 (desired_rate_outside_the_pool keyed_getter crowded_manager
                         DOWNLOAD crowded_heap 1%nat crowded_state Hnd Hcap Hfree
                         Hin)) Hge Hgap).
Defined.

(** ** Phase 1, exactly *)

Lemma claim_sum_ext rm dir h h' l :
  (forall d, d ∈ map fst l -> h' d = h d) ->
  claim_sum rm dir h' l = claim_sum rm dir h l.
Proof.
  induction l as [|[d ds] l IH]; cbn; intros H; [reflexivity|].
  rewrite H by apply list_elem_of_here. f_equal.
  apply IH. intros d0 Hd0. apply H. now apply list_elem_of_further.
Qed.

Lemma phase1_desired rm dir l avail h d ds :
  NoDup (map fst l) -> (d, ds) ∈ l ->
  max_desired_speed (phase1 rm dir l avail h d) dir
  == max_desired_speed (h d) dir
     + claim_of rm dir (h d) ds
       * realupfactor (fold_left (claim_step rm dir h) l 0) avail.
Proof.
  intros Hnd Hin. unfold phase1.
  rewrite (fold_cellwise_in _ _ _ _ d ds (distribute_step_cellwise rm dir _))
    by done.
  unfold distribute_cell, claim_of. cbn [max_desired_speed].
  rewrite fn_lookup_insert.
  destruct (Qltb 0 (max_desired_speed (h d) dir)
            && Qltb (max_desired_speed (h d) dir)
                 (get_current_speed ds dir + meancalcupth rm)); lra.
Qed.

Lemma phase1_raise_exact rm dir l avail h :
  NoDup (map fst l) -> 0 < avail ->
  raise_sum dir h (phase1 rm dir l avail h) l
  == Qmin (claim_sum rm dir h l) avail.
Proof.
  intros Hnd Hpos.
  set (claimed := fold_left (claim_step rm dir h) l 0).
  assert (Hclaimed : claimed == claim_sum rm dir h l).
  { subst claimed. rewrite claim_step_sum. lra. }
  rewrite (raise_sum_scaled rm dir (realupfactor claimed avail)).
  - rewrite <- Hclaimed. unfold realupfactor.
    destruct (Qle_bool claimed avail) eqn:Hle.
    + apply Qle_bool_iff in Hle. rewrite Q.min_l by exact Hle. lra.
    + apply Qle_bool_gt in Hle. rewrite Q.min_r by lra. field. lra.
  - intros d ds Hin. rewrite (phase1_desired rm dir l avail h d ds) by done.
    fold claimed. lra.
Qed.

(** X11. Phase 1, seen from the whole computation (a limit, no free
    wheeling, distinct Downloads, torrents to be raised and a positive rate
    left to distribute).  The desired rates of the torrents to be raised
    grow in total by the smaller of what they claim and of the rate left.
    When the claims fit, each torrent gets what it claims: a torrent with a
    positive desired rate below [currentrate + meancalcupth] keeps it (it
    acts as its local cap), any other gets [currentrate + meancalcupth]. *)
Theorem phase1_grants_claims_or_shares_available (getter : Download -> option Q)
    (rm : RateManager) (dir : direction) (h : heap) :
  NoDup (map fst (workingset rm dir)) ->
  0 < MaxRate rm dir ->
  ~ 20 # 100 < 1 - currenttotal rm dir / MaxRate rm dir ->
  let h1 := fst (dispatch prioritizelocal rm dir (workingset rm dir) h) in
  let b := snd (dispatch prioritizelocal rm dir (workingset rm dir) h) in
  let availableratetobedistributed :=
    MaxRate rm dir
    + (givenbackbytobelowered rm dir b h1
       - grantedfortoberaisedinpriority rm dir b h1
       - grantedforlocaltoberaised rm dir b h1 - currenttotal rm dir) in
  let claimedrate := claim_sum rm dir h (toberaised b) in
  let h' := state_of (CalculateBandwidth getter rm dir h) in
  toberaised b <> [] ->
  0 < availableratetobedistributed ->
  raise_sum dir h h' (toberaised b) == Qmin claimedrate availableratetobedistributed
  /\ (claimedrate <= availableratetobedistributed ->
      forall d ds, (d, ds) ∈ toberaised b ->
        let newreservedrate := get_current_speed ds dir + meancalcupth rm in
        let maxup := max_desired_speed (h d) dir in
        (0 < maxup -> maxup < newreservedrate ->
         max_desired_speed (h' d) dir == maxup)
        /\ (~ (0 < maxup /\ maxup < newreservedrate) ->
            max_desired_speed (h' d) dir == newreservedrate)).
Proof.
  intros Hnd Hcap Hidle h1 b available claimedrate h' Htbr Hpos.
  assert (Hcap0 : ~ MaxRate rm dir == 0) by lra.
  assert (Hfree : free_wheeling rm dir = false).
  { apply not_true_iff_false. rewrite free_wheeling_iff. tauto. }
  pose proof (CalculateBandwidth_phase1_path getter rm dir h Hcap0 Hfree) as Hpath.
  pose proof (pool_cell_unchanged prioritizelocal rm dir h ToBeRaised) as Hcell.
  pose proof (dispatch_bucket prioritizelocal rm dir (workingset rm dir) h
                ToBeRaised Hnd) as Hbucket.
  subst h' claimedrate available h1 b.
  rewrite <- special_torrents_available in Hpos |- *.
  destruct (dispatch prioritizelocal rm dir (workingset rm dir) h) as [h1 b].
  cbn [fst snd] in *.
  destruct (special_torrents rm dir b h1) as [h4 available] eqn:Hspecial.
  cbn [fst snd] in *.
  rewrite (Hpath Htbr Hpos).
  assert (Hndr : NoDup (map fst (toberaised b))).
  { change (NoDup (map fst (bucket b ToBeRaised))).
    rewrite Hbucket. now apply dispatched_to_NoDup. }
  assert (Hsame : forall d, d ∈ map fst (toberaised b) -> h4 d = h d).
  { intros d Hd. exact (Hcell d Hnd (or_introl eq_refl) Hd). }
  assert (Hclaim : claim_sum rm dir h4 (toberaised b)
                   = claim_sum rm dir h (toberaised b))
    by now apply claim_sum_ext.
  split.
  - rewrite (raise_sum_ext_desired dir h h4
               (state_of (make_it_so getter dir
                            (toberegulated (workingset rm dir) b)
                            (phase1 rm dir (toberaised b) available h4)))
               (phase1 rm dir (toberaised b) available h4) (toberaised b)).
    + rewrite <- Hclaim. now apply phase1_raise_exact.
    + intros d Hd. now rewrite Hsame.
    + intros d Hd. now rewrite make_it_so_desired.
  - intros Hfit d ds Hin.
    set (newreservedrate := get_current_speed ds dir + meancalcupth rm).
    set (maxup := max_desired_speed (h d) dir).
    rewrite make_it_so_desired.
    rewrite (phase1_desired rm dir (toberaised b) available h4 d ds) by done.
    assert (Hd : h4 d = h d) by (apply Hsame; now apply elem_of_idents in Hin).
    assert (Hfactor : realupfactor
                        (fold_left (claim_step rm dir h4) (toberaised b) 0)
                        available = 1).
    { unfold realupfactor.
      assert (Hle : fold_left (claim_step rm dir h4) (toberaised b) 0
                    <= available).
      { rewrite claim_step_sum, Hclaim. lra. }
      apply Qle_bool_iff in Hle. now rewrite Hle. }
    rewrite Hfactor, Hd. unfold claim_of. fold maxup newreservedrate.
    split.
    + intros H0 H1. apply Qltb_lt in H0, H1. rewrite H0, H1. cbn [andb]. lra.
    + intros Hnot.
      destruct (Qltb 0 maxup) eqn:H0; destruct (Qltb maxup newreservedrate) eqn:H1;
        cbn [andb]; try lra.
      apply Qltb_lt in H0, H1. now destruct Hnot.
Qed.

Lemma phase1_grants_claims_or_shares_available_witness :
  NoDup (map fst (workingset spare_manager DOWNLOAD))
  /\ 0 < MaxRate spare_manager DOWNLOAD
  /\ ~ 20 # 100
       < 1 - currenttotal spare_manager DOWNLOAD / MaxRate spare_manager DOWNLOAD
  /\ toberaised
       (snd (dispatch prioritizelocal spare_manager DOWNLOAD
               (workingset spare_manager DOWNLOAD) spare_heap)) <> []
  /\ raise_sum DOWNLOAD spare_heap
       (state_of (CalculateBandwidth upload_or_else_getter spare_manager DOWNLOAD
                    spare_heap))
       (toberaised
          (snd (dispatch prioritizelocal spare_manager DOWNLOAD
                  (workingset spare_manager DOWNLOAD) spare_heap)))
     == 2.
Proof.
  assert (Hnd : NoDup (map fst (workingset spare_manager DOWNLOAD))).
  { apply (bool_decide_unpack _). vm_compute. reflexivity. }
  assert (Hcap : 0 < MaxRate spare_manager DOWNLOAD) by (vm_compute; reflexivity).
  assert (Hidle : ~ 20 # 100
       < 1 - currenttotal spare_manager DOWNLOAD / MaxRate spare_manager DOWNLOAD).
  { vm_compute. discriminate. }
  pose proof (phase1_grants_claims_or_shares_available upload_or_else_getter
                spare_manager DOWNLOAD spare_heap Hnd Hcap Hidle) as Hexact.
  cbv zeta in Hexact.
  assert (Htbr : toberaised
       (snd (dispatch prioritizelocal spare_manager DOWNLOAD
               (workingset spare_manager DOWNLOAD) spare_heap)) <> [])
    by (vm_compute; discriminate).
  specialize (Hexact Htbr).
  match type of Hexact with
  | 0 < ?available -> _ =>
      assert (Hpos : 0 < available) by (vm_compute; reflexivity)
  end.
  destruct (Hexact Hpos) as [Hsum _].
  split; [exact Hnd|]. split; [exact Hcap|]. split; [exact Hidle|].
  split; [exact Htbr|].
  rewrite Hsum. vm_compute. reflexivity.
Defined.

(** ** Phase 2a, in total *)

Lemma inject_nat_succ (n : nat) :
  inject_Z (Z.of_nat (S n)) == inject_Z (Z.of_nat n) + 1.
Proof.
  change 1 with (inject_Z 1). rewrite <- inject_Z_plus.
  apply inject_Z_injective. lia.
Qed.

Lemma inject_nat_nonzero (n : nat) :
  n <> 0%nat -> ~ inject_Z (Z.of_nat n) == 0.
Proof.
  intros Hn H. change 0 with (inject_Z 0) in H.
  rewrite inject_Z_injective in H. lia.
Qed.

Lemma raise_sum_same dir h l : raise_sum dir h h l == 0.
Proof.
  unfold raise_sum. induction l as [|t l IH]; cbn [fold_right]; [reflexivity|].
  rewrite IH. lra.
Qed.

(** The walk takes from the torrents it sees at most their shares: the
    desired rates change in total by no less than [length l] times the
    (negative) share. *)
Lemma lower_pool_total rm dir n l i q h :
  NoDup (map fst l) -> n = (i + length l)%nat ->
  inject_Z (Z.of_nat (length l)) * q
  <= raise_sum dir h (lower_pool rm dir n l i q h) l.
Proof.
  revert i q h. induction l as [|[d ds] l IH]; intros i q h Hnd Hn.
  - cbn [length lower_pool raise_sum fold_right].
    change (inject_Z (Z.of_nat 0)) with 0. lra.
  - cbn [map fst] in Hnd. apply NoDup_cons in Hnd as [Hd Hnd].
    cbn [length] in *. rewrite inject_nat_succ.
    cbn [lower_pool].
    set (new := get_max_desired_speed h d dir + q).
    assert (Hrest : forall q' v,
      raise_sum dir h
        (lower_pool rm dir n l (S i) q' (set_max_desired_speed h d dir v))
        ((d, ds) :: l)
      == v - max_desired_speed (h d) dir
         + raise_sum dir (set_max_desired_speed h d dir v)
             (lower_pool rm dir n l (S i) q' (set_max_desired_speed h d dir v))
             l).
    { intros q' v. cbn [raise_sum fold_right fst].
      rewrite lower_pool_other by done.
      rewrite set_max_desired_speed_same. cbn [max_desired_speed].
      rewrite fn_lookup_insert.
      fold (raise_sum dir h
              (lower_pool rm dir n l (S i) q' (set_max_desired_speed h d dir v))
              l).
      rewrite (raise_sum_ext_desired dir h (set_max_desired_speed h d dir v)
                 (lower_pool rm dir n l (S i) q' (set_max_desired_speed h d dir v))
                 (lower_pool rm dir n l (S i) q' (set_max_desired_speed h d dir v))
                 l); [reflexivity| |reflexivity].
      intros d' Hd'. rewrite set_max_desired_speed_other; [reflexivity|].
      intros ->. done. }
    destruct (Qltb new (rateminimum rm dir)) eqn:Hlow.
    + apply Qltb_lt in Hlow. rewrite Hrest.
      destruct (S i =? n)%nat eqn:Hlast; cbn [negb].
      * apply Nat.eqb_eq in Hlast.
        assert (Hl : l = []) by (destruct l; [reflexivity|cbn in Hn; lia]).
        subst l. cbn [length lower_pool raise_sum fold_right].
        change (inject_Z (Z.of_nat 0)) with 0.
        unfold new, get_max_desired_speed in Hlow. lra.
      * apply Nat.eqb_neq in Hlast.
        assert (Hlen : (n - S i)%nat = length l) by lia.
        assert (Hnz : ~ inject_Z (Z.of_nat (length l)) == 0).
        { apply inject_nat_nonzero. lia. }
        rewrite Hlen.
        specialize (IH (S i)
                      (q + (new - rateminimum rm dir)
                           / inject_Z (Z.of_nat (length l)))
                      (set_max_desired_speed h d dir (rateminimum rm dir))
                      Hnd ltac:(lia)).
        eapply Qle_trans; [|apply Qplus_le_r; exact IH].
        unfold new, get_max_desired_speed.
        apply Qle_lteq. right. field. exact Hnz.
    + apply Qltb_ge in Hlow. rewrite Hrest.
      specialize (IH (S i) q (set_max_desired_speed h d dir new) Hnd ltac:(lia)).
      eapply Qle_trans; [|apply Qplus_le_r; exact IH].
      unfold new, get_max_desired_speed. lra.
Qed.

Lemma rate_id_NoDup rm dir b h :
  NoDup (map fst (toberaised b ++ nottobechanged b)) ->
  NoDup (map fst (rate_id rm dir b h)).
Proof.
  intros Hnd. unfold rate_id. change (map fst ?l) with (fst <$> l).
  rewrite sort_by_key_perm. now apply NoDup_idents_filter.
Qed.

(** X12. Phase 2a never takes back more than it has to: when the rate left
    to distribute is negative and the pool holds distinct Downloads, the
    desired rates of the torrents walked change in total by no less than
    that (negative) rate.  What the torrents held at the minimum could not
    give is taken from the ones after them and, past the last one, given
    up. *)
Theorem phase2a_takes_back_at_most_the_deficit (rm : RateManager)
    (dir : direction) (b : buckets) (availableratetobedistributed : Q)
    (h : heap) :
  NoDup (map fst (toberaised b ++ nottobechanged b)) ->
  availableratetobedistributed < 0 ->
  availableratetobedistributed
  <= raise_sum dir h (phase2a rm dir b availableratetobedistributed h)
       (rate_id rm dir b h).
Proof.
  intros Hnd Hneg.
  pose proof (rate_id_NoDup rm dir b h Hnd) as Hwalk.
  unfold phase2a. apply Qltb_lt in Hneg. rewrite Hneg. cbv zeta.
  destruct (rate_id rm dir b h) as [|t l] eqn:Hid.
  - cbn. apply Qltb_lt in Hneg. lra.
  - rewrite <- Hid in *.
    assert (Hnz : ~ inject_Z (Z.of_nat (length (rate_id rm dir b h))) == 0).
    { apply inject_nat_nonzero. rewrite Hid. cbn. lia. }
    eapply Qle_trans;
      [|apply (lower_pool_total rm dir (length (rate_id rm dir b h))
                 (rate_id rm dir b h) 0); [exact Hwalk|reflexivity]].
    assert (E : inject_Z (Z.of_nat (length (rate_id rm dir b h)))
                * (availableratetobedistributed
                   / inject_Z (Z.of_nat (length (rate_id rm dir b h))))
                == availableratetobedistributed) by (field; exact Hnz).
    rewrite E. apply Qle_refl.
Qed.

Lemma phase2a_takes_back_at_most_the_deficit_witness :
  NoDup (map fst (toberaised pool_buckets ++ nottobechanged pool_buckets))
  /\ -9 < 0
  /\ -9 <= raise_sum UPLOAD pool_heap
             (phase2a pool_manager UPLOAD pool_buckets (-9) pool_heap)
             (rate_id pool_manager UPLOAD pool_buckets pool_heap).
Proof.
  assert (Hnd : NoDup (map fst (toberaised pool_buckets
                                ++ nottobechanged pool_buckets))).
  { apply (bool_decide_unpack _). reflexivity. }
  assert (Hneg : -9 < 0) by reflexivity.
  split; [exact Hnd|]. split; [exact Hneg|].
  exact (phase2a_takes_back_at_most_the_deficit pool_manager UPLOAD pool_buckets
           (-9) pool_heap Hnd Hneg).
Defined.

(** ** Phase 2c, in total *)

Lemma raise_sum_const dir h h' l c :
  (forall d ds, (d, ds) ∈ l ->
     max_desired_speed (h' d) dir - max_desired_speed (h d) dir == c) ->
  raise_sum dir h h' l == inject_Z (Z.of_nat (length l)) * c.
Proof.
  induction l as [|[d ds] l IH]; intros H.
  - cbn [length raise_sum fold_right]. change (inject_Z (Z.of_nat 0)) with 0. lra.
  - cbn [length raise_sum fold_right fst]. fold (raise_sum dir h h' l).
    rewrite inject_nat_succ.
    assert (IH' := IH (fun d0 ds0 Hin => H d0 ds0 (list_elem_of_further _ _ _ Hin))).
    assert (Hd := H d ds (list_elem_of_here _ _)).
    lra.
Qed.

Lemma phase2c_cells rm dir meanrate below above h :
  NoDup (map fst (below ++ above)) -> below <> [] -> above <> [] ->
  let up := fold_left (up_step dir meanrate h) below 0 in
  let down := fold_left (down_step dir meanrate h) above 0 in
  let realup := realup_each rm dir meanrate below above h in
  let h' := phase2c rm dir meanrate below above h in
  (forall d ds, (d, ds) ∈ below ->
     h' d = speed_up_cell rm dir meanrate up down ds (h d))
  /\ (forall d ds, (d, ds) ∈ above -> h' d = slow_down_cell dir realup ds (h d))
  /\ realup * inject_Z (Z.of_nat (length above)) == raise_sum dir h h' below.
Proof.
  intros Hnd Hb Ha up down realup h'.
  apply NoDup_idents_app in Hnd as (Hndb & Hnda & Hba & Hab).
  subst h' realup. unfold phase2c, realup_each.
  destruct below as [|tb below']; [done|].
  destruct above as [|ta above']; [done|].
  set (below := tb :: below') in *. set (above := ta :: above') in *.
  fold up down.
  pose proof (speed_up_realup rm dir meanrate up down below h 0 Hndb) as Hsum.
  pose proof (fold_left_fst (speed_up_step rm dir meanrate up down)
                (fun h t => fst (speed_up_step rm dir meanrate up down (h, 0) t))
                (fun a q t => speed_up_step_heap rm dir meanrate up down a q t)
                below h 0) as Hheap.
  destruct (fold_left (speed_up_step rm dir meanrate up down) below (h, 0))
    as [h1 total] eqn:Hloop.
  cbn [fst snd] in *.
  set (realup := total / inject_Z (Z.of_nat (length above))).
  assert (Hbelow : forall d ds, (d, ds) ∈ below ->
     fold_left (slow_down_step dir realup) above h1 d
     = speed_up_cell rm dir meanrate up down ds (h d)).
  { intros d ds Hin.
    rewrite (fold_cellwise_other _ _ _ _ d (slow_down_step_cellwise dir realup))
      by (apply Hba; now apply elem_of_idents in Hin).
    rewrite Hheap.
    now apply (fold_cellwise_in _ _ _ _ d ds
                 (speed_up_step_cellwise rm dir meanrate up down)). }
  split; [exact Hbelow|]. split.
  - intros d ds Hin.
    rewrite (fold_cellwise_in _ _ _ _ d ds (slow_down_step_cellwise dir realup))
      by done.
    f_equal. rewrite Hheap.
    apply (fold_cellwise_other _ _ _ _ d
             (speed_up_step_cellwise rm dir meanrate up down)).
    apply Hab. now apply elem_of_idents in Hin.
  - match goal with
    | |- _ == ?R => replace R with (raise_sum dir h h1 below)
    end.
    + subst realup. unfold torrent in *.
      assert (Hnz : ~ inject_Z (Z.of_nat (length above)) == 0).
      { apply inject_nat_nonzero. subst above. cbn. lia. }
      set (n := inject_Z (Z.of_nat (length above))) in *. clearbody n.
      set (s := raise_sum dir h h1 below) in *. clearbody s.
      rewrite Hsum. field. exact Hnz.
    + symmetry. apply raise_sum_ext; [reflexivity|].
      intros d Hd.
      apply (fold_cellwise_other _ _ _ _ d (slow_down_step_cellwise dir _)).
      now apply Hba.
Qed.

Lemma phase2c_zero_sum rm dir meanrate below above h :
  NoDup (map fst (below ++ above)) ->
  raise_sum dir h (phase2c rm dir meanrate below above h) below
  + raise_sum dir h (phase2c rm dir meanrate below above h) above == 0.
Proof.
  intros Hnd.
  destruct below as [|tb below'].
  { cbn [phase2c]. rewrite !raise_sum_same. lra. }
  destruct above as [|ta above'].
  { cbn [phase2c]. rewrite !raise_sum_same. lra. }
  destruct (phase2c_cells rm dir meanrate (tb :: below') (ta :: above') h Hnd
              ltac:(discriminate) ltac:(discriminate)) as (_ & Habove & Hsum).
  cbv zeta in Habove, Hsum.
  remember (phase2c rm dir meanrate (tb :: below') (ta :: above') h) as h' eqn:Eh.
  remember (realup_each rm dir meanrate (tb :: below') (ta :: above') h)
    as r eqn:Er.
  assert (Hcut : raise_sum dir h h' (ta :: above')
                 == inject_Z (Z.of_nat (length (ta :: above'))) * - r).
  { apply raise_sum_const. intros d ds Hin. rewrite (Habove d ds Hin).
    unfold slow_down_cell. cbn [max_desired_speed]. rewrite fn_lookup_insert. lra. }
  rewrite Hcut, <- Hsum. ring.
Qed.

(** X13. Phase 2c only moves bandwidth between torrents: for the two lists
    built by phase 2b from a pool of distinct Downloads, what the desired
    rates of the torrents below the mean gain in total is what those of the
    torrents above the mean lose in total. *)
Theorem phase2c_exchanges_bandwidth (rm : RateManager) (dir : direction)
    (b : buckets) (meanrate : Q) (h : heap) :
  NoDup (map fst (toberaised b ++ nottobechanged b)) ->
  let below := raisedbelowm dir b meanrate h in
  let above := allabovem dir b meanrate h in
  let h' := phase2c rm dir meanrate below above h in
  raise_sum dir h h' below + raise_sum dir h h' above == 0.
Proof.
  intros Hnd below above h'. apply phase2c_zero_sum.
  now apply phase2b_lists_NoDup.
Qed.

Lemma phase2c_exchanges_bandwidth_witness :
  NoDup (map fst (toberaised (mkBuckets [] [] (exchange_below ++ exchange_above)
                                [] [] 50)
                  ++ nottobechanged (mkBuckets [] []
                                       (exchange_below ++ exchange_above)
                                       [] [] 50)))
  /\ raise_sum DOWNLOAD exchange_heap
       (phase2c exchange_manager DOWNLOAD 10 exchange_below exchange_above
          exchange_heap) exchange_below == 30
  /\ raise_sum DOWNLOAD exchange_heap
       (phase2c exchange_manager DOWNLOAD 10 exchange_below exchange_above
          exchange_heap) exchange_above == -30.
Proof.
  set (b := mkBuckets [] [] (exchange_below ++ exchange_above) [] [] 50).
  assert (Hnd : NoDup (map fst (toberaised b ++ nottobechanged b))).
  { apply (bool_decide_unpack _). reflexivity. }
  pose proof (phase2c_exchanges_bandwidth exchange_manager DOWNLOAD b 10
                exchange_heap Hnd) as Hzero.
  cbv zeta in Hzero.
  change (raisedbelowm DOWNLOAD b 10 exchange_heap) with exchange_below in Hzero.
  change (allabovem DOWNLOAD b 10 exchange_heap) with exchange_above in Hzero.
  split; [exact Hnd|].
  assert (Hup : raise_sum DOWNLOAD exchange_heap
       (phase2c exchange_manager DOWNLOAD 10 exchange_below exchange_above
          exchange_heap) exchange_below == 30) by (vm_compute; reflexivity).
  split; [exact Hup|]. lra.
Defined.

Lemma down_step_nonneg dir meanrate h l a :
  (forall t, t ∈ l -> meanrate < get_max_desired_speed h (fst t) dir) ->
  a <= fold_left (down_step dir meanrate h) l a.
Proof.
  revert a. induction l as [|t l IH]; intros a H; cbn [fold_left].
  - apply Qle_refl.
  - eapply Qle_trans; [|apply IH; intros; apply H; now apply list_elem_of_further].
    unfold down_step. specialize (H t (list_elem_of_here _ _)). lra.
Qed.

Lemma phase2c_raise_bound rm dir meanrate below above h d ds :
  NoDup (map fst (below ++ above)) ->
  (forall t, t ∈ above -> meanrate < get_max_desired_speed h (fst t) dir) ->
  (d, ds) ∈ below ->
  max_desired_speed (h d) dir < meanrate ->
  max_desired_speed (phase2c rm dir meanrate below above h d) dir <= meanrate
  /\ (0 < max_desired_speed (h d) dir ->
      max_desired_speed (phase2c rm dir meanrate below above h d) dir
      <= max_desired_speed (h d) dir).
Proof.
  intros Hnd Habove Hin Hlt.
  destruct below as [|tb below']; [now apply elem_of_nil in Hin|].
  destruct above as [|ta above'].
  { cbn [phase2c]. split; intros; lra. }
  destruct (phase2c_cells rm dir meanrate (tb :: below') (ta :: above') h Hnd
              ltac:(discriminate) ltac:(discriminate)) as (Hbelow & _ & _).
  cbv zeta in Hbelow. rewrite (Hbelow d ds Hin).
  pose proof (down_step_nonneg dir meanrate h (ta :: above') 0 Habove) as Hdown.
  remember (fold_left (up_step dir meanrate h) (tb :: below') 0) as up eqn:Eup.
  remember (fold_left (down_step dir meanrate h) (ta :: above') 0) as down
    eqn:Edown.
  unfold speed_up_cell. cbn [max_desired_speed]. rewrite fn_lookup_insert.
  remember (max_desired_speed (h d) dir) as maxup eqn:Emaxup.
  remember (2 * (get_current_speed ds dir + calcupth2 rm - maxup)) as step
    eqn:Estep.
  remember (if Qltb 0 maxup && Qle_bool maxup meanrate
            then maxup - maxup else meanrate - maxup) as toadd0 eqn:Etoadd0.
  remember (if Qltb down up then toadd0 * (down / up) else toadd0) as toadd
    eqn:Etoadd.
  assert (H0 : 0 <= toadd0 /\ toadd0 <= meanrate - maxup
               /\ (0 < maxup -> toadd0 == 0)).
  { subst toadd0.
    destruct (Qltb 0 maxup) eqn:Hpos; destruct (Qle_bool maxup meanrate) eqn:Hle;
      cbn [andb].
    - repeat split; intros; lra.
    - apply Qle_bool_gt in Hle. lra.
    - apply Qltb_ge in Hpos. repeat split; intros; lra.
    - apply Qle_bool_gt in Hle. lra. }
  destruct H0 as (Hge & Hle & Hzero).
  assert (H1 : toadd <= toadd0 /\ (0 < maxup -> toadd == 0)).
  { subst toadd. destruct (Qltb down up) eqn:Hlim.
    - apply Qltb_lt in Hlim.
      assert (Hr : 0 <= down / up /\ down / up <= 1).
      { split; [apply Qle_shift_div_l|apply Qle_shift_div_r]; lra. }
      split; [nra|]. intros Hpos. rewrite (Hzero Hpos). lra.
    - split; [apply Qle_refl|exact Hzero]. }
  destruct H1 as (Hscaled & Hzero').
  destruct (Qltb toadd step) eqn:Hstep.
  - split; [lra|]. intros Hpos. rewrite (Hzero' Hpos). lra.
  - apply Qltb_ge in Hstep. split; [lra|].
    intros Hpos. pose proof (Hzero' Hpos). lra.
Qed.

(** X14. Phase 2c never raises a torrent above the mean, and raises no
    torrent that has a positive desired rate: for the lists built by phase
    2b from a pool of distinct Downloads, a torrent below the mean ends with
    a desired rate that is at most the mean, and at most the one it had if
    that was positive. *)
Theorem phase2c_raises_up_to_the_mean (rm : RateManager) (dir : direction)
    (b : buckets) (meanrate : Q) (h : heap) (d : ident) (ds : DownloadState) :
  NoDup (map fst (toberaised b ++ nottobechanged b)) ->
  let below := raisedbelowm dir b meanrate h in
  let above := allabovem dir b meanrate h in
  let h' := phase2c rm dir meanrate below above h in
  (d, ds) ∈ below ->
  max_desired_speed (h' d) dir <= meanrate
  /\ (0 < max_desired_speed (h d) dir ->
      max_desired_speed (h' d) dir <= max_desired_speed (h d) dir).
Proof.
  intros Hnd below above h' Hin. apply (phase2c_raise_bound _ _ _ _ _ _ _ ds).
  - now apply phase2b_lists_NoDup.
  - intros t Ht. unfold above, allabovem in Ht.
    rewrite <- List.filter_app in Ht.
    apply elem_of_filter_bool in Ht as [_ Hp]. now apply Qltb_lt in Hp.
  - exact Hin.
  - unfold below, raisedbelowm in Hin.
    apply elem_of_filter_bool in Hin as [_ Hp]. cbn [fst] in Hp.
    apply andb_true_iff in Hp as [_ Hp]. now apply Qltb_lt in Hp.
Qed.

Lemma phase2c_raises_up_to_the_mean_witness :
  NoDup (map fst (toberaised (mkBuckets [] [] (exchange_below ++ exchange_above)
                                [] [] 50)
                  ++ nottobechanged (mkBuckets [] []
                                       (exchange_below ++ exchange_above)
                                       [] [] 50)))
  /\ (1%nat, exchange_state) ∈ exchange_below
  /\ max_desired_speed
       (phase2c exchange_manager DOWNLOAD 10 exchange_below exchange_above
          exchange_heap 1%nat) DOWNLOAD <= 10.
Proof.
  set (b := mkBuckets [] [] (exchange_below ++ exchange_above) [] [] 50).
  assert (Hnd : NoDup (map fst (toberaised b ++ nottobechanged b))).
  { apply (bool_decide_unpack _). reflexivity. }
  assert (Hin : (1%nat, exchange_state) ∈ exchange_below)
    by apply list_elem_of_here.
  split; [exact Hnd|]. split; [exact Hin|].
  exact (proj1 (phase2c_raises_up_to_the_mean exchange_manager DOWNLOAD b 10
                  exchange_heap 1%nat exchange_state Hnd Hin)).
Defined.

(** ** Buckets and statuses *)

Lemma elem_of_entries rm t : t ∈ entries rm <-> exists s, t ∈ statusmap rm s.
Proof.
  unfold entries. rewrite list_elem_of_In, in_flat_map. split.
  - intros (s & _ & Hin). exists s. now apply list_elem_of_In.
  - intros (s & Hin). exists s. split.
    + apply list_elem_of_In, all_status_complete.
    + now apply list_elem_of_In.
Qed.

Lemma bucket_status_inv_clear rm : bucket_status_inv (clear_downloadstates rm).
Proof. intros s d ds Hin. now apply elem_of_nil in Hin. Qed.

Lemma bucket_status_inv_add rm d ds :
  bucket_status_inv rm -> bucket_status_inv (fst (add_downloadstate rm d ds)).
Proof.
  intros Hinv s d' ds'. unfold add_downloadstate. cbn [fst].
  destruct (decide (d ∉ dset (lock_acquire rm))) as [Hnew|Hold];
    cbn [statusmap lock_release lock_acquire set_lock set_registry];
    [|exact (Hinv s d' ds')].
  destruct (decide (get_status ds = s)) as [<-|Hne].
  - rewrite fn_lookup_insert. intros [Hin|Hin]%elem_of_app.
    + exact (Hinv _ _ _ Hin).
    + apply list_elem_of_singleton in Hin. now injection Hin as -> ->.
  - rewrite fn_lookup_insert_ne by done. exact (Hinv s d' ds').
Qed.

Lemma bucket_status_inv_registered rm l :
  bucket_status_inv rm -> bucket_status_inv (registered rm l).
Proof.
  unfold registered. revert rm.
  induction l as [|t l IH]; intros rm Hinv; cbn [fold_left]; [done|].
  apply IH. now apply bucket_status_inv_add.
Qed.

Lemma registered_with_bucket rm s :
  bucket_status_inv rm -> (registered_with rm s <-> statusmap rm s <> []).
Proof.
  intros Hinv. split.
  - intros (d & ds & Hin & Hs). apply elem_of_entries in Hin as [s' Hin].
    rewrite (Hinv s' d ds Hin) in Hs. subst s'. intros E. rewrite E in Hin.
    now apply elem_of_nil in Hin.
  - intros Hne. destruct (statusmap rm s) as [|[d ds] l] eqn:E; [done|].
    exists d, ds. split.
    + apply elem_of_entries. exists s. rewrite E. apply list_elem_of_here.
    + apply (Hinv s d ds). rewrite E. apply list_elem_of_here.
Qed.

(** X15. Every entry of the registry sits in the bucket of the status its
    snapshot had when it was added: this holds after construction and
    [clear_downloadstates] and is kept by [add_downloadstate].  It makes the
    working sets what they are meant to be: the registered torrents with
    active connections that are downloading, plus, for uploads, those that
    are seeding. *)
Theorem buckets_hold_their_status (rm : RateManager) :
  bucket_status_inv rm ->
  (forall d ds, bucket_status_inv (fst (add_downloadstate rm d ds)))
  /\ bucket_status_inv (clear_downloadstates rm)
  /\ (forall a b c, bucket_status_inv (init a b c))
  /\ (forall d ds,
        (d, ds) ∈ workingset rm DOWNLOAD
        <-> (d, ds) ∈ entries rm /\ has_active_connections ds = true
            /\ get_status ds = DLSTATUS_DOWNLOADING)
  /\ (forall d ds,
        (d, ds) ∈ workingset rm UPLOAD
        <-> (d, ds) ∈ entries rm /\ has_active_connections ds = true
            /\ (get_status ds = DLSTATUS_DOWNLOADING
                \/ get_status ds = DLSTATUS_SEEDING)).
Proof.
  intros Hinv.
  assert (Hbucket : forall s d ds,
            (d, ds) ∈ statusmap rm s <-> (d, ds) ∈ entries rm /\ get_status ds = s).
  { intros s d ds. split.
    - intros Hin. split; [|now apply (Hinv s d ds)].
      apply elem_of_entries. now exists s.
    - intros [[s' Hin]%elem_of_entries Hs].
      now rewrite <- Hs, (Hinv s' d ds Hin). }
  split; [|split; [|split; [|split]]].
  - intros d ds. now apply bucket_status_inv_add.
  - apply bucket_status_inv_clear.
  - intros a b c. apply bucket_status_inv_clear.
  - intros d ds. unfold workingset. rewrite elem_of_filter_bool, Hbucket.
    cbn [snd]. tauto.
  - intros d ds. unfold workingset.
    rewrite elem_of_filter_bool, elem_of_app, !Hbucket. cbn [snd]. tauto.
Qed.

Lemma buckets_hold_their_status_witness :
  bucket_status_inv idle_manager
  /\ ((2%nat, mkDownloadState DLSTATUS_SEEDING (rates 0 10) true)
      ∈ workingset idle_manager UPLOAD
      <-> (2%nat, mkDownloadState DLSTATUS_SEEDING (rates 0 10) true)
          ∈ entries idle_manager
          /\ true = true
          /\ (DLSTATUS_SEEDING = DLSTATUS_DOWNLOADING
              \/ DLSTATUS_SEEDING = DLSTATUS_SEEDING)).
Proof.
  assert (Hinv : bucket_status_inv idle_manager).
  { apply bucket_status_inv_registered, bucket_status_inv_clear. }
  split; [exact Hinv|].
  exact (proj2 (proj2 (proj2 (proj2 (buckets_hold_their_status idle_manager Hinv))))
           2%nat (mkDownloadState DLSTATUS_SEEDING (rates 0 10) true)).
Defined.

(** X16. The overall maximum rate, in terms of the registered torrents
    (entries in the bucket of their status): for uploads it is
    [max_seed_upload_rate] when some torrent is seeding and none is
    downloading, and [max_upload_rate] in every other case, in particular
    when nothing is registered; for downloads it is [max_download_rate]. *)
Theorem MaxRate_by_registered_status (rm : RateManager) :
  bucket_status_inv rm ->
  (registered_with rm DLSTATUS_SEEDING ->
   ~ registered_with rm DLSTATUS_DOWNLOADING ->
   MaxRate rm UPLOAD = max_seed_upload_rate rm)
  /\ (registered_with rm DLSTATUS_DOWNLOADING
      \/ ~ registered_with rm DLSTATUS_SEEDING ->
      MaxRate rm UPLOAD = max_upload_rate rm)
  /\ MaxRate rm DOWNLOAD = max_download_rate rm.
Proof.
  intros Hinv.
  pose proof (registered_with_bucket rm DLSTATUS_SEEDING Hinv) as Hseed.
  pose proof (registered_with_bucket rm DLSTATUS_DOWNLOADING Hinv) as Hdown.
  unfold MaxRate. split; [|split; [|reflexivity]].
  - intros Hs Hd. apply Hseed in Hs.
    destruct (statusmap rm DLSTATUS_DOWNLOADING) as [|t l] eqn:Ed.
    + destruct (statusmap rm DLSTATUS_SEEDING); [done|reflexivity].
    + destruct Hd. apply Hdown. discriminate.
  - intros [Hd|Hs].
    + apply Hdown in Hd.
      now destruct (statusmap rm DLSTATUS_DOWNLOADING).
    + destruct (statusmap rm DLSTATUS_SEEDING) as [|t l] eqn:Es.
      * now destruct (statusmap rm DLSTATUS_DOWNLOADING).
      * destruct Hs. apply Hseed. discriminate.
Qed.

Lemma MaxRate_by_registered_status_witness :
  bucket_status_inv
    (registered (init 100 50 100)
       [(2%nat, mkDownloadState DLSTATUS_SEEDING (rates 4 0) true)])
  /\ MaxRate
       (registered (init 100 50 100)
          [(2%nat, mkDownloadState DLSTATUS_SEEDING (rates 4 0) true)]) UPLOAD
     = 50.
Proof.
  set (rm := registered (init 100 50 100)
               [(2%nat, mkDownloadState DLSTATUS_SEEDING (rates 4 0) true)]).
  assert (Hinv : bucket_status_inv rm).
  { apply bucket_status_inv_registered, bucket_status_inv_clear. }
  split; [exact Hinv|].
  apply (proj1 (MaxRate_by_registered_status rm Hinv)).
  - exists 2%nat, (mkDownloadState DLSTATUS_SEEDING (rates 4 0) true).
    split; [|reflexivity]. vm_compute. apply list_elem_of_here.
  - intros Hd. apply (registered_with_bucket rm _ Hinv) in Hd. now apply Hd.
Defined.

(** X17. [any_torrents_checking] answers whether some registered torrent is
    allocating disk space, waiting for its hash check or hash checking. *)
Theorem any_torrents_checking_by_registered_status (rm : RateManager) :
  bucket_status_inv rm ->
  (any_torrents_checking rm = true
   <-> registered_with rm DLSTATUS_ALLOCATING_DISKSPACE
       \/ registered_with rm DLSTATUS_WAITING4HASHCHECK
       \/ registered_with rm DLSTATUS_HASHCHECKING).
Proof.
  intros Hinv.
  rewrite !(registered_with_bucket rm _ Hinv).
  unfold any_torrents_checking. rewrite !orb_true_iff, !Nat.ltb_lt.
  assert (Hlen : forall l : list torrent, (0 < length l)%nat <-> l <> []).
  { intros [|t l]; cbn; split; [lia|done|discriminate|lia]. }
  rewrite !Hlen. tauto.
Qed.

Lemma any_torrents_checking_by_registered_status_witness :
  bucket_status_inv busy_manager /\ any_torrents_checking busy_manager = false.
Proof.
  assert (Hinv : bucket_status_inv busy_manager).
  { apply bucket_status_inv_registered, bucket_status_inv_clear. }
  split; [exact Hinv|].
  apply not_true_iff_false.
  rewrite (any_torrents_checking_by_registered_status busy_manager Hinv).
  rewrite !(registered_with_bucket busy_manager _ Hinv).
  intros [H|[H|H]]; now apply H.
Defined.

(** * The local-priority switch *)

(** With [prioritizelocal] set, a torrent with a desired rate other than 0
    goes to [localprioactive] and to no other list, and the loops over the
    special torrents give it its local setting. *)
Lemma local_priority_served rm dir h d ds :
  NoDup (map fst (workingset rm dir)) ->
  (d, ds) ∈ workingset rm dir ->
  ~ max_desired_speed (h d) dir == 0 ->
  let st := dispatch true rm dir (workingset rm dir) h in
  let h2 := fst (special_torrents rm dir (snd st) (fst st)) in
  (d, ds) ∈ localprioactive (snd st)
  /\ (forall o, o <> LocalPriority -> d ∉ map fst (bucket (snd st) o))
  /\ max_desired_speed (h2 d) dir
     == Qmin (get_current_speed ds dir + meancalcupth rm)
          (max_desired_speed (h d) dir)
  /\ max_speed (h2 d) dir = max_desired_speed (h d) dir.
Proof.
  intros Hnd Hin Hdes st h2. subst h2 st.
  pose proof (dispatch_heap true rm dir (workingset rm dir) h) as Hh1.
  pose proof (fun o => dispatch_bucket true rm dir (workingset rm dir) h o Hnd)
    as Hb.
  destruct (dispatch true rm dir (workingset rm dir) h) as [h1 b].
  cbn [fst snd] in *.
  assert (Htag : dispatch_of true rm dir (h d) ds = LocalPriority).
  { unfold dispatch_of. apply Qeq_bool_false in Hdes. now rewrite Hdes. }
  assert (Hloc : (d, ds) ∈ localprioactive b).
  { change ((d, ds) ∈ bucket b LocalPriority).
    rewrite (Hb LocalPriority). now apply elem_of_dispatched_to. }
  assert (Hout : forall o, o <> LocalPriority -> d ∉ map fst (bucket b o)).
  { intros o Ho. rewrite (Hb o).
    apply (dispatched_to_disjoint true rm dir h LocalPriority o); try done.
    rewrite <- (Hb LocalPriority). now apply elem_of_idents in Hloc. }
  assert (Hlnd : NoDup (map fst (localprioactive b))).
  { change (NoDup (map fst (bucket b LocalPriority))).
    rewrite (Hb LocalPriority). now apply dispatched_to_NoDup. }
  split; [exact Hloc|]. split; [exact Hout|].
  rewrite special_torrents_heap.
  rewrite (fold_cellwise_other _ _ _ _ d (lower_step_cellwise rm dir))
    by now apply (Hout ToBeLowered).
  rewrite (fold_cellwise_in _ _ _ _ d ds (local_priority_step_cellwise rm dir))
    by done.
  rewrite (fold_cellwise_other _ _ _ _ d (raise_in_priority_step_cellwise rm dir))
    by now apply (Hout ToBeRaisedInPriority).
  rewrite Hh1.
  rewrite (fold_cellwise_in _ _ _ _ d ds (dispatch_step_cellwise true rm dir))
    by done.
  unfold dispatch_cell, local_priority_cell.
  apply Qeq_bool_false in Hdes. rewrite Hdes.
  cbn [andb negb max_desired_speed max_speed].
  rewrite !fn_lookup_insert. split; [|reflexivity].
  destruct (Qltb (max_desired_speed (h d) dir)
              (get_current_speed ds dir + meancalcupth rm)) eqn:Hclamp.
  - apply Qltb_lt in Hclamp. rewrite Q.min_r; [reflexivity|lra].
  - apply Qltb_ge in Hclamp. now rewrite Q.min_l.
Qed.

(** With [prioritizelocal] set, under a limit and without free wheeling,
    neither phase nor [make_it_so] touches a torrent of [localprioactive]:
    it ends the computation as the loops over the special torrents left
    it, however [make_it_so] ends. *)
Lemma local_priority_final getter rm dir h d ds :
  NoDup (map fst (workingset rm dir)) ->
  ~ MaxRate rm dir == 0 ->
  free_wheeling rm dir = false ->
  (d, ds) ∈ workingset rm dir ->
  ~ max_desired_speed (h d) dir == 0 ->
  let st := dispatch true rm dir (workingset rm dir) h in
  (d ∉ map fst (toberegulated (workingset rm dir) (snd st)))
  /\ state_of (CalculateBandwidth_with getter true rm dir h) d
     = fst (special_torrents rm dir (snd st) (fst st)) d.
Proof.
  intros Hnd Hcap Hfree Hin Hdes st.
  destruct (local_priority_served rm dir h d ds Hnd Hin Hdes)
    as (Hloc & Hout & _).
  fold st in Hloc, Hout. subst st.
  apply Qeq_bool_false in Hcap.
  unfold CalculateBandwidth_with. cbv zeta.
  set (ws := workingset rm dir) in *.
  destruct (dispatch true rm dir ws h) as [h1 b] eqn:Hdisp.
  cbn [fst snd] in *.
  assert (Hreg : d ∉ map fst (toberegulated ws b)).
  { intros [ds' Hd]%elem_of_idents_inv. unfold toberegulated in Hd.
    apply elem_of_filter_bool in Hd as [_ Hd]. cbn [fst] in Hd.
    apply negb_true_iff, bool_decide_eq_false in Hd. apply Hd.
    now apply elem_of_idents in Hloc. }
  split; [exact Hreg|].
  destruct ws as [|t ws']; [now apply elem_of_nil in Hin|].
  cbv beta iota. rewrite Hcap, Hfree.
  destruct (special_torrents rm dir b h1) as [h4 avail]. cbn [fst].
  assert (Hraise : d ∉ map fst (toberaised b)) by now apply (Hout ToBeRaised).
  assert (Hpool : d ∉ map fst (toberaised b ++ nottobechanged b)).
  { rewrite map_app. intros [H|H]%elem_of_app; [now apply Hraise|].
    now apply (Hout NotToBeChanged). }
  assert (Hmake : forall x,
            state_of (make_it_so getter dir (toberegulated (t :: ws') b) x) d
            = x d).
  { intros x. now apply (only_changes_make_it_so getter dir _ x d). }
  destruct (toberaised b) as [|tr trs] eqn:Htr; [apply Hmake|].
  destruct (Qltb 0 avail); rewrite Hmake.
  - apply (only_changes_phase1 rm dir (tr :: trs) avail h4 d). exact Hraise.
  - apply (only_changes_phase2 rm dir b avail h4 d). rewrite Htr. exact Hpool.
Qed.

(** C9. [prioritizelocal] is not part of the configuration of the manager:
    [__init__] takes the three rate limits and nothing else, and
    [CalculateBandwidth] assigns the local [prioritizelocal = False] before
    every dispatch loop, under a comment that calls it an option set in the
    preferences.  So, whatever the manager and the rates, the dispatch loop
    leaves [localprioactive] empty and the loop over it does nothing.  With
    the local set to [True] the rest of [CalculateBandwidth] does what the
    comment describes: under a limit and without free wheeling, every torrent
    of the working set with a desired rate other than 0 is put in
    [localprioactive], is kept out of [toberegulated], and ends the
    computation with desired rate [min (currentrate + meancalcupth) localcap]
    and allowed rate [localcap], [localcap] being its desired rate at the
    call.  On one download at 90 of a limit of 100, allowed 100, with a local
    setting of 5, the code as written ends with desired and allowed rate
    91.5; with the local set it would end with 5 and 5. *)
Theorem prioritizelocal_cannot_be_enabled (getter : Download -> option Q) :
  (forall (rm : RateManager) (dir : direction) (h : heap),
      CalculateBandwidth getter rm dir h
      = CalculateBandwidth_with getter false rm dir h
      /\ localprioactive
           (snd (dispatch prioritizelocal rm dir (workingset rm dir) h)) = [])
  /\ (forall (rm : RateManager) (dir : direction) (h : heap) (d : ident)
             (ds : DownloadState),
        NoDup (map fst (workingset rm dir)) ->
        ~ MaxRate rm dir == 0 ->
        free_wheeling rm dir = false ->
        (d, ds) ∈ workingset rm dir ->
        ~ max_desired_speed (h d) dir == 0 ->
        let b := snd (dispatch true rm dir (workingset rm dir) h) in
        let h' := state_of (CalculateBandwidth_with getter true rm dir h) in
        let localcap := max_desired_speed (h d) dir in
        (d, ds) ∈ localprioactive b
        /\ (d ∉ map fst (toberegulated (workingset rm dir) b))
        /\ max_desired_speed (h' d) dir
           == Qmin (get_current_speed ds dir + meancalcupth rm) localcap
        /\ max_speed (h' d) dir = localcap)
  /\ (exists h1 h2,
        CalculateBandwidth upload_or_else_getter busy_manager DOWNLOAD capped_heap
        = Returns h1
        /\ CalculateBandwidth_with upload_or_else_getter true busy_manager
             DOWNLOAD capped_heap
           = Returns h2
        /\ max_desired_speed (capped_heap 1%nat) DOWNLOAD == 5
        /\ max_desired_speed (h1 1%nat) DOWNLOAD == 915 # 10
        /\ max_speed (h1 1%nat) DOWNLOAD == 915 # 10
        /\ max_desired_speed (h2 1%nat) DOWNLOAD == 5
        /\ max_speed (h2 1%nat) DOWNLOAD == 5).
Proof.
  split; [|split].
  - intros rm dir h. split; [reflexivity|apply dispatch_never_local].
  - intros rm dir h d ds Hnd Hcap Hfree Hin Hdes b h' localcap.
    subst b h' localcap.
    destruct (local_priority_served rm dir h d ds Hnd Hin Hdes)
      as (Hloc & _ & Hdesired & Hallowed).
    destruct (local_priority_final getter rm dir h d ds Hnd Hcap Hfree Hin Hdes)
      as (Hreg & Hfinal).
    cbv zeta in Hloc, Hdesired, Hallowed, Hreg, Hfinal.
    rewrite Hfinal. auto.
  - do 2 eexists. split; [reflexivity|]. split; [reflexivity|].
    repeat split; vm_compute; reflexivity.
Qed.

Lemma prioritizelocal_cannot_be_enabled_witness :
  NoDup (map fst (workingset busy_manager DOWNLOAD))
  /\ ~ MaxRate busy_manager DOWNLOAD == 0
  /\ free_wheeling busy_manager DOWNLOAD = false
  /\ (1%nat, busy_state) ∈ workingset busy_manager DOWNLOAD
  /\ ~ max_desired_speed (capped_heap 1%nat) DOWNLOAD == 0
  /\ (1%nat, busy_state)
     ∈ localprioactive
         (snd (dispatch true busy_manager DOWNLOAD
                 (workingset busy_manager DOWNLOAD) capped_heap))
  /\ (1%nat
      ∉ map fst
          (toberegulated (workingset busy_manager DOWNLOAD)
             (snd (dispatch true busy_manager DOWNLOAD
                     (workingset busy_manager DOWNLOAD) capped_heap))))
  /\ max_desired_speed
       (state_of (CalculateBandwidth_with keyed_getter true busy_manager DOWNLOAD
                    capped_heap) 1%nat) DOWNLOAD
     == Qmin (get_current_speed busy_state DOWNLOAD + meancalcupth busy_manager)
          (max_desired_speed (capped_heap 1%nat) DOWNLOAD)
  /\ max_speed
       (state_of (CalculateBandwidth_with keyed_getter true busy_manager DOWNLOAD
                    capped_heap) 1%nat) DOWNLOAD
     = max_desired_speed (capped_heap 1%nat) DOWNLOAD.
Proof.
  assert (Hnd : NoDup (map fst (workingset busy_manager DOWNLOAD))).
  { rewrite busy_workingset. apply (bool_decide_unpack _). reflexivity. }
  assert (Hcap : ~ MaxRate busy_manager DOWNLOAD == 0).
  { vm_compute. discriminate. }
  assert (Hfree : free_wheeling busy_manager DOWNLOAD = false).
  { vm_compute. reflexivity. }
  assert (Hin : (1%nat, busy_state) ∈ workingset busy_manager DOWNLOAD).
  { rewrite busy_workingset. apply list_elem_of_here. }
  assert (Hdes : ~ max_desired_speed (capped_heap 1%nat) DOWNLOAD == 0).
  { vm_compute. discriminate. }
  split; [exact Hnd|]. split; [exact Hcap|]. split; [exact Hfree|].
  split; [exact Hin|]. split; [exact Hdes|].
  exact (proj1 (proj2 (prioritizelocal_cannot_be_enabled keyed_getter))
           busy_manager DOWNLOAD capped_heap 1%nat busy_state
           Hnd Hcap Hfree Hin Hdes).
Defined.
